(** * hp::DoFLevel: compression of the per-level DoF index storage

    A shallow embedding of [source/hp/dof_level.cc] (deal.II): the two
    passes [compress_data] and [uncompress_data] over the three vectors of
    a [DoFLevel], and [normalize_active_fe_indices].

    Vectors are lists; a subscript outside a vector is undefined behaviour
    in C++ and is a result of its own here ([Undefined]).  [Assert] is
    modelled as in a debug build: a failed assertion raises
    [ExcInternalError], and the result records the members of the level as
    the exception leaves them.

    Unsigned integers are values of [Z], and what the source computes in
    [unsigned int] is reduced modulo [2 ^ 32].  Cell numbers are positions
    in the offsets list.  The statements that need the entries of a vector
    to lie in the range of their C++ type, or a size to fit its counter,
    say so. *)

From stdpp Require Import base list sorting.
From Stdlib Require Import ZArith Lia.

Local Open Scope Z_scope.

(** ** Machine integers *)

(** Conversion to [unsigned int]: the counters [next_offset] and
    [new_size] of the source are declared [unsigned int]. *)
Definition to_unsigned (x : Z) : Z := x mod 2 ^ 32.

(** Modelled from the spec: [offset_type] is declared in [dof_level.h],
    which is not among the sources; the offsets are taken to be
    [unsigned int], like the counters the source assigns them to. *)
Definition invalid_offset : Z := to_unsigned (-1).

(** Modelled from the spec: [types::global_dof_index] is declared in
    [base/types.h], which is not among the sources; the indices are
    non-negative integers, taken to be [unsigned int]. *)
Definition to_global_dof_index (x : Z) : Z := x mod 2 ^ 32.

Section DoFLevel.

(** The type of the entries of [active_fe_indices], its two helpers from
    [dof_level.h] and the look-up
    [fe_collection[i].n_dofs_per_object<dim>()] are not among the sources:
    they are parameters of the development. *)
Context {active_fe_index_type : Type}.
Context (is_compressed_entry : active_fe_index_type → bool).
Context (get_toggled_compression_state :
           active_fe_index_type → active_fe_index_type).
Context (n_dofs_per_object : active_fe_index_type → nat).

(** ** The level *)

Record DoFLevel : Type := {
  active_fe_indices : list active_fe_index_type;
  dof_indices : list Z;
  dof_offsets : list Z
}.

(** ** Results of a member function *)

Inductive outcome (A : Type) : Type :=
| Done (a : A)
| ExcInternalError (level : DoFLevel)
| Undefined
| OutOfFuel.
#[global] Arguments Done {A} a.
#[global] Arguments ExcInternalError {A} level.
#[global] Arguments Undefined {A}.
#[global] Arguments OutOfFuel {A}.

#[export] Instance outcome_ret : MRet outcome := λ A a, Done a.
#[export] Instance outcome_bind : MBind outcome := λ A B k m,
  match m with
  | Done a => k a
  | ExcInternalError level => ExcInternalError level
  | Undefined => Undefined
  | OutOfFuel => OutOfFuel
  end.

(** [Assert(cond, ExcInternalError())], raised while the level reads [this]. *)
Definition Assert (this : DoFLevel) (cond : bool) : outcome unit :=
  if cond then Done tt else ExcInternalError this.

(** [v[i]] for an unsigned [i]. *)
Definition subscript {A : Type} (v : list A) (i : Z) : outcome A :=
  if bool_decide (0 ≤ i) then
    match v !! Z.to_nat i with
    | Some a => Done a
    | None => Undefined
    end
  else Undefined.

(** ** The loop over the cells active on the level

    The three writing and counting loops of the source share one skeleton
    (lines 48-60 and 85-89, 96-108 and 151-155, 190-202 and 235-239):
<<
    for (unsigned int cell = 0; cell < dof_offsets.size();)
      if (dof_offsets[cell] != static_cast<offset_type>(-1))
        {
          unsigned int next_cell = cell + 1;
          while ((next_cell < dof_offsets.size()) &&
                 (dof_offsets[next_cell] == static_cast<offset_type>(-1)))
            ++next_cell;
          const unsigned int next_offset =
            (next_cell < dof_offsets.size() ? dof_offsets[next_cell] :
                                              dof_indices.size());
          BODY
          cell = next_cell;
        }
      else
        ++cell;
>>
*)

(** The [while] loop: [rest] is the part of [dof_offsets] from [next_cell]
    on. *)
Fixpoint find_next_cell (rest : list Z) (next_cell : nat) : nat :=
  match rest with
  | o :: rest' =>
      if bool_decide (o = invalid_offset)
      then find_next_cell rest' (S next_cell)
      else next_cell
  | [] => next_cell
  end.

Definition next_offset_at (L : DoFLevel) (next_cell : nat) : Z :=
  match dof_offsets L !! next_cell with
  | Some o => o
  | None => to_unsigned (Z.of_nat (length (dof_indices L)))
  end.

(** The [for] loop; every turn moves [cell] forward, so that
    [length (dof_offsets L)] turns are enough. *)
Fixpoint active_cell_loop {St : Type} (fuel : nat) (L : DoFLevel)
    (body : nat → Z → Z → St → outcome St) (cell : nat) (st : St)
    : outcome St :=
  match dof_offsets L !! cell with
  | None => Done st
  | Some offset =>
      match fuel with
      | O => OutOfFuel
      | S fuel' =>
          if bool_decide (offset ≠ invalid_offset) then
            let next_cell :=
              find_next_cell (drop (S cell) (dof_offsets L)) (S cell) in
            let next_offset := next_offset_at L next_cell in
            st' ← body cell offset next_offset st;
            active_cell_loop fuel' L body next_cell st'
          else active_cell_loop fuel' L body (S cell) st
      end
  end.

(** ** compress_data *)

(** Lines 71-78 and 121-128:
<<
    bool compressible = true;
    for (unsigned int j = dof_offsets[cell] + 1; j < next_offset; ++j)
      if (dof_indices[j] != dof_indices[j - 1] + 1)
        { compressible = false; break; }
>>
    [n] is the number of values of [j] still to visit. *)
Fixpoint compressible_from (indices : list Z) (j : Z) (n : nat)
    : outcome bool :=
  match n with
  | O => Done true
  | S n' =>
      this_index ← subscript indices j;
      previous ← subscript indices (j - 1);
      if bool_decide (this_index ≠ to_global_dof_index (previous + 1))
      then Done false
      else compressible_from indices (j + 1) n'
  end.

Definition is_compressible (indices : list Z) (offset next_offset : Z)
    : outcome bool :=
  compressible_from indices (offset + 1)
    (Z.to_nat (next_offset - (offset + 1))).

(** The first run through (lines 47-89): [new_size]. *)
Definition compress_count (L : DoFLevel) (cell : nat)
    (offset next_offset : Z) (new_size : Z) : outcome Z :=
  fe ← subscript (active_fe_indices L) (Z.of_nat cell);
  Assert L (bool_decide (to_unsigned (next_offset - offset)
                         = Z.of_nat (n_dofs_per_object fe)));;
  if bool_decide (next_offset > offset) then
    compressible ← is_compressible (dof_indices L) offset next_offset;
    if compressible : bool
    then Done (to_unsigned (new_size + 1))
    else Done (to_unsigned (new_size + to_unsigned (next_offset - offset)))
  else Done new_size.

(** What the second run through works on: the two new vectors, and the
    member [active_fe_indices], which it changes in place while
    [dof_indices] and [dof_offsets] stay as they are until the swap. *)
Record writer : Type := {
  new_dof_indices : list Z;
  new_dof_offsets : list Z;
  fe_indices : list active_fe_index_type
}.

Definition level_now (L : DoFLevel) (w : writer) : DoFLevel :=
  {| active_fe_indices := fe_indices w;
     dof_indices := dof_indices L;
     dof_offsets := dof_offsets L |}.

(** [for (i = first; i < next_offset; ++i)
       new_dof_indices.push_back(dof_indices[i]);]
    with [n] values of [i] still to visit. *)
Fixpoint copy_from (indices : list Z) (i : Z) (n : nat) (new : list Z)
    : outcome (list Z) :=
  match n with
  | O => Done new
  | S n' =>
      x ← subscript indices i;
      copy_from indices (i + 1) n' (new ++ [x])
  end.

(** The body of the second run through (lines 110-149). *)
Definition compress_cell (L : DoFLevel) (cell : nat)
    (offset next_offset : Z) (w : writer) : outcome writer :=
  fe ← subscript (fe_indices w) (Z.of_nat cell);
  Assert (level_now L w)
    (bool_decide (to_unsigned (next_offset - offset)
                  = Z.of_nat (n_dofs_per_object fe)));;
  let offsets' :=
    <[cell := to_unsigned (Z.of_nat (length (new_dof_indices w)))]>
      (new_dof_offsets w) in
  if bool_decide (next_offset > offset) then
    compressible ← is_compressible (dof_indices L) offset next_offset;
    if compressible : bool then
      first ← subscript (dof_indices L) offset;
      let w' := {| new_dof_indices := new_dof_indices w ++ [first];
                   new_dof_offsets := offsets';
                   fe_indices := fe_indices w |} in
      Assert (level_now L w') (negb (is_compressed_entry fe));;
      Done {| new_dof_indices := new_dof_indices w';
              new_dof_offsets := offsets';
              fe_indices :=
                <[cell := get_toggled_compression_state fe]>
                  (fe_indices w) |}
    else
      copied ← copy_from (dof_indices L) offset
                 (Z.to_nat (next_offset - offset)) (new_dof_indices w);
      Done {| new_dof_indices := copied;
              new_dof_offsets := offsets';
              fe_indices := fe_indices w |}
  else
    Done {| new_dof_indices := new_dof_indices w;
            new_dof_offsets := offsets';
            fe_indices := fe_indices w |}.

(** The writer both passes start from (lines 92-95 and 186-189). *)
Definition fresh_writer (L : DoFLevel) : writer :=
  {| new_dof_indices := [];
     new_dof_offsets := replicate (length (dof_offsets L)) invalid_offset;
     fe_indices := active_fe_indices L |}.

(** The level once the new vectors are swapped in. *)
Definition swapped (w : writer) : DoFLevel :=
  {| active_fe_indices := fe_indices w;
     dof_indices := new_dof_indices w;
     dof_offsets := new_dof_offsets w |}.

(** Lines 157-160 and 241-244: the last assertion, then the swap. *)
Definition swap_in (L : DoFLevel) (new_size : Z) (w : writer)
    : outcome DoFLevel :=
  Assert (level_now L w)
    (bool_decide (Z.of_nat (length (new_dof_indices w)) = new_size));;
  Done (swapped w).

Definition is_empty {A : Type} (v : list A) : bool :=
  bool_decide (length v = 0%nat).

(** Lines 41 and 170, the test both passes start with:
    [dof_offsets.size() == 0 || dof_indices.size() == 0]. *)
Definition nothing_stored (L : DoFLevel) : bool :=
  is_empty (dof_offsets L) || is_empty (dof_indices L).

Definition compress_sizing (L : DoFLevel) : outcome Z :=
  active_cell_loop (length (dof_offsets L)) L (compress_count L) 0%nat 0.

Definition compress_writing (L : DoFLevel) : outcome writer :=
  active_cell_loop (length (dof_offsets L)) L (compress_cell L) 0%nat
    (fresh_writer L).

Definition compress_data (L : DoFLevel) : outcome DoFLevel :=
  if nothing_stored L then Done L
  else
    new_size ← compress_sizing L;
    w ← compress_writing L;
    swap_in L new_size w.

(** ** uncompress_data *)

(** Modelled from the spec: the accessor [active_fe_index(cell)] is defined
    in [dof_level.h], which is not among the sources; it reads a cell's
    variant id, that is the entry with the compression flag untoggled. *)
Definition active_fe_index (L : DoFLevel) (obj_index : nat)
    : outcome active_fe_index_type :=
  fe ← subscript (active_fe_indices L) (Z.of_nat obj_index);
  Done (if is_compressed_entry fe
        then get_toggled_compression_state fe else fe).

(** The first run through (lines 175-183); [rest] is the part of
    [dof_offsets] from [cell] on. *)
Fixpoint uncompress_count (L : DoFLevel) (rest : list Z) (cell : nat)
    (new_size : Z) : outcome Z :=
  match rest with
  | [] => Done new_size
  | offset :: rest' =>
      if bool_decide (offset ≠ invalid_offset) then
        fe ← active_fe_index L cell;
        uncompress_count L rest' (S cell)
          (to_unsigned (new_size + Z.of_nat (n_dofs_per_object fe)))
      else uncompress_count L rest' (S cell) new_size
  end.

(** [for (i = 0; i < dofs_per_object; ++i)
       new_dof_indices.push_back(dof_indices[dof_offsets[cell]] + i);]
    with [n] values of [i] still to visit. *)
Fixpoint expand_from (indices : list Z) (offset : Z) (i : Z) (n : nat)
    (new : list Z) : outcome (list Z) :=
  match n with
  | O => Done new
  | S n' =>
      first ← subscript indices offset;
      expand_from indices offset (i + 1) n'
        (new ++ [to_global_dof_index (first + i)])
  end.

(** The body of the second run through (lines 204-233). *)
Definition uncompress_cell (L : DoFLevel) (cell : nat)
    (offset next_offset : Z) (w : writer) : outcome writer :=
  let offsets' :=
    <[cell := to_unsigned (Z.of_nat (length (new_dof_indices w)))]>
      (new_dof_offsets w) in
  let w' := {| new_dof_indices := new_dof_indices w;
               new_dof_offsets := offsets';
               fe_indices := fe_indices w |} in
  fe ← subscript (fe_indices w) (Z.of_nat cell);
  if negb (is_compressed_entry fe) then
    Assert (level_now L w')
      (bool_decide (to_unsigned (next_offset - offset)
                    = Z.of_nat (n_dofs_per_object fe)));;
    copied ← copy_from (dof_indices L) offset
               (Z.to_nat (next_offset - offset)) (new_dof_indices w);
    Done {| new_dof_indices := copied;
            new_dof_offsets := offsets';
            fe_indices := fe_indices w |}
  else
    Assert (level_now L w')
      (bool_decide (to_unsigned (next_offset - offset) = 1));;
    let dofs_per_object :=
      n_dofs_per_object (get_toggled_compression_state fe) in
    expanded ← expand_from (dof_indices L) offset 0 dofs_per_object
                 (new_dof_indices w);
    Done {| new_dof_indices := expanded;
            new_dof_offsets := offsets';
            fe_indices :=
              <[cell := get_toggled_compression_state fe]>
                (fe_indices w) |}.

Definition uncompress_sizing (L : DoFLevel) : outcome Z :=
  uncompress_count L (dof_offsets L) 0%nat 0.

Definition uncompress_writing (L : DoFLevel) : outcome writer :=
  active_cell_loop (length (dof_offsets L)) L (uncompress_cell L) 0%nat
    (fresh_writer L).

Definition uncompress_data (L : DoFLevel) : outcome DoFLevel :=
  if nothing_stored L then Done L
  else
    new_size ← uncompress_sizing L;
    w ← uncompress_writing L;
    swap_in L new_size w.

(** ** normalize_active_fe_indices (lines 262-268) *)

Definition normalize_entry (fe : active_fe_index_type)
    : active_fe_index_type :=
  if is_compressed_entry fe then get_toggled_compression_state fe else fe.

Definition normalize_active_fe_indices (L : DoFLevel) : DoFLevel :=
  {| active_fe_indices := normalize_entry <$> active_fe_indices L;
     dof_indices := dof_indices L;
     dof_offsets := dof_offsets L |}.

(** ** The cells active on a level and their stored blocks

    What follows restates, over whole lists, what the loops above visit
    and write; the lemmas below relate the two. *)

(** The offset found by the [while] loop and the conditional after it,
    [size] being [dof_indices.size()] as an [unsigned int]. *)
Fixpoint next_active_offset (size : Z) (rest : list Z) : Z :=
  match rest with
  | [] => size
  | o :: rest' =>
      if bool_decide (o = invalid_offset)
      then next_active_offset size rest' else o
  end.

(** The active cells among [rest] (the offsets from [cell] on), each with
    its offset and the offset that ends its block. *)
Fixpoint active_cells_from (size : Z) (rest : list Z) (cell : nat)
    : list (nat * Z * Z) :=
  match rest with
  | [] => []
  | o :: rest' =>
      if bool_decide (o ≠ invalid_offset)
      then (cell, o, next_active_offset size rest')
             :: active_cells_from size rest' (S cell)
      else active_cells_from size rest' (S cell)
  end.

Definition indices_size (L : DoFLevel) : Z :=
  to_unsigned (Z.of_nat (length (dof_indices L))).

Definition active_cells (L : DoFLevel) : list (nat * Z * Z) :=
  active_cells_from (indices_size L) (dof_offsets L) 0.

Definition cell_numbers (cells : list (nat * Z * Z)) : list nat :=
  (λ x : nat * Z * Z, x.1.1) <$> cells.

(** Running a loop body on a list of cells, one after the other. *)
Fixpoint visit {St : Type} (body : nat → Z → Z → St → outcome St)
    (cells : list (nat * Z * Z)) (st : St) : outcome St :=
  match cells with
  | [] => Done st
  | (cell, offset, next_offset) :: cells' =>
      st' ← body cell offset next_offset st;
      visit body cells' st'
  end.

(** The block [dof_indices[offset] .. dof_indices[next_offset - 1]]. *)
Definition stored_block (L : DoFLevel) (offset next_offset : Z) : list Z :=
  take (Z.to_nat (next_offset - offset))
    (drop (Z.to_nat offset) (dof_indices L)).

(** The subscripts [offset .. next_offset - 1] all lie inside
    [dof_indices] (vacuously so for an empty range). *)
Definition block_in_bounds (L : DoFLevel) (offset next_offset : Z) : bool :=
  bool_decide (next_offset ≤ offset ∨
               (0 ≤ offset ∧ next_offset ≤ Z.of_nat (length (dof_indices L)))).

(** Every value after the first is the one before it plus one, in the
    arithmetic of [types::global_dof_index]. *)
Fixpoint is_run (block : list Z) : bool :=
  match block with
  | x :: (y :: _) as tail =>
      bool_decide (y = to_global_dof_index (x + 1)) && is_run tail
  | _ => true
  end.

(** A block can be compressed when it is not empty and is a run. *)
Definition compressible (block : list Z) : bool :=
  match block with
  | [] => false
  | _ :: _ => is_run block
  end.

(** What the compressed level stores for a block: its first value alone
    when it can be compressed, the block as it is otherwise. *)
Definition compress_block (block : list Z) : list Z :=
  if compressible block then take 1 block else block.

(** The run [v, v+1, ..., v+len-1]. *)
Definition expand_run (v : Z) (len : nat) : list Z :=
  (λ i : nat, to_global_dof_index (v + Z.of_nat i)) <$> seq 0 len.

(** What [compress_data] stores for an active cell. *)
Definition compress_output (L : DoFLevel) (x : nat * Z * Z) : list Z :=
  let '(cell, offset, next_offset) := x in
  compress_block (stored_block L offset next_offset).

(** What [uncompress_data] stores for an active cell. *)
Definition uncompress_output (L : DoFLevel) (x : nat * Z * Z) : list Z :=
  let '(cell, offset, next_offset) := x in
  match active_fe_indices L !! cell with
  | Some fe =>
      if is_compressed_entry fe then
        match dof_indices L !! Z.to_nat offset with
        | Some v =>
            expand_run v
              (n_dofs_per_object (get_toggled_compression_state fe))
        | None => []
        end
      else stored_block L offset next_offset
  | None => []
  end.

(** The length of a cell's block as the assertions compute it. *)
Definition stored_length (x : nat * Z * Z) : Z :=
  let '(cell, offset, next_offset) := x in
  to_unsigned (next_offset - offset).

(** The assertions of [compress_data] on a cell whose entry is [fe]. *)
Definition block_length_mismatch (x : nat * Z * Z)
    (fe : active_fe_index_type) : Prop :=
  stored_length x ≠ Z.of_nat (n_dofs_per_object fe).

Definition double_compression (L : DoFLevel) (x : nat * Z * Z)
    (fe : active_fe_index_type) : Prop :=
  let '(cell, offset, next_offset) := x in
  compressible (stored_block L offset next_offset) = true
  ∧ is_compressed_entry fe = true.

Definition compress_bad (L : DoFLevel) (x : nat * Z * Z)
    (fe : active_fe_index_type) : Prop :=
  block_length_mismatch x fe ∨ double_compression L x fe.

Definition compress_ok (L : DoFLevel) (x : nat * Z * Z)
    (fe : active_fe_index_type) : Prop :=
  let '(cell, offset, next_offset) := x in
  stored_length x = Z.of_nat (n_dofs_per_object fe)
  ∧ block_in_bounds L offset next_offset = true
  ∧ (compressible (stored_block L offset next_offset) = true →
     is_compressed_entry fe = false).

(** The entry [compress_data] leaves for a cell whose entry was [fe]. *)
Definition compress_entry (L : DoFLevel) (x : nat * Z * Z)
    (fe : active_fe_index_type) : active_fe_index_type :=
  let '(cell, offset, next_offset) := x in
  if compressible (stored_block L offset next_offset)
  then get_toggled_compression_state fe else fe.

(** The assertions of [uncompress_data] on a cell whose entry is [fe]. *)
Definition uncompress_bad (x : nat * Z * Z)
    (fe : active_fe_index_type) : Prop :=
  if is_compressed_entry fe
  then stored_length x ≠ 1
  else block_length_mismatch x fe.

Definition uncompress_ok (L : DoFLevel) (x : nat * Z * Z)
    (fe : active_fe_index_type) : Prop :=
  let '(cell, offset, next_offset) := x in
  if is_compressed_entry fe then
    stored_length x = 1
    ∧ (n_dofs_per_object (get_toggled_compression_state fe) ≠ 0%nat →
       0 ≤ offset < Z.of_nat (length (dof_indices L)))
  else
    stored_length x = Z.of_nat (n_dofs_per_object fe)
    ∧ block_in_bounds L offset next_offset = true.

(** The entry [uncompress_data] leaves for a cell whose entry was [fe]:
    the same as [normalize_active_fe_indices] does. *)
Definition uncompress_entry (x : nat * Z * Z)
    (fe : active_fe_index_type) : active_fe_index_type :=
  if is_compressed_entry fe then get_toggled_compression_state fe else fe.

(** The number of values [compress_data] stores for an active cell: one
    if its block can be compressed, the length of the block otherwise. *)
Definition compressed_size (L : DoFLevel) (x : nat * Z * Z) : nat :=
  let '(cell, offset, next_offset) := x in
  if compressible (stored_block L offset next_offset)
  then 1%nat else length (stored_block L offset next_offset).

(** The catalog block length of a cell's variant, the variant being the
    entry with the compression flag untoggled. *)
Definition catalog_length (L : DoFLevel) (cell : nat) : nat :=
  match active_fe_indices L !! cell with
  | Some fe => n_dofs_per_object (normalize_entry fe)
  | None => 0%nat
  end.

(** The number of values a level should hold for a cell: one for a
    compressed block, the catalog block length otherwise. *)
Definition stored_size (L : DoFLevel) (cell : nat) : nat :=
  match active_fe_indices L !! cell with
  | Some fe =>
      if is_compressed_entry fe then 1%nat else n_dofs_per_object fe
  | None => 0%nat
  end.

(** The size invariant of the data model: [dof_indices] holds, for every
    active cell, one value if the block is compressed and as many as the
    catalog says otherwise. *)
Definition size_invariant (L : DoFLevel) : Prop :=
  length (dof_indices L)
  = sum_list_with (stored_size L) (cell_numbers (active_cells L)).

(** The cells of a level laid out afresh: the cell numbers of [cells], the
    block of a cell [x] being as long as [out x] and the blocks following
    each other from position [pos] on. *)
Fixpoint relocate (out : nat * Z * Z → list Z) (pos : nat)
    (cells : list (nat * Z * Z)) : list (nat * Z * Z) :=
  match cells with
  | [] => []
  | x :: cells' =>
      (x.1.1, Z.of_nat pos, Z.of_nat (pos + length (out x)))
        :: relocate out (pos + length (out x)) cells'
  end.

(** [offsets] holds these positions for the cells of [cells]. *)
Fixpoint placed (offsets : list Z) (out : nat * Z * Z → list Z) (pos : nat)
    (cells : list (nat * Z * Z)) : Prop :=
  match cells with
  | [] => True
  | x :: cells' =>
      offsets !! x.1.1 = Some (Z.of_nat pos)
      ∧ placed offsets out (pos + length (out x)) cells'
  end.

(** Every value after the first is the one before it plus one (in the
    unsigned arithmetic of [types::global_dof_index]). *)
Definition consecutive (block : list Z) : Prop :=
  ∀ (j : nat) (x y : Z),
    block !! j = Some x → block !! S j = Some y →
    y = to_global_dof_index (x + 1).

(** The layout invariants of the data model: the index array is short
    enough for its size to differ from the invalid offset; the first
    active block starts at the front of the index array (each block ending
    where the next active one starts, and the last one at the end of the
    array, by the way block ends are read off the offsets); and every
    active cell has an entry and a block of one value if the entry is
    marked compressed, of the catalog length for the entry otherwise. *)
Definition well_laid_out (L : DoFLevel) : Prop :=
  Z.of_nat (length (dof_indices L)) < invalid_offset
  ∧ next_active_offset (indices_size L) (dof_offsets L) = 0
  ∧ ∀ x, x ∈ active_cells L →
      ∃ fe, active_fe_indices L !! x.1.1 = Some fe
            ∧ x.2 - x.1.2
              = Z.of_nat (if is_compressed_entry fe then 1%nat
                          else n_dofs_per_object fe).

(** A level in uncompressed form: laid out as above, every index an
    [unsigned int], and no entry of an active cell marked compressed. *)
Definition uncompressed_form (L : DoFLevel) : Prop :=
  well_laid_out L
  ∧ Forall (λ v, 0 ≤ v < 2 ^ 32) (dof_indices L)
  ∧ ∀ x fe, x ∈ active_cells L → active_fe_indices L !! x.1.1 = Some fe →
      is_compressed_entry fe = false.

(** A member function raises [ExcInternalError]. *)
Definition raises {A : Type} (r : outcome A) : Prop :=
  ∃ level, r = ExcInternalError level.

(** The invariant violations [compress_data] asserts against: an active
    cell whose stored block length disagrees with the catalog block length
    for its entry, or whose block can be compressed while its entry is
    already marked compressed; and a written size that differs from the
    size counted in the first run through. *)
Definition compress_violation (L : DoFLevel) : Prop :=
  (∃ x fe, x ∈ active_cells L ∧ active_fe_indices L !! x.1.1 = Some fe
           ∧ (block_length_mismatch x fe ∨ double_compression L x fe))
  ∨ (∃ new_size w, compress_sizing L = Done new_size
                   ∧ compress_writing L = Done w
                   ∧ Z.of_nat (length (new_dof_indices w)) ≠ new_size).

(** The invariant violations [uncompress_data] asserts against: an active
    cell whose entry is not marked compressed and whose stored block
    length disagrees with the catalog, or whose entry is marked compressed
    and whose stored block length is not one; and a written size that
    differs from the size counted in the first run through. *)
Definition uncompress_violation (L : DoFLevel) : Prop :=
  (∃ x fe, x ∈ active_cells L ∧ active_fe_indices L !! x.1.1 = Some fe
           ∧ uncompress_bad x fe)
  ∨ (∃ new_size w, uncompress_sizing L = Done new_size
                   ∧ uncompress_writing L = Done w
                   ∧ Z.of_nat (length (new_dof_indices w)) ≠ new_size).

(** The writer after a writing loop has visited [cells], each cell [x]
    having passed the checks [ok x fe], appended [out x] and left
    [upd x fe] where its entry was [fe]. *)
Definition written (L : DoFLevel) (out : nat * Z * Z → list Z)
    (ok : nat * Z * Z → active_fe_index_type → Prop)
    (upd : nat * Z * Z → active_fe_index_type → active_fe_index_type)
    (cells : list (nat * Z * Z)) (w : writer) : Prop :=
  new_dof_indices w = cells ≫= out
  ∧ length (new_dof_offsets w) = length (dof_offsets L)
  ∧ (∀ c : nat, c ∉ cell_numbers cells →
       new_dof_offsets w !! c
       = replicate (length (dof_offsets L)) invalid_offset !! c)
  ∧ (∀ (i : nat) x, cells !! i = Some x →
       new_dof_offsets w !! x.1.1
       = Some (to_unsigned (Z.of_nat (length (take i cells ≫= out)))))
  ∧ length (fe_indices w) = length (active_fe_indices L)
  ∧ (∀ c : nat, c ∉ cell_numbers cells →
       fe_indices w !! c = active_fe_indices L !! c)
  ∧ (∀ x, x ∈ cells →
       ∃ fe, active_fe_indices L !! x.1.1 = Some fe
             ∧ ok x fe
             ∧ fe_indices w !! x.1.1 = Some (upd x fe)).

(** The entries a writing loop leaves in the level when it has gone
    through the cells [pre] and no further: where the entry of a cell [x]
    of [pre] was [fe], the checks [ok x fe] have passed and the entry is
    now [upd x fe]; every other entry is as it was. *)
Definition entries_through (ok : nat * Z * Z → active_fe_index_type → Prop)
    (upd : nat * Z * Z → active_fe_index_type → active_fe_index_type)
    (L : DoFLevel) (pre : list (nat * Z * Z)) (lv : DoFLevel) : Prop :=
  length (active_fe_indices lv) = length (active_fe_indices L)
  ∧ (∀ c : nat, c ∉ cell_numbers pre →
       active_fe_indices lv !! c = active_fe_indices L !! c)
  ∧ (∀ x, x ∈ pre →
       ∃ fe, active_fe_indices L !! x.1.1 = Some fe
             ∧ ok x fe
             ∧ active_fe_indices lv !! x.1.1 = Some (upd x fe)).

(** What the subscripts of the two passes rely on: every cell has an
    entry in [active_fe_indices], the size of [dof_indices] fits
    [unsigned int], and every offset is either the invalid one or a
    position of [dof_indices], its end included. *)
Definition in_bounds (L : DoFLevel) : Prop :=
  (length (dof_offsets L) ≤ length (active_fe_indices L))%nat
  ∧ Z.of_nat (length (dof_indices L)) < 2 ^ 32
  ∧ Forall (λ o, o = invalid_offset
                 ∨ 0 ≤ o ≤ Z.of_nat (length (dof_indices L)))
      (dof_offsets L).

(** The offsets of the active cells never decrease: no block ends before
    it starts. *)
Definition monotone_offsets (L : DoFLevel) : Prop :=
  ∀ x, x ∈ active_cells L → x.1.2 ≤ x.2.

(** A level in compressed form, as [compress_data] leaves one: laid out as
    the data model says, every index an [unsigned int], the blocks of the
    catalog lengths fitting an index array; a cell whose entry is marked
    compressed is of a variant with at least one DoF, and the block of a
    cell whose entry is not marked cannot be compressed. *)
Definition compressed_form (L : DoFLevel) : Prop :=
  well_laid_out L
  ∧ Forall (λ v, 0 ≤ v < 2 ^ 32) (dof_indices L)
  ∧ Z.of_nat (sum_list_with (catalog_length L)
                (cell_numbers (active_cells L))) < invalid_offset
  ∧ ∀ x fe, x ∈ active_cells L → active_fe_indices L !! x.1.1 = Some fe →
      if is_compressed_entry fe
      then n_dofs_per_object (get_toggled_compression_state fe) ≠ 0%nat
      else compressible (stored_block L x.1.2 x.2) = false.

End DoFLevel.

#[global] Arguments DoFLevel : clear implicits.
#[global] Arguments outcome : clear implicits.
#[global] Arguments writer : clear implicits.

(** ** A concrete variant catalog and entry encoding, for examples *)

Module Stub.

(** Modelled from the spec: the entries of [active_fe_indices] and the
    helpers [is_compressed_entry] and [get_toggled_compression_state] are
    declared in [dof_level.h], which is not among the sources.  One
    reserved bit of the variant identifier (here the top bit of a 16-bit
    entry) is the compression flag, and toggling flips it. *)
Definition is_compressed_entry (fe : Z) : bool := Z.testbit fe 15.
Definition get_toggled_compression_state (fe : Z) : Z :=
  Z.lxor fe (2 ^ 15).

(** A catalog with two variants: four DoFs per cell for variant 0, one for
    variant 1. *)
Definition n_dofs (fe : Z) : nat :=
  match fe with
  | 0 => 4%nat
  | 1 => 1%nat
  | _ => 0%nat
  end.

Definition compress : DoFLevel Z → outcome Z (DoFLevel Z) :=
  compress_data is_compressed_entry get_toggled_compression_state n_dofs.
Definition uncompress : DoFLevel Z → outcome Z (DoFLevel Z) :=
  uncompress_data is_compressed_entry get_toggled_compression_state n_dofs.
Definition normalize : DoFLevel Z → DoFLevel Z :=
  normalize_active_fe_indices is_compressed_entry
    get_toggled_compression_state.

(** The scenario of the specification: three cells, the second one not
    active on the level. *)
Definition scenario : DoFLevel Z :=
  {| active_fe_indices := [0; 0; 0];
     dof_indices := [10; 11; 12; 13; 20; 22; 23; 21];
     dof_offsets := [0; invalid_offset; 4] |}.

Definition scenario_compressed : DoFLevel Z :=
  {| active_fe_indices := [32768; 0; 0];
     dof_indices := [10; 20; 22; 23; 21];
     dof_offsets := [0; invalid_offset; 1] |}.

(** The two blocks of the specification's compressibility example. *)
Definition two_blocks : DoFLevel Z :=
  {| active_fe_indices := [0; 0];
     dof_indices := [5; 6; 7; 8; 5; 6; 8; 9];
     dof_offsets := [0; 4] |}.

Definition two_blocks_compressed : DoFLevel Z :=
  {| active_fe_indices := [32768; 0];
     dof_indices := [5; 5; 6; 8; 9];
     dof_offsets := [0; 1] |}.

(** A cell of variant 1, with a block of one value. *)
Definition single_value : DoFLevel Z :=
  {| active_fe_indices := [1];
     dof_indices := [7];
     dof_offsets := [0] |}.

Definition single_value_compressed : DoFLevel Z :=
  {| active_fe_indices := [32769];
     dof_indices := [7];
     dof_offsets := [0] |}.

(** A level with a cell but no indices: the cell's block is empty although
    its variant has four DoFs. *)
Definition no_indices : DoFLevel Z :=
  {| active_fe_indices := [0];
     dof_indices := [];
     dof_offsets := [0] |}.

(** A level with neither cells nor indices. *)
Definition empty : DoFLevel Z :=
  {| active_fe_indices := []; dof_indices := []; dof_offsets := [] |}.

(** A level whose first cell is stored compressed and whose second cell
    has one value where its variant has four. *)
Definition half_broken : DoFLevel Z :=
  {| active_fe_indices := [32768; 0];
     dof_indices := [10; 20];
     dof_offsets := [0; 1] |}.

Definition half_broken_raised : DoFLevel Z :=
  {| active_fe_indices := [0; 0];
     dof_indices := [10; 20];
     dof_offsets := [0; 1] |}.

(** A level with a marked entry among unmarked ones. *)
Definition marked : DoFLevel Z :=
  {| active_fe_indices := [32768; 1; 32769];
     dof_indices := [10; 7; 3];
     dof_offsets := [0; 1; 2] |}.

(** What the second run through of [compress_data] has written for the
    scenario, and what the one of [uncompress_data] has written for the
    compressed scenario, before the swap. *)
Definition scenario_written : writer Z :=
  {| new_dof_indices := [10; 20; 22; 23; 21];
     new_dof_offsets := [0; invalid_offset; 1];
     fe_indices := [32768; 0; 0] |}.

Definition scenario_expanded : writer Z :=
  {| new_dof_indices := [10; 11; 12; 13; 20; 22; 23; 21];
     new_dof_offsets := [0; invalid_offset; 4];
     fe_indices := [0; 0; 0] |}.

(** A level whose one cell has three values where its variant has four. *)
Definition short_block : DoFLevel Z :=
  {| active_fe_indices := [0];
     dof_indices := [10; 11; 12];
     dof_offsets := [0] |}.

(** A level whose one block starts behind two values that belong to no
    cell, and what [compress_data] makes of it. *)
Definition leading_gap : DoFLevel Z :=
  {| active_fe_indices := [0];
     dof_indices := [98; 99; 10; 11; 12; 13];
     dof_offsets := [2] |}.

Definition single_run : DoFLevel Z :=
  {| active_fe_indices := [32768];
     dof_indices := [10];
     dof_offsets := [0] |}.

End Stub.

(** * Properties *)

(** The scenario of the specification, run through both passes. *)
Example scenario_compress :
  Stub.compress Stub.scenario = Done Stub.scenario_compressed.
Proof. vm_compute. reflexivity. Qed.

Example scenario_uncompress :
  Stub.uncompress Stub.scenario_compressed = Done Stub.scenario.
Proof. vm_compute. reflexivity. Qed.

(** The block [5,6,7,8] is stored as [5]; the block [5,6,8,9] is stored as
    it is. *)
Example two_blocks_compress :
  Stub.compress Stub.two_blocks = Done Stub.two_blocks_compressed.
Proof. vm_compute. reflexivity. Qed.

(** The empty level goes through both passes as it is. *)
Example empty_level :
  Stub.compress Stub.empty = Done Stub.empty
  ∧ Stub.uncompress Stub.empty = Done Stub.empty.
Proof. split; reflexivity. Qed.

Section Properties.

Context {active_fe_index_type : Type}.
Context (is_compressed_entry : active_fe_index_type → bool).
Context (get_toggled_compression_state :
           active_fe_index_type → active_fe_index_type).
Context (n_dofs_per_object : active_fe_index_type → nat).

Abbreviation T := active_fe_index_type.
Abbreviation Level := (DoFLevel active_fe_index_type).
Abbreviation result := (outcome active_fe_index_type).
Abbreviation toggle := get_toggled_compression_state.

Implicit Types (L : Level) (w : writer active_fe_index_type).
Implicit Types (indices new block : list Z) (cell : nat).

(** ** Sequencing *)

Lemma bind_Done {A B : Type} (a : A) (k : A → result B) :
  (Done a ≫= k) = k a.
Proof. reflexivity. Qed.

Lemma bind_Done_inv {A B : Type} (m : result A) (k : A → result B) b :
  m ≫= k = Done b → ∃ a, m = Done a ∧ k a = Done b.
Proof. destruct m; try discriminate. intros H. by exists a. Qed.

Lemma bind_raise_inv {A B : Type} (m : result A) (k : A → result B) lv :
  m ≫= k = ExcInternalError lv →
  m = ExcInternalError lv ∨ ∃ a, m = Done a ∧ k a = ExcInternalError lv.
Proof.
  destruct m; try discriminate; intros H.
  - right. by exists a.
  - left. by injection H as ->.
Qed.

(** ** Subscripts *)

Lemma subscript_nat {A : Type} (v : list A) (i : nat) :
  @subscript T A v (Z.of_nat i)
  = match v !! i with Some a => Done a | None => Undefined end.
Proof.
  unfold subscript. rewrite bool_decide_eq_true_2 by lia.
  by rewrite Nat2Z.id.
Qed.

Lemma subscript_inside {A : Type} (v : list A) (i : Z) a :
  0 ≤ i → v !! Z.to_nat i = Some a → @subscript T A v i = Done a.
Proof.
  intros Hi Hv. unfold subscript.
  rewrite bool_decide_eq_true_2 by done. by rewrite Hv.
Qed.

Lemma subscript_outside {A : Type} (v : list A) (i : Z) :
  i < 0 ∨ Z.of_nat (length v) ≤ i → @subscript T A v i = Undefined.
Proof.
  intros Hi. unfold subscript. case_bool_decide; [|done].
  rewrite (proj2 (lookup_ge_None v (Z.to_nat i))); [done|lia].
Qed.

Lemma subscript_cases {A : Type} (v : list A) (i : Z) :
  (∃ a, 0 ≤ i ∧ v !! Z.to_nat i = Some a ∧ @subscript T A v i = Done a)
  ∨ ((i < 0 ∨ Z.of_nat (length v) ≤ i) ∧ @subscript T A v i = Undefined).
Proof.
  destruct (decide (0 ≤ i ∧ i < Z.of_nat (length v))) as [[H0 Hlt]|Hout].
  - destruct (lookup_lt_is_Some_2 v (Z.to_nat i)) as [a Ha]; [lia|].
    left. exists a. eauto using subscript_inside.
  - right. split; [lia|]. apply subscript_outside. lia.
Qed.

(** ** The copying loop *)

Lemma copy_from_inside indices i n new :
  0 ≤ i → i + Z.of_nat n ≤ Z.of_nat (length indices) →
  @copy_from T indices i n new
  = Done (new ++ take n (drop (Z.to_nat i) indices)).
Proof.
  revert i new. induction n as [|n IH]; intros i new Hi Hn; simpl.
  - by rewrite app_nil_r.
  - destruct (subscript_cases indices i) as [(x & _ & Hx & ->)|[? _]];
      [|lia].
    rewrite bind_Done, IH by lia.
    rewrite <- (take_drop_middle _ _ _ Hx) at 2.
    rewrite drop_app_length' by (rewrite length_take; lia).
    simpl. rewrite <- app_assoc. simpl.
    replace (Z.to_nat (i + 1)) with (S (Z.to_nat i)) by lia.
    done.
Qed.

Lemma copy_from_outside indices i n new :
  n ≠ 0%nat → i < 0 ∨ Z.of_nat (length indices) < i + Z.of_nat n →
  @copy_from T indices i n new = Undefined.
Proof.
  revert i new. induction n as [|n IH]; intros i new Hn Hout; [done|].
  simpl. destruct (subscript_cases indices i) as [(x & ? & Hx & ->)|[? ->]];
    [|done].
  rewrite bind_Done. apply IH; [|lia].
  intros ->. apply lookup_lt_Some in Hx. lia.
Qed.

(** ** The expanding loop *)

Lemma expand_from_inside indices offset v i n new :
  0 ≤ offset → indices !! Z.to_nat offset = Some v →
  @expand_from T indices offset i n new
  = Done (new ++ ((λ k : nat, to_global_dof_index (v + (i + Z.of_nat k)))
                    <$> seq 0 n)).
Proof.
  intros H0 Hv. revert i new. induction n as [|n IH]; intros i new; simpl.
  - by rewrite app_nil_r.
  - rewrite (subscript_inside _ _ _ H0 Hv), bind_Done, IH.
    rewrite <- app_assoc. do 2 f_equal. simpl. f_equal.
    + f_equal. lia.
    + rewrite <- fmap_S_seq, <- list_fmap_compose.
      apply list_fmap_ext. intros _ k _. simpl. f_equal. lia.
Qed.

Lemma expand_from_outside indices offset i n new :
  n ≠ 0%nat → offset < 0 ∨ Z.of_nat (length indices) ≤ offset →
  @expand_from T indices offset i n new = Undefined.
Proof.
  intros Hn Hout. destruct n; [done|]. simpl.
  by rewrite subscript_outside.
Qed.

(** ** The compressibility loop *)

Lemma compressible_from_inside indices j n :
  1 ≤ j → j + Z.of_nat n ≤ Z.of_nat (length indices) →
  @compressible_from T indices j n
  = Done (is_run (take (S n) (drop (Z.to_nat (j - 1)) indices))).
Proof.
  revert j. induction n as [|n IH]; intros j Hj Hn.
  - simpl. by destruct (drop _ indices) as [|? []].
  - cbn [compressible_from].
    destruct (subscript_cases indices j) as [(y & _ & Hy & ->)|[? _]];
      [|lia].
    destruct (subscript_cases indices (j - 1)) as [(x & _ & Hx & ->)|[? _]];
      [|lia].
    rewrite !bind_Done, IH by lia.
    replace (j + 1 - 1) with j by lia.
    rewrite <- (take_drop_middle _ _ _ Hx) at 2.
    rewrite drop_app_length' by (rewrite length_take; lia).
    replace (S (Z.to_nat (j - 1))) with (Z.to_nat j) by lia.
    rewrite (drop_S _ _ _ Hy).
    cbn [take is_run].
    by case_bool_decide as Hne; case_bool_decide as Heq.
Qed.

Lemma compressible_from_true indices j n :
  @compressible_from T indices j n = Done true →
  n = 0%nat ∨ (1 ≤ j ∧ j + Z.of_nat n ≤ Z.of_nat (length indices)).
Proof.
  revert j. induction n as [|n IH]; intros j H; [by left|right].
  cbn [compressible_from] in H.
  destruct (subscript_cases indices j) as [(y & _ & Hy & Hs)|[? Hs]];
    rewrite Hs in H; [|done].
  destruct (subscript_cases indices (j - 1)) as [(x & ? & _ & Hs')|[? Hs']];
    rewrite Hs' in H; [|done].
  rewrite !bind_Done in H. case_bool_decide; [done|].
  apply lookup_lt_Some in Hy.
  destruct (IH (j + 1)) as [->|?]; [done|lia|lia].
Qed.

Lemma compressible_from_outcome indices j n :
  (∃ b, @compressible_from T indices j n = Done b)
  ∨ @compressible_from T indices j n = Undefined.
Proof.
  revert j. induction n as [|n IH]; intros j; [left; by eexists|].
  cbn [compressible_from].
  destruct (subscript_cases indices j) as [(y & _ & _ & ->)|[_ ->]];
    [|by right].
  destruct (subscript_cases indices (j - 1)) as [(x & _ & _ & ->)|[_ ->]];
    [|by right].
  rewrite !bind_Done. case_bool_decide; [left; by eexists|apply IH].
Qed.

(** ** Stored blocks *)

Lemma stored_block_empty L offset next_offset :
  next_offset ≤ offset → stored_block L offset next_offset = [].
Proof.
  intros H. unfold stored_block.
  by replace (Z.to_nat (next_offset - offset)) with 0%nat by lia.
Qed.

Lemma stored_block_length L offset next_offset :
  0 ≤ offset → next_offset ≤ Z.of_nat (length (dof_indices L)) →
  length (stored_block L offset next_offset)
  = Z.to_nat (next_offset - offset).
Proof.
  intros H0 Hn. unfold stored_block. rewrite length_take, length_drop. lia.
Qed.

Lemma stored_block_first L offset next_offset :
  0 ≤ offset → offset < next_offset →
  next_offset ≤ Z.of_nat (length (dof_indices L)) →
  ∃ v, dof_indices L !! Z.to_nat offset = Some v
       ∧ take 1 (stored_block L offset next_offset) = [v].
Proof.
  intros H0 Hlt Hn.
  destruct (lookup_lt_is_Some_2 (dof_indices L) (Z.to_nat offset))
    as [v Hv]; [lia|].
  exists v. split; [done|]. unfold stored_block.
  rewrite (drop_S _ _ _ Hv).
  by replace (Z.to_nat (next_offset - offset))
    with (S (Z.to_nat (next_offset - offset - 1))) by lia.
Qed.

Lemma is_compressible_inside L offset next_offset :
  0 ≤ offset → offset < next_offset →
  next_offset ≤ Z.of_nat (length (dof_indices L)) →
  @is_compressible T (dof_indices L) offset next_offset
  = Done (compressible (stored_block L offset next_offset)).
Proof.
  intros H0 Hlt Hn. unfold is_compressible.
  rewrite compressible_from_inside by lia.
  replace (offset + 1 - 1) with offset by lia.
  replace (S (Z.to_nat (next_offset - (offset + 1))))
    with (Z.to_nat (next_offset - offset)) by lia.
  fold (stored_block L offset next_offset).
  pose proof (stored_block_length L offset next_offset H0 Hn) as Hlen.
  destruct (stored_block L offset next_offset); [simpl in Hlen; lia|done].
Qed.

(** ** The bodies of the writing loops, case by case *)

Lemma compress_cell_eq L cell offset next_offset w :
  compress_cell is_compressed_entry toggle n_dofs_per_object
    L cell offset next_offset w
  = match fe_indices w !! cell with
    | None => Undefined
    | Some fe =>
        if bool_decide (to_unsigned (next_offset - offset)
                        = Z.of_nat (n_dofs_per_object fe)) then
          if block_in_bounds L offset next_offset then
            let block := stored_block L offset next_offset in
            if compressible block && is_compressed_entry fe
            then ExcInternalError (level_now L w)
            else Done
              {| new_dof_indices := new_dof_indices w ++ compress_block block;
                 new_dof_offsets :=
                   <[cell := to_unsigned
                               (Z.of_nat (length (new_dof_indices w)))]>
                     (new_dof_offsets w);
                 fe_indices :=
                   if compressible block
                   then <[cell := toggle fe]> (fe_indices w)
                   else fe_indices w |}
          else Undefined
        else ExcInternalError (level_now L w)
    end.
Proof.
  unfold compress_cell. rewrite subscript_nat.
  destruct (fe_indices w !! cell) as [fe|]; [|done].
  rewrite bind_Done. unfold Assert.
  destruct (decide (to_unsigned (next_offset - offset)
                    = Z.of_nat (n_dofs_per_object fe))) as [Hlen|Hlen];
    [rewrite !(bool_decide_eq_true_2 _ Hlen)
    |by rewrite !(bool_decide_eq_false_2 _ Hlen)].
  rewrite bind_Done.
  unfold block_in_bounds.
  destruct (decide (next_offset > offset)) as [Hgt|Hgt];
    [rewrite (bool_decide_eq_true_2 _ Hgt)
    |rewrite (bool_decide_eq_false_2 _ Hgt)].
  - case_bool_decide as Hin.
    + destruct Hin as [?|[H0 Hn]]; [lia|].
      rewrite is_compressible_inside, bind_Done by lia.
      destruct (stored_block_first L offset next_offset)
        as (v & Hv & Hfirst); [lia..|].
      unfold compress_block.
      destruct (compressible (stored_block L offset next_offset)).
      * rewrite (subscript_inside _ _ _ H0 Hv), bind_Done, Hfirst.
        by destruct (is_compressed_entry fe).
      * by rewrite copy_from_inside, bind_Done by lia.
    + unfold is_compressible.
      destruct (compressible_from_outcome (dof_indices L) (offset + 1)
                  (Z.to_nat (next_offset - (offset + 1))))
        as [[[] Hc]|Hc]; rewrite Hc; [| |done].
      * rewrite bind_Done.
        apply compressible_from_true in Hc as [Hc|Hc]; [|lia].
        rewrite subscript_outside; [done|lia].
      * rewrite bind_Done, copy_from_outside; [done|lia|lia].
  - rewrite bool_decide_eq_true_2 by lia.
    rewrite stored_block_empty by lia. simpl. by rewrite app_nil_r.
Qed.

Lemma uncompress_cell_eq L cell offset next_offset w :
  uncompress_cell is_compressed_entry toggle n_dofs_per_object
    L cell offset next_offset w
  = let offsets' :=
      <[cell := to_unsigned (Z.of_nat (length (new_dof_indices w)))]>
        (new_dof_offsets w) in
    match fe_indices w !! cell with
    | None => Undefined
    | Some fe =>
        if is_compressed_entry fe then
          if bool_decide (to_unsigned (next_offset - offset) = 1) then
            let len := n_dofs_per_object (toggle fe) in
            match dof_indices L !! Z.to_nat offset with
            | Some v =>
                if bool_decide (0 ≤ offset ∨ len = 0%nat) then
                  Done
                    {| new_dof_indices := new_dof_indices w ++ expand_run v len;
                       new_dof_offsets := offsets';
                       fe_indices := <[cell := toggle fe]> (fe_indices w) |}
                else Undefined
            | None =>
                if bool_decide (len = 0%nat) then
                  Done
                    {| new_dof_indices := new_dof_indices w;
                       new_dof_offsets := offsets';
                       fe_indices := <[cell := toggle fe]> (fe_indices w) |}
                else Undefined
            end
          else ExcInternalError (level_now L w)
        else
          if bool_decide (to_unsigned (next_offset - offset)
                          = Z.of_nat (n_dofs_per_object fe)) then
            if block_in_bounds L offset next_offset then
              Done
                {| new_dof_indices :=
                     new_dof_indices w ++ stored_block L offset next_offset;
                   new_dof_offsets := offsets';
                   fe_indices := fe_indices w |}
            else Undefined
          else ExcInternalError (level_now L w)
    end.
Proof.
  unfold uncompress_cell. rewrite subscript_nat. cbv zeta.
  destruct (fe_indices w !! cell) as [fe|]; [|done].
  rewrite bind_Done. destruct (is_compressed_entry fe); simpl negb; cbv iota.
  - unfold Assert.
    destruct (decide (to_unsigned (next_offset - offset) = 1)) as [Hlen|Hlen];
      [rewrite !(bool_decide_eq_true_2 _ Hlen)
      |by rewrite !(bool_decide_eq_false_2 _ Hlen)].
    rewrite bind_Done.
    destruct (dof_indices L !! Z.to_nat offset) as [v|] eqn:Hv.
    + case_bool_decide as Hin.
      * destruct (decide (0 ≤ offset)) as [H0|Hneg].
        -- rewrite (expand_from_inside _ _ v) by done. rewrite bind_Done.
           unfold expand_run. do 3 f_equal.
        -- destruct Hin as [?|Hz]; [lia|]. rewrite Hz. simpl.
           by rewrite app_nil_r.
      * rewrite expand_from_outside; [done|lia|lia].
    + apply lookup_ge_None in Hv. case_bool_decide as Hz.
      * by rewrite Hz.
      * rewrite expand_from_outside; [done|done|].
        destruct (decide (offset < 0)); [by left|right; lia].
  - unfold Assert.
    destruct (decide (to_unsigned (next_offset - offset)
                      = Z.of_nat (n_dofs_per_object fe))) as [Hlen|Hlen];
      [rewrite !(bool_decide_eq_true_2 _ Hlen)
      |by rewrite !(bool_decide_eq_false_2 _ Hlen)].
    rewrite bind_Done.
    unfold block_in_bounds. case_bool_decide as Hin.
    + destruct (decide (next_offset ≤ offset)).
      * rewrite stored_block_empty, app_nil_r by done.
        by replace (Z.to_nat (next_offset - offset)) with 0%nat by lia.
      * rewrite copy_from_inside by lia. done.
    + rewrite copy_from_outside; [done|lia|lia].
Qed.

(** ** The loop over the active cells visits [active_cells] *)

Lemma find_next_cell_spec (size : Z) (offsets rest : list Z) (k : nat) :
  drop k offsets = rest →
  let k' := find_next_cell rest k in
  (k ≤ k')%nat
  ∧ active_cells_from size (drop k' offsets) k'
    = active_cells_from size rest k
  ∧ match offsets !! k' with Some o => o | None => size end
    = next_active_offset size rest.
Proof.
  revert k. induction rest as [|o rest IH]; intros k Hdrop; simpl.
  - rewrite Hdrop. split; [done|]. split; [done|].
    rewrite (proj2 (lookup_ge_None offsets k)); [done|].
    apply (f_equal length) in Hdrop. rewrite length_drop in Hdrop.
    simpl in Hdrop. lia.
  - assert (offsets !! k = Some o) as Hk.
    { rewrite <- (Nat.add_0_r k), <- lookup_drop, Hdrop. done. }
    assert (drop (S k) offsets = rest) as Hdrop'.
    { rewrite (drop_S _ _ _ Hk) in Hdrop. by injection Hdrop. }
    case_bool_decide as Ho.
    + destruct (IH (S k) Hdrop') as (Hle & Hcells & Hnext).
      rewrite bool_decide_eq_false_2 by tauto.
      split; [lia|]. by split.
    + rewrite bool_decide_eq_true_2 by done.
      rewrite Hdrop, Hk. simpl.
      rewrite bool_decide_eq_true_2 by done. done.
Qed.

Lemma active_cell_loop_visit {St : Type} (fuel : nat) L
    (body : nat → Z → Z → St → result St) cell (st : St) :
  (length (dof_offsets L) ≤ fuel + cell)%nat →
  active_cell_loop fuel L body cell st
  = visit body
      (active_cells_from (indices_size L) (drop cell (dof_offsets L)) cell)
      st.
Proof.
  revert cell st. induction fuel as [|fuel IH]; intros cell st Hfuel.
  - destruct (dof_offsets L !! cell) as [o|] eqn:Hcell.
    + apply lookup_lt_Some in Hcell. lia.
    + simpl. rewrite Hcell. by rewrite drop_ge by lia.
  - simpl. destruct (dof_offsets L !! cell) as [o|] eqn:Hcell.
    + rewrite (drop_S _ _ _ Hcell). simpl.
      destruct (find_next_cell_spec (indices_size L) (dof_offsets L)
                  (drop (S cell) (dof_offsets L)) (S cell) eq_refl)
        as (Hle & Hcells & Hnext).
      case_bool_decide as Ho.
      * simpl. unfold next_offset_at. fold (indices_size L).
        rewrite Hnext.
        destruct (body cell o _ st) as [st'| | |]; try reflexivity.
        rewrite !bind_Done, IH by lia. by rewrite Hcells.
      * apply IH. lia.
    + apply lookup_ge_None in Hcell. by rewrite drop_ge by lia.
Qed.

Lemma active_cell_loop_active_cells {St : Type} L
    (body : nat → Z → Z → St → result St) (st : St) :
  active_cell_loop (length (dof_offsets L)) L body 0 st
  = visit body (active_cells L) st.
Proof. rewrite active_cell_loop_visit by lia. done. Qed.

(** ** Visiting a list of cells *)

Lemma visit_app {St : Type} (body : nat → Z → Z → St → result St)
    (pre post : list (nat * Z * Z)) (st : St) :
  visit body (pre ++ post) st = visit body pre st ≫= visit body post.
Proof.
  revert st. induction pre as [|[[c o] n] pre IH]; intros st; [done|].
  simpl. destruct (body c o n st); try reflexivity.
  rewrite !bind_Done. apply IH.
Qed.

Lemma visit_Done_ind {St : Type} (body : nat → Z → Z → St → result St)
    (P : list (nat * Z * Z) → St → Prop)
    (cells : list (nat * Z * Z)) (st st' : St) :
  P [] st →
  (∀ pre c o n post st1 st2,
     cells = pre ++ (c, o, n) :: post →
     P pre st1 → body c o n st1 = Done st2 → P (pre ++ [(c, o, n)]) st2) →
  visit body cells st = Done st' → P cells st'.
Proof.
  intros Hinit Hstep.
  cut (∀ post pre st1, cells = pre ++ post → P pre st1 →
         visit body post st1 = Done st' → P cells st').
  { intros H. by apply (H cells [] st). }
  induction post as [|[[c o] n] post IH]; intros pre st1 Hcells HP Hvisit.
  - simpl in Hvisit. injection Hvisit as <-.
    by rewrite Hcells, app_nil_r.
  - simpl in Hvisit. apply bind_Done_inv in Hvisit as (st2 & Hbody & Hvisit).
    apply (IH (pre ++ [(c, o, n)]) st2); [|by eauto|done].
    by rewrite <- app_assoc.
Qed.

Lemma visit_raise_inv {St : Type} (body : nat → Z → Z → St → result St)
    (cells : list (nat * Z * Z)) (st : St) lv :
  visit body cells st = ExcInternalError lv →
  ∃ pre c o n post st1,
    cells = pre ++ (c, o, n) :: post
    ∧ visit body pre st = Done st1
    ∧ body c o n st1 = ExcInternalError lv.
Proof.
  revert st. induction cells as [|[[c o] n] cells IH]; intros st H; [done|].
  simpl in H. apply bind_raise_inv in H as [H|(st2 & Hbody & H)].
  - by exists [], c, o, n, cells, st.
  - destruct (IH _ H) as (pre & c' & o' & n' & post & st1 & -> & Hpre & Hx).
    exists ((c, o, n) :: pre), c', o', n', post, st1.
    split; [done|]. split; [|done]. simpl. by rewrite Hbody.
Qed.

Lemma visit_fuel {St : Type} (body : nat → Z → Z → St → result St)
    (cells : list (nat * Z * Z)) (st : St) :
  (∀ c o n st1, body c o n st1 ≠ OutOfFuel) →
  visit body cells st ≠ OutOfFuel.
Proof.
  intros Hbody. revert st.
  induction cells as [|[[c o] n] cells IH]; intros st; [done|].
  simpl. specialize (Hbody c o n st).
  destruct (body c o n st); try done. apply IH.
Qed.

(** ** The list of active cells *)

Lemma active_cells_from_elem (size : Z) (rest : list Z) (k : nat) c o n :
  (c, o, n) ∈ active_cells_from size rest k ↔
  ∃ i : nat, c = (k + i)%nat ∧ rest !! i = Some o ∧ o ≠ invalid_offset
             ∧ n = next_active_offset size (drop (S i) rest).
Proof.
  revert k. induction rest as [|o' rest IH]; intros k; simpl.
  - split; [by intros ?%elem_of_nil|]. by intros (i & _ & ? & _).
  - case_bool_decide as Ho.
    + rewrite elem_of_cons, IH. split.
      * intros [[= -> -> ->]|(i & -> & Hi & Hne & ->)].
        -- exists 0%nat. split; [lia|]. by rewrite drop_0.
        -- exists (S i). split; [lia|]. done.
      * intros ([|i] & -> & Hi & Hne & ->).
        -- left. simpl in Hi. injection Hi as ->.
           by rewrite Nat.add_0_r, drop_0.
        -- right. exists i. split; [lia|]. done.
    + rewrite IH. split.
      * intros (i & -> & Hi & Hne & ->). exists (S i). split; [lia|]. done.
      * intros ([|i] & -> & Hi & Hne & ->).
        -- simpl in Hi. injection Hi as ->. tauto.
        -- exists i. split; [lia|]. done.
Qed.

Lemma active_cells_elem L c o n :
  (c, o, n) ∈ active_cells L ↔
  dof_offsets L !! c = Some o ∧ o ≠ invalid_offset
  ∧ n = next_active_offset (indices_size L) (drop (S c) (dof_offsets L)).
Proof.
  unfold active_cells. rewrite active_cells_from_elem. split.
  - by intros (i & -> & ? & ? & ?).
  - intros (? & ? & ?). by exists c.
Qed.

Lemma active_cells_from_sorted (size : Z) (rest : list Z) (k : nat) :
  StronglySorted (λ x y : nat * Z * Z, (x.1.1 < y.1.1)%nat)
    (active_cells_from size rest k).
Proof.
  revert k. induction rest as [|o rest IH]; intros k; simpl.
  - constructor.
  - case_bool_decide; [|apply IH].
    apply StronglySorted_cons. split; [|apply IH].
    apply Forall_forall. intros [[c o'] n] Hin.
    apply active_cells_from_elem in Hin as (i & -> & _). simpl. lia.
Qed.

Lemma active_cells_NoDup L : NoDup (cell_numbers (active_cells L)).
Proof.
  unfold active_cells. generalize 0%nat as k.
  induction (dof_offsets L) as [|o rest IH]; intros k; simpl.
  - constructor.
  - case_bool_decide; [|apply IH].
    unfold cell_numbers. rewrite fmap_cons. apply NoDup_cons. split; [|apply IH].
    intros Hin. apply list_elem_of_fmap in Hin as ([[c o'] n] & Hc & Hin).
    apply active_cells_from_elem in Hin as (i & -> & _). simpl in Hc. lia.
Qed.

Lemma active_cells_lt L c o n :
  (c, o, n) ∈ active_cells L → (c < length (dof_offsets L))%nat.
Proof. intros (H & _)%active_cells_elem. by apply lookup_lt_Some in H. Qed.

Lemma cell_numbers_app (pre post : list (nat * Z * Z)) :
  cell_numbers (pre ++ post) = cell_numbers pre ++ cell_numbers post.
Proof. apply fmap_app. Qed.

Lemma NoDup_cell_numbers_split (pre post : list (nat * Z * Z)) c o n :
  NoDup (cell_numbers (pre ++ (c, o, n) :: post)) →
  c ∉ cell_numbers pre.
Proof.
  rewrite cell_numbers_app. intros (_ & Hdisj & _)%NoDup_app Hin.
  apply (Hdisj _ Hin). unfold cell_numbers. rewrite fmap_cons. left.
Qed.

(** ** What a writing loop leaves in the writer *)

Section writer_loop.

Variable L : Level.
Variable body : nat → Z → Z → writer T → result (writer T).
Variable out : nat * Z * Z → list Z.
Variable ok bad : nat * Z * Z → T → Prop.
Variable upd : nat * Z * Z → T → T.

Hypothesis body_Done : ∀ c o n w w',
  body c o n w = Done w' →
  ∃ fe, fe_indices w !! c = Some fe
    ∧ ok (c, o, n) fe
    ∧ (active_fe_indices L !! c = Some fe →
       new_dof_indices w' = new_dof_indices w ++ out (c, o, n))
    ∧ new_dof_offsets w'
      = <[c := to_unsigned (Z.of_nat (length (new_dof_indices w)))]>
          (new_dof_offsets w)
    ∧ fe_indices w' = <[c := upd (c, o, n) fe]> (fe_indices w).

Lemma written_fresh : written L out ok upd [] (fresh_writer L).
Proof.
  unfold written, fresh_writer. simpl.
  split; [done|]. split; [by rewrite length_replicate|].
  split; [done|]. split; [done|]. split; [done|]. split; [done|].
  by intros x ?%elem_of_nil.
Qed.

Lemma visit_written cells w :
  NoDup (cell_numbers cells) →
  (∀ x, x ∈ cells → (x.1.1 < length (dof_offsets L))%nat) →
  visit body cells (fresh_writer L) = Done w →
  written L out ok upd cells w.
Proof.
  intros Hnodup Hlt.
  apply (visit_Done_ind body (written L out ok upd)); [apply written_fresh|].
  intros pre c o n post w1 w2 -> (Hind & Hlen & Hoff & Hpos & Hlenfe & Hfe & Hupd)
    Hbody.
  pose proof (NoDup_cell_numbers_split _ _ _ _ _ Hnodup) as Hfresh.
  destruct (body_Done _ _ _ _ _ Hbody) as (fe & Hfe1 & Hok & Hw1 & Hw2 & Hw3).
  assert (active_fe_indices L !! c = Some fe) as Hfe0.
  { by rewrite <- Hfe. }
  specialize (Hw1 Hfe0).
  assert (c < length (dof_offsets L))%nat as Hc.
  { apply (Hlt (c, o, n)). apply elem_of_app. right. left. }
  unfold written. rewrite cell_numbers_app, Hw1, Hw2, Hw3.
  split; [|split; [|split; [|split; [|split; [|split]]]]].
  - by rewrite bind_app, bind_singleton, Hind.
  - by rewrite length_insert.
  - intros c' Hc'. rewrite not_elem_of_app in Hc'. destruct Hc' as [Hc' Hne].
    rewrite list_lookup_insert_ne; [by apply Hoff|].
    intros ->. apply Hne. left.
  - intros i x Hx. apply lookup_app_Some in Hx as [Hx|[Hi Hx]].
    + rewrite list_lookup_insert_ne.
      * rewrite take_app_le by (apply lookup_lt_Some in Hx; lia).
        by apply Hpos.
      * intros ->. apply Hfresh. apply list_elem_of_fmap.
        exists x. split; [done|]. by eapply list_elem_of_lookup_2.
    + destruct (i - length pre)%nat as [|k] eqn:Hk; [|by destruct k].
      injection Hx as <-. simpl.
      rewrite list_lookup_insert_eq by lia.
      replace i with (length pre) by lia.
      by rewrite take_app_length, Hind.
  - by rewrite length_insert.
  - intros c' Hc'. rewrite not_elem_of_app in Hc'. destruct Hc' as [Hc' Hne].
    rewrite list_lookup_insert_ne; [by apply Hfe|].
    intros ->. apply Hne. left.
  - intros x [Hx|Hx%list_elem_of_singleton]%elem_of_app.
    + destruct (Hupd x Hx) as (fe' & Hfe' & Hok' & Hw).
      exists fe'. split; [done|]. split; [done|].
      rewrite list_lookup_insert_ne; [done|].
      intros ->. apply Hfresh. apply list_elem_of_fmap. by exists x.
    + subst x. exists fe. split; [done|]. split; [done|]. simpl.
      apply list_lookup_insert_eq. rewrite Hlenfe.
      by apply lookup_lt_Some in Hfe0.
Qed.

Hypothesis body_raise : ∀ c o n w lv,
  body c o n w = ExcInternalError lv →
  lv = level_now L w ∧ ∃ fe, fe_indices w !! c = Some fe ∧ bad (c, o, n) fe.

Lemma visit_raised cells lv :
  NoDup (cell_numbers cells) →
  (∀ x, x ∈ cells → (x.1.1 < length (dof_offsets L))%nat) →
  visit body cells (fresh_writer L) = ExcInternalError lv →
  ∃ pre x post w1,
    cells = pre ++ x :: post
    ∧ written L out ok upd pre w1
    ∧ lv = level_now L w1
    ∧ ∃ fe, active_fe_indices L !! x.1.1 = Some fe ∧ bad x fe.
Proof.
  intros Hnodup Hlt Hvisit.
  apply visit_raise_inv in Hvisit
    as (pre & c & o & n & post & w1 & -> & Hpre & Hbody).
  exists pre, (c, o, n), post, w1. split; [done|].
  assert (written L out ok upd pre w1) as Hw.
  { apply visit_written; [| |done].
    - rewrite cell_numbers_app in Hnodup. by apply NoDup_app in Hnodup as [? _].
    - intros x Hx. apply Hlt, elem_of_app. by left. }
  split; [done|].
  destruct (body_raise _ _ _ _ _ Hbody) as (-> & fe & Hfe & Hbad).
  split; [done|]. exists fe. split; [|done].
  destruct Hw as (_ & _ & _ & _ & _ & Hsame & _). rewrite <- Hsame; [done|].
  by eapply NoDup_cell_numbers_split.
Qed.

End writer_loop.

(** ** The two writing loops *)

Lemma compress_cell_Done L c o n w w' :
  compress_cell is_compressed_entry toggle n_dofs_per_object L c o n w
  = Done w' →
  ∃ fe, fe_indices w !! c = Some fe
    ∧ compress_ok is_compressed_entry n_dofs_per_object L (c, o, n) fe
    ∧ (active_fe_indices L !! c = Some fe →
       new_dof_indices w' = new_dof_indices w ++ compress_output L (c, o, n))
    ∧ new_dof_offsets w'
      = <[c := to_unsigned (Z.of_nat (length (new_dof_indices w)))]>
          (new_dof_offsets w)
    ∧ fe_indices w' = <[c := compress_entry toggle L (c, o, n) fe]>
                        (fe_indices w).
Proof.
  rewrite compress_cell_eq. intros H.
  destruct (fe_indices w !! c) as [fe|] eqn:Hfe; [|done].
  exists fe. split; [done|].
  case_bool_decide as Hlen; [|done].
  destruct (block_in_bounds L o n) eqn:Hin; [|done].
  cbv zeta in H. unfold compress_ok, compress_entry, compress_output.
  destruct (compressible (stored_block L o n)) eqn:Hc;
    destruct (is_compressed_entry fe) eqn:Hfl; simpl in H; try done;
    injection H as <-; simpl; rewrite ?(list_insert_id _ _ _ Hfe); done.
Qed.

Lemma compress_cell_raise L c o n w lv :
  compress_cell is_compressed_entry toggle n_dofs_per_object L c o n w
  = ExcInternalError lv →
  lv = level_now L w
  ∧ ∃ fe, fe_indices w !! c = Some fe
      ∧ compress_bad is_compressed_entry n_dofs_per_object L (c, o, n) fe.
Proof.
  rewrite compress_cell_eq. intros H.
  destruct (fe_indices w !! c) as [fe|] eqn:Hfe; [|done].
  unfold compress_bad, block_length_mismatch, double_compression.
  case_bool_decide as Hlen.
  - destruct (block_in_bounds L o n) eqn:Hin; [|done].
    cbv zeta in H.
    destruct (compressible (stored_block L o n)) eqn:Hc;
      destruct (is_compressed_entry fe) eqn:Hfl; simpl in H; try done.
    injection H as <-. split; [done|]. exists fe. split; [done|]. by right.
  - injection H as <-. split; [done|]. exists fe. split; [done|]. by left.
Qed.

Lemma uncompress_cell_Done L c o n w w' :
  uncompress_cell is_compressed_entry toggle n_dofs_per_object L c o n w
  = Done w' →
  ∃ fe, fe_indices w !! c = Some fe
    ∧ uncompress_ok is_compressed_entry toggle n_dofs_per_object
        L (c, o, n) fe
    ∧ (active_fe_indices L !! c = Some fe →
       new_dof_indices w'
       = new_dof_indices w
         ++ uncompress_output is_compressed_entry toggle n_dofs_per_object
              L (c, o, n))
    ∧ new_dof_offsets w'
      = <[c := to_unsigned (Z.of_nat (length (new_dof_indices w)))]>
          (new_dof_offsets w)
    ∧ fe_indices w' = <[c := uncompress_entry is_compressed_entry toggle
                               (c, o, n) fe]> (fe_indices w).
Proof.
  rewrite uncompress_cell_eq. cbv zeta. intros H.
  destruct (fe_indices w !! c) as [fe|] eqn:Hfe; [|done].
  exists fe. split; [done|].
  unfold uncompress_ok, uncompress_entry, uncompress_output.
  destruct (is_compressed_entry fe) eqn:Hfl.
  - case_bool_decide as Hlen; [|done].
    destruct (dof_indices L !! Z.to_nat o) as [v|] eqn:Hv.
    + case_bool_decide as Hin; [|done]. injection H as <-. simpl.
      split; [|split; [|done]].
      * split; [done|]. intros Hne. apply lookup_lt_Some in Hv. lia.
      * intros ->. by rewrite Hfl.
    + case_bool_decide as Hz; [|done]. injection H as <-. simpl.
      split; [|split; [|done]].
      * split; [done|]. intros Hne. done.
      * intros ->. by rewrite Hfl, app_nil_r.
  - case_bool_decide as Hlen; [|done].
    destruct (block_in_bounds L o n) eqn:Hin; [|done].
    injection H as <-. simpl. rewrite (list_insert_id _ _ _ Hfe).
    split; [done|]. split; [|done]. intros ->. by rewrite Hfl.
Qed.

Lemma uncompress_cell_raise L c o n w lv :
  uncompress_cell is_compressed_entry toggle n_dofs_per_object L c o n w
  = ExcInternalError lv →
  lv = level_now L w
  ∧ ∃ fe, fe_indices w !! c = Some fe
      ∧ uncompress_bad is_compressed_entry n_dofs_per_object (c, o, n) fe.
Proof.
  rewrite uncompress_cell_eq. cbv zeta. intros H.
  destruct (fe_indices w !! c) as [fe|] eqn:Hfe; [|done].
  unfold uncompress_bad, block_length_mismatch.
  destruct (is_compressed_entry fe) eqn:Hfl.
  - case_bool_decide as Hlen.
    + destruct (dof_indices L !! Z.to_nat o); case_bool_decide; done.
    + injection H as <-. split; [done|]. exists fe. by rewrite Hfl.
  - case_bool_decide as Hlen.
    + by destruct (block_in_bounds L o n).
    + injection H as <-. split; [done|]. exists fe. by rewrite Hfl.
Qed.

Abbreviation compress_data' :=
  (compress_data is_compressed_entry toggle n_dofs_per_object).
Abbreviation uncompress_data' :=
  (uncompress_data is_compressed_entry toggle n_dofs_per_object).
Abbreviation compress_writing' :=
  (compress_writing is_compressed_entry toggle n_dofs_per_object).
Abbreviation uncompress_writing' :=
  (uncompress_writing is_compressed_entry toggle n_dofs_per_object).
Abbreviation compress_sizing' := (compress_sizing n_dofs_per_object).
Abbreviation uncompress_sizing' :=
  (uncompress_sizing is_compressed_entry toggle n_dofs_per_object).
Abbreviation compress_written L :=
  (written L (compress_output L)
     (compress_ok is_compressed_entry n_dofs_per_object L)
     (compress_entry toggle L)).
Abbreviation uncompress_written L :=
  (written L
     (uncompress_output is_compressed_entry toggle n_dofs_per_object L)
     (uncompress_ok is_compressed_entry toggle n_dofs_per_object L)
     (uncompress_entry is_compressed_entry toggle)).

Lemma active_cells_lt' L x :
  x ∈ active_cells L → (x.1.1 < length (dof_offsets L))%nat.
Proof. destruct x as [[c o] n]. apply active_cells_lt. Qed.

Lemma compress_writing_Done L w :
  compress_writing' L = Done w → compress_written L (active_cells L) w.
Proof.
  unfold compress_writing. rewrite active_cell_loop_active_cells.
  apply visit_written;
    [apply compress_cell_Done|apply active_cells_NoDup|apply active_cells_lt'].
Qed.

Lemma compress_writing_raise L lv :
  compress_writing' L = ExcInternalError lv →
  ∃ pre x post w1,
    active_cells L = pre ++ x :: post
    ∧ compress_written L pre w1
    ∧ lv = level_now L w1
    ∧ ∃ fe, active_fe_indices L !! x.1.1 = Some fe
        ∧ compress_bad is_compressed_entry n_dofs_per_object L x fe.
Proof.
  unfold compress_writing. rewrite active_cell_loop_active_cells.
  apply visit_raised;
    [apply compress_cell_Done|apply compress_cell_raise
    |apply active_cells_NoDup|apply active_cells_lt'].
Qed.

Lemma uncompress_writing_Done L w :
  uncompress_writing' L = Done w → uncompress_written L (active_cells L) w.
Proof.
  unfold uncompress_writing. rewrite active_cell_loop_active_cells.
  apply visit_written;
    [apply uncompress_cell_Done|apply active_cells_NoDup
    |apply active_cells_lt'].
Qed.

Lemma uncompress_writing_raise L lv :
  uncompress_writing' L = ExcInternalError lv →
  ∃ pre x post w1,
    active_cells L = pre ++ x :: post
    ∧ uncompress_written L pre w1
    ∧ lv = level_now L w1
    ∧ ∃ fe, active_fe_indices L !! x.1.1 = Some fe
        ∧ uncompress_bad is_compressed_entry n_dofs_per_object x fe.
Proof.
  unfold uncompress_writing. rewrite active_cell_loop_active_cells.
  apply visit_raised;
    [apply uncompress_cell_Done|apply uncompress_cell_raise
    |apply active_cells_NoDup|apply active_cells_lt'].
Qed.

(** ** The counting loops *)

Lemma compress_count_raise L c o n new_size lv :
  compress_count n_dofs_per_object L c o n new_size = ExcInternalError lv →
  lv = L ∧ ∃ fe, active_fe_indices L !! c = Some fe
             ∧ block_length_mismatch n_dofs_per_object (c, o, n) fe.
Proof.
  unfold compress_count. rewrite subscript_nat.
  destruct (active_fe_indices L !! c) as [fe|]; [|done].
  rewrite bind_Done. unfold Assert, block_length_mismatch, stored_length.
  destruct (decide (to_unsigned (n - o) = Z.of_nat (n_dofs_per_object fe)))
    as [Hlen|Hlen].
  - rewrite (bool_decide_eq_true_2 _ Hlen), bind_Done.
    case_bool_decide; [|done]. unfold is_compressible.
    destruct (compressible_from_outcome (dof_indices L) (o + 1)
                (Z.to_nat (n - (o + 1)))) as [[[] ->]| ->]; done.
  - rewrite (bool_decide_eq_false_2 _ Hlen). intros [= <-]. eauto.
Qed.

Lemma compress_sizing_raise L lv :
  compress_sizing' L = ExcInternalError lv →
  lv = L ∧ ∃ x fe, x ∈ active_cells L
             ∧ active_fe_indices L !! x.1.1 = Some fe
             ∧ block_length_mismatch n_dofs_per_object x fe.
Proof.
  unfold compress_sizing. rewrite active_cell_loop_active_cells.
  intros (pre & c & o & n & post & st1 & Hcells & _ & Hbody)%visit_raise_inv.
  apply compress_count_raise in Hbody as (-> & fe & Hfe & Hbad).
  split; [done|]. exists (c, o, n), fe. split; [|done].
  rewrite Hcells. apply elem_of_app. right. left.
Qed.

Lemma uncompress_count_no_raise L rest cell new_size lv :
  uncompress_count is_compressed_entry toggle n_dofs_per_object
    L rest cell new_size ≠ ExcInternalError lv.
Proof.
  revert cell new_size. induction rest as [|o rest IH]; intros c s; [done|].
  simpl. case_bool_decide; [|apply IH].
  unfold active_fe_index. rewrite subscript_nat.
  destruct (active_fe_indices L !! c); [|done]. rewrite !bind_Done. apply IH.
Qed.

(** ** Fuel *)

Lemma compress_cell_fuel L c o n w :
  compress_cell is_compressed_entry toggle n_dofs_per_object L c o n w
  ≠ OutOfFuel.
Proof.
  rewrite compress_cell_eq. cbv zeta. repeat case_match; done.
Qed.

Lemma uncompress_cell_fuel L c o n w :
  uncompress_cell is_compressed_entry toggle n_dofs_per_object L c o n w
  ≠ OutOfFuel.
Proof.
  rewrite uncompress_cell_eq. cbv zeta. repeat case_match; done.
Qed.

Lemma compress_count_fuel L c o n new_size :
  compress_count n_dofs_per_object L c o n new_size ≠ OutOfFuel.
Proof.
  unfold compress_count. rewrite subscript_nat.
  destruct (active_fe_indices L !! c) as [fe|]; [|done].
  rewrite bind_Done. unfold Assert.
  destruct (bool_decide (to_unsigned (n - o) = _)); [|done].
  rewrite bind_Done. destruct (bool_decide (n > o)); [|done].
  unfold is_compressible.
  destruct (compressible_from_outcome (dof_indices L) (o + 1)
              (Z.to_nat (n - (o + 1)))) as [[[] ->]| ->]; done.
Qed.

Lemma uncompress_count_fuel L rest cell new_size :
  uncompress_count is_compressed_entry toggle n_dofs_per_object
    L rest cell new_size ≠ OutOfFuel.
Proof.
  revert cell new_size. induction rest as [|o rest IH]; intros c s; [done|].
  simpl. case_bool_decide; [|apply IH].
  unfold active_fe_index. rewrite subscript_nat.
  destruct (active_fe_indices L !! c); [|done]. rewrite !bind_Done. apply IH.
Qed.

Lemma compress_data_fuel L : compress_data' L ≠ OutOfFuel.
Proof.
  unfold compress_data. destruct (nothing_stored L); [done|].
  unfold compress_sizing, compress_writing.
  rewrite !active_cell_loop_active_cells.
  pose proof (visit_fuel (compress_count n_dofs_per_object L)
                (active_cells L) 0 (compress_count_fuel L)) as Hs.
  destruct (visit (compress_count _ L) _ _) as [ns| | |]; try done.
  rewrite bind_Done.
  pose proof (visit_fuel _ (active_cells L) (fresh_writer L)
                (compress_cell_fuel L)) as Hw.
  destruct (visit (compress_cell _ _ _ L) _ _) as [w| | |]; try done.
  rewrite bind_Done. unfold swap_in, Assert. by case_bool_decide.
Qed.

Lemma uncompress_data_fuel L : uncompress_data' L ≠ OutOfFuel.
Proof.
  unfold uncompress_data. destruct (nothing_stored L); [done|].
  unfold uncompress_sizing, uncompress_writing.
  rewrite !active_cell_loop_active_cells.
  pose proof (uncompress_count_fuel L (dof_offsets L) 0 0) as Hs.
  destruct (uncompress_count _ _ _ L _ _ _) as [ns| | |]; try done.
  rewrite bind_Done.
  pose proof (visit_fuel _ (active_cells L) (fresh_writer L)
                (uncompress_cell_fuel L)) as Hw.
  destruct (visit (uncompress_cell _ _ _ L) _ _) as [w| | |]; try done.
  rewrite bind_Done. unfold swap_in, Assert. by case_bool_decide.
Qed.

(** ** The two passes, outcome by outcome *)

Lemma swap_in_Done L new_size w L' :
  swap_in L new_size w = Done L' →
  Z.of_nat (length (new_dof_indices w)) = new_size
  ∧ L' = swapped w.
Proof.
  unfold swap_in, Assert. case_bool_decide; [|done].
  rewrite bind_Done. by intros [= <-].
Qed.

Lemma swap_in_raise L new_size w lv :
  swap_in L new_size w = ExcInternalError lv →
  Z.of_nat (length (new_dof_indices w)) ≠ new_size ∧ lv = level_now L w.
Proof.
  unfold swap_in, Assert. case_bool_decide; [done|]. by intros [= <-].
Qed.

Lemma compress_data_Done L L' :
  nothing_stored L = false → compress_data' L = Done L' →
  ∃ w, compress_writing' L = Done w
    ∧ compress_sizing' L = Done (Z.of_nat (length (new_dof_indices w)))
    ∧ L' = swapped w.
Proof.
  intros Hruns. unfold compress_data. rewrite Hruns.
  intros (ns & Hs & (w & Hw & (<- & ->)%swap_in_Done)%bind_Done_inv)%bind_Done_inv.
  by exists w.
Qed.

Lemma compress_data_raise L lv :
  compress_data' L = ExcInternalError lv →
  nothing_stored L = false
  ∧ (compress_sizing' L = ExcInternalError lv
     ∨ ∃ new_size, compress_sizing' L = Done new_size
         ∧ (compress_writing' L = ExcInternalError lv
            ∨ ∃ w, compress_writing' L = Done w
                ∧ Z.of_nat (length (new_dof_indices w)) ≠ new_size
                ∧ lv = level_now L w)).
Proof.
  unfold compress_data. destruct (nothing_stored L); [done|].
  intros [Hs|(ns & Hs & [Hw|(w & Hw & [? ?]%swap_in_raise)]%bind_raise_inv)]
    %bind_raise_inv; split; try done; [by left|right; exists ns..].
  - split; [done|]. by left.
  - split; [done|]. right. by exists w.
Qed.

Lemma uncompress_data_Done L L' :
  nothing_stored L = false → uncompress_data' L = Done L' →
  ∃ w, uncompress_writing' L = Done w
    ∧ uncompress_sizing' L = Done (Z.of_nat (length (new_dof_indices w)))
    ∧ L' = swapped w.
Proof.
  intros Hruns. unfold uncompress_data. rewrite Hruns.
  intros (ns & Hs & (w & Hw & (<- & ->)%swap_in_Done)%bind_Done_inv)%bind_Done_inv.
  by exists w.
Qed.

Lemma uncompress_data_raise L lv :
  uncompress_data' L = ExcInternalError lv →
  nothing_stored L = false
  ∧ ∃ new_size, uncompress_sizing' L = Done new_size
      ∧ (uncompress_writing' L = ExcInternalError lv
         ∨ ∃ w, uncompress_writing' L = Done w
             ∧ Z.of_nat (length (new_dof_indices w)) ≠ new_size
             ∧ lv = level_now L w).
Proof.
  unfold uncompress_data. destruct (nothing_stored L); [done|].
  intros [Hs|(ns & Hs & H)]%bind_raise_inv.
  { by apply uncompress_count_no_raise in Hs. }
  split; [done|]. exists ns. split; [done|].
  apply bind_raise_inv in H as [Hw|(w & Hw & [? ?]%swap_in_raise)].
  - by left.
  - right. by exists w.
Qed.

(** ** What a finished writing loop says about single cells *)

Lemma to_unsigned_small (z : Z) : 0 ≤ z < 2 ^ 32 → to_unsigned z = z.
Proof. intros H. unfold to_unsigned. by apply Z.mod_small. Qed.

Lemma invalid_offset_eq : invalid_offset = 2 ^ 32 - 1.
Proof. reflexivity. Qed.

Lemma length_bind_take {A B : Type} (f : A → list B) (l : list A) (i : nat) :
  (length (take i l ≫= f) ≤ length (l ≫= f))%nat.
Proof.
  rewrite <- (take_drop i l) at 2. rewrite bind_app, length_app. lia.
Qed.

Section written_facts.

Variable L : Level.
Variable out : nat * Z * Z → list Z.
Variable ok : nat * Z * Z → T → Prop.
Variable upd : nat * Z * Z → T → T.
Variable cells : list (nat * Z * Z).
Variable w : writer T.
Hypothesis Hw : written L out ok upd cells w.

Lemma written_inactive c :
  c ∉ cell_numbers cells → (c < length (dof_offsets L))%nat →
  new_dof_offsets w !! c = Some invalid_offset.
Proof.
  intros Hc Hlt. destruct Hw as (_ & _ & Hoff & _).
  rewrite Hoff by done. by apply lookup_replicate_2.
Qed.

Lemma written_position (i : nat) x :
  Z.of_nat (length (new_dof_indices w)) < 2 ^ 32 →
  cells !! i = Some x →
  new_dof_offsets w !! x.1.1
  = Some (Z.of_nat (length (take i cells ≫= out)))
  ∧ (length (take i cells ≫= out) ≤ length (new_dof_indices w))%nat.
Proof.
  intros Hsmall Hx. destruct Hw as (Hind & _ & _ & Hpos & _).
  assert (length (take i cells ≫= out) ≤ length (new_dof_indices w))%nat.
  { rewrite Hind. apply length_bind_take. }
  split; [|done]. rewrite (Hpos _ _ Hx), to_unsigned_small; [done|lia].
Qed.

Lemma written_entries c :
  (∀ x fe, upd x fe = fe ∨ upd x fe = toggle fe) →
  fe_indices w !! c = active_fe_indices L !! c
  ∨ fe_indices w !! c = toggle <$> active_fe_indices L !! c.
Proof.
  intros Hupd. destruct Hw as (_ & _ & _ & _ & _ & Hsame & Hnew).
  destruct (decide (c ∈ cell_numbers cells)) as [Hin|Hout]; [|by left; auto].
  apply list_elem_of_fmap in Hin as (x & -> & Hx).
  destruct (Hnew x Hx) as (fe & -> & _ & ->).
  destruct (Hupd x fe) as [-> | ->]; [by left|by right].
Qed.

End written_facts.

Lemma compress_entry_cases L x fe :
  compress_entry toggle L x fe = fe ∨ compress_entry toggle L x fe = toggle fe.
Proof.
  destruct x as [[c o] n]. unfold compress_entry.
  destruct (compressible _); auto.
Qed.

Lemma uncompress_entry_cases x fe :
  uncompress_entry is_compressed_entry toggle x fe = fe
  ∨ uncompress_entry is_compressed_entry toggle x fe = toggle fe.
Proof. unfold uncompress_entry. destruct (is_compressed_entry fe); auto. Qed.

Lemma inactive_not_active_cell L c :
  dof_offsets L !! c = Some invalid_offset →
  c ∉ cell_numbers (active_cells L).
Proof.
  intros Hc Hin. apply list_elem_of_fmap in Hin as ([[c' o] n] & -> & Hin).
  apply active_cells_elem in Hin as (Ho & Hne & _). simpl in Hc. congruence.
Qed.

(** * The claims *)

(** ** C7: the empty-level shortcut

    C7, as amended: when the offsets array or the indices array is empty
    (both of them, or only one of the two), [compress_data] and
    [uncompress_data] return at once and leave the level as it is. *)
Theorem empty_vector_is_noop L :
  dof_offsets L = [] ∨ dof_indices L = [] →
  compress_data is_compressed_entry toggle n_dofs_per_object L = Done L
  ∧ uncompress_data is_compressed_entry toggle n_dofs_per_object L = Done L.
Proof.
  intros Hempty.
  assert (nothing_stored L = true) as Hshort.
  { unfold nothing_stored, is_empty. destruct Hempty as [-> | ->]; simpl.
    - done.
    - by rewrite orb_true_r. }
  unfold compress_data, uncompress_data. by rewrite Hshort.
Qed.

(** ** C9: normalize_active_fe_indices

    C9: normalize untoggles the flag of every entry marked compressed and
    leaves [dof_indices] and [dof_offsets] alone; applied twice it gives
    what it gives applied once.  The helpers of [dof_level.h] enter through
    one property: untoggling a compressed entry gives an entry that is not
    marked compressed. *)
Theorem normalize_idempotent L :
  (∀ fe, is_compressed_entry fe = true →
         is_compressed_entry (toggle fe) = false) →
  let N := normalize_active_fe_indices is_compressed_entry toggle in
  dof_indices (N L) = dof_indices L
  ∧ dof_offsets (N L) = dof_offsets L
  ∧ (∀ c fe, active_fe_indices L !! c = Some fe →
       active_fe_indices (N L) !! c
       = Some (if is_compressed_entry fe then toggle fe else fe))
  ∧ (∀ c fe, active_fe_indices (N L) !! c = Some fe →
       is_compressed_entry fe = false)
  ∧ N (N L) = N L.
Proof.
  intros Hflip N.
  assert (∀ fe, is_compressed_entry
                  (normalize_entry is_compressed_entry toggle fe) = false)
    as Hclean.
  { intros fe. unfold normalize_entry.
    destruct (is_compressed_entry fe) eqn:Hfe; auto. }
  split; [done|]. split; [done|]. split; [|split].
  - intros c fe Hc. unfold N, normalize_active_fe_indices. simpl.
    by rewrite list_lookup_fmap, Hc.
  - intros c fe. unfold N, normalize_active_fe_indices. simpl.
    rewrite list_lookup_fmap.
    destruct (active_fe_indices L !! c) as [fe'|]; [|done].
    intros [= <-]. apply Hclean.
  - unfold N, normalize_active_fe_indices. simpl. f_equal.
    rewrite <- list_fmap_compose. apply list_fmap_ext. intros _ fe _. simpl.
    unfold normalize_entry at 1. by rewrite Hclean.
Qed.

(** ** C8: what a failed pass leaves behind *)

Lemma compress_count_Done L c o n (s s' : Z) :
  compress_count n_dofs_per_object L c o n s = Done s' →
  ∃ fe, active_fe_indices L !! c = Some fe
        ∧ stored_length (c, o, n) = Z.of_nat (n_dofs_per_object fe).
Proof.
  unfold compress_count. rewrite subscript_nat.
  destruct (active_fe_indices L !! c) as [fe|]; [|done].
  rewrite bind_Done. unfold Assert, stored_length.
  destruct (decide (to_unsigned (n - o) = Z.of_nat (n_dofs_per_object fe)))
    as [Hlen|Hlen].
  - intros _. by exists fe.
  - by rewrite (bool_decide_eq_false_2 _ Hlen).
Qed.

Lemma compress_sizing_checked L (s : Z) x :
  compress_sizing' L = Done s → x ∈ active_cells L →
  ∃ fe, active_fe_indices L !! x.1.1 = Some fe
        ∧ stored_length x = Z.of_nat (n_dofs_per_object fe).
Proof.
  unfold compress_sizing. rewrite active_cell_loop_active_cells.
  intros Hdone. revert x.
  apply (visit_Done_ind (compress_count n_dofs_per_object L)
           (λ pre _, ∀ x, x ∈ pre →
              ∃ fe, active_fe_indices L !! x.1.1 = Some fe
                    ∧ stored_length x = Z.of_nat (n_dofs_per_object fe))
           (active_cells L) 0 s); [|clear Hdone|done].
  - intros x Hx. by apply elem_of_nil in Hx.
  - intros pre c o n post s1 s2 _ IH Hbody x
      [Hx|Hx%list_elem_of_singleton]%elem_of_app; [by apply IH|].
    subst x. by apply compress_count_Done in Hbody.
Qed.

Lemma written_entries_through L out ok upd cells w :
  written L out ok upd cells w →
  entries_through ok upd L cells (level_now L w).
Proof. intros (_ & _ & _ & _ & Hlen & Hsame & Hnew). by split. Qed.

(** C8, as amended: a pass either runs to completion and only then swaps
    the new offsets and indices into the level, or it raises before the
    swap; [dof_offsets] and [dof_indices] are then as they were, and an
    entry of [active_fe_indices] is either as it was or toggled.  The
    entries are not rolled back: the level the exception leaves has, for
    every cell the second run through had gone through, the entry that run
    has set (toggled by [compress_data] if the block of the cell can be
    compressed, by [uncompress_data] if the entry was marked compressed),
    and for every other cell the entry it had.  The cells gone through
    are those before the first cell that fails an assertion of the second
    run through, or all active cells if it is the last assertion that
    fails; only the first run through of [compress_data], which fails on a
    block length, leaves the level as it was. *)
Theorem failed_pass_keeps_vectors L lv :
  (compress_data is_compressed_entry toggle n_dofs_per_object L
   = ExcInternalError lv →
   dof_indices lv = dof_indices L
   ∧ dof_offsets lv = dof_offsets L
   ∧ (∀ c, active_fe_indices lv !! c = active_fe_indices L !! c
           ∨ active_fe_indices lv !! c = toggle <$> active_fe_indices L !! c)
   ∧ ((lv = L
       ∧ ∃ x fe, x ∈ active_cells L
           ∧ active_fe_indices L !! x.1.1 = Some fe
           ∧ block_length_mismatch n_dofs_per_object x fe)
      ∨ (∃ pre x post fe,
           active_cells L = pre ++ x :: post
           ∧ entries_through
               (compress_ok is_compressed_entry n_dofs_per_object L)
               (compress_entry toggle L) L pre lv
           ∧ active_fe_indices L !! x.1.1 = Some fe
           ∧ double_compression is_compressed_entry L x fe)
      ∨ entries_through
          (compress_ok is_compressed_entry n_dofs_per_object L)
          (compress_entry toggle L) L (active_cells L) lv))
  ∧ (uncompress_data is_compressed_entry toggle n_dofs_per_object L
     = ExcInternalError lv →
     dof_indices lv = dof_indices L
     ∧ dof_offsets lv = dof_offsets L
     ∧ (∀ c, active_fe_indices lv !! c = active_fe_indices L !! c
             ∨ active_fe_indices lv !! c
               = toggle <$> active_fe_indices L !! c)
     ∧ ((∃ pre x post fe,
           active_cells L = pre ++ x :: post
           ∧ entries_through
               (uncompress_ok is_compressed_entry toggle n_dofs_per_object L)
               (uncompress_entry is_compressed_entry toggle) L pre lv
           ∧ active_fe_indices L !! x.1.1 = Some fe
           ∧ uncompress_bad is_compressed_entry n_dofs_per_object x fe)
        ∨ entries_through
            (uncompress_ok is_compressed_entry toggle n_dofs_per_object L)
            (uncompress_entry is_compressed_entry toggle) L
            (active_cells L) lv)).
Proof.
  split; intros H.
  - apply compress_data_raise in H
      as (_ & [H|(ns & Hs & [H|(w & H & _ & ->)])]).
    + apply compress_sizing_raise in H as (-> & Hbad).
      split; [done|]. split; [done|]. split; [by left|]. by left.
    + apply compress_writing_raise in H
        as (pre & x & post & w1 & Hsplit & Hw & -> & fe & Hfe & Hbad).
      split; [done|]. split; [done|]. split.
      { intros c. simpl. eapply written_entries; [done|].
        apply compress_entry_cases. }
      right. left. exists pre, x, post, fe. split; [done|].
      split; [by eapply written_entries_through|]. split; [done|].
      destruct Hbad as [Hbad|Hbad]; [exfalso|done].
      destruct (compress_sizing_checked L ns x Hs) as (fe' & Hfe' & Hlen).
      { rewrite Hsplit. apply elem_of_app. right. left. }
      assert (fe' = fe) as -> by congruence. by apply Hbad.
    + apply compress_writing_Done in H.
      split; [done|]. split; [done|]. split.
      { intros c. simpl. eapply written_entries; [done|].
        apply compress_entry_cases. }
      right. right. by eapply written_entries_through.
  - apply uncompress_data_raise in H
      as (_ & ns & _ & [H|(w & H & _ & ->)]).
    + apply uncompress_writing_raise in H
        as (pre & x & post & w1 & Hsplit & Hw & -> & fe & Hfe & Hbad).
      split; [done|]. split; [done|]. split.
      { intros c. simpl. eapply written_entries; [done|].
        apply uncompress_entry_cases. }
      left. exists pre, x, post, fe. split; [done|].
      split; [by eapply written_entries_through|]. by split.
    + apply uncompress_writing_Done in H.
      split; [done|]. split; [done|]. split.
      { intros c. simpl. eapply written_entries; [done|].
        apply uncompress_entry_cases. }
      right. by eapply written_entries_through.
Qed.

(** ** C5: cells not active on the level

    C5: a cell whose offset is the invalid offset before a pass has the
    invalid offset after it, whether the pass is [compress_data] or
    [uncompress_data]; the offsets array keeps its length; and a cell that
    was active stays active, as long as the new index array is short enough
    for every position in it to differ from the invalid offset. *)
Theorem inactive_cells_stay_inactive L L' :
  compress_data is_compressed_entry toggle n_dofs_per_object L = Done L'
  ∨ uncompress_data is_compressed_entry toggle n_dofs_per_object L = Done L' →
  length (dof_offsets L') = length (dof_offsets L)
  ∧ (∀ c, dof_offsets L !! c = Some invalid_offset →
          dof_offsets L' !! c = Some invalid_offset)
  ∧ (Z.of_nat (length (dof_indices L')) < invalid_offset →
     ∀ c o, dof_offsets L !! c = Some o → o ≠ invalid_offset →
            ∃ o', dof_offsets L' !! c = Some o' ∧ o' ≠ invalid_offset).
Proof.
  intros H.
  destruct (nothing_stored L) eqn:Hshort.
  { assert (L' = L) as ->; [|by eauto].
    unfold compress_data, uncompress_data in H. rewrite Hshort in H.
    by destruct H as [[= ->]|[= ->]]. }
  assert (∃ out ok upd w,
            written L out ok upd (active_cells L) w
            ∧ dof_indices L' = new_dof_indices w
            ∧ dof_offsets L' = new_dof_offsets w)
    as (out & ok & upd & w & Hw & Hind & Hoff).
  { destruct H as [H|H].
    - apply compress_data_Done in H as (w & Hw%compress_writing_Done & _ & ->);
        [|done]. by eexists _, _, _, w.
    - apply uncompress_data_Done in H
        as (w & Hw%uncompress_writing_Done & _ & ->); [|done].
      by eexists _, _, _, w. }
  rewrite Hind, Hoff. split; [|split].
  - by destruct Hw as (_ & ? & _).
  - intros c Hc. eapply written_inactive; [done| |].
    + by apply inactive_not_active_cell.
    + by apply lookup_lt_Some in Hc.
  - intros Hsmall c o Hc Ho.
    assert ((c, o, next_active_offset (indices_size L)
                     (drop (S c) (dof_offsets L))) ∈ active_cells L) as Hin.
    { by apply active_cells_elem. }
    apply list_elem_of_lookup in Hin as [i Hi].
    rewrite invalid_offset_eq in Hsmall.
    destruct (written_position L out ok upd _ w Hw i _ ltac:(lia) Hi)
      as [Hpos Hle].
    simpl in Hpos. eexists. split; [done|]. rewrite invalid_offset_eq. lia.
Qed.

(** ** C4: the size of the index array after a pass *)

Lemma length_bind {A B : Type} (f : A → list B) (l : list A) :
  length (l ≫= f) = sum_list_with (λ x, length (f x)) l.
Proof.
  induction l as [|x l IH]; [done|].
  rewrite bind_cons, length_app, IH. done.
Qed.

Lemma sum_list_with_zero {A : Type} (f : A → nat) (l : list A) :
  (∀ x, x ∈ l → f x = 0%nat) → sum_list_with f l = 0%nat.
Proof.
  induction l as [|x l IH]; intros H; [done|]. simpl.
  rewrite (H x), IH; [done| |left]. intros y Hy. apply H. by right.
Qed.

Lemma sum_list_with_ext {A : Type} (f g : A → nat) (l : list A) :
  (∀ x, x ∈ l → f x = g x) → sum_list_with f l = sum_list_with g l.
Proof.
  induction l as [|x l IH]; intros H; [done|]. simpl.
  rewrite (H x), IH; [done| |left]. intros y Hy. apply H. by right.
Qed.

Lemma compress_block_length block :
  length (compress_block block)
  = if compressible block then 1%nat else length block.
Proof.
  unfold compress_block. destruct block as [|x block]; [done|].
  by destruct (compressible (x :: block)).
Qed.

Lemma compress_output_length L x :
  length (compress_output L x) = compressed_size L x.
Proof. destruct x as [[c o] n]. apply compress_block_length. Qed.

Lemma to_unsigned_add_l (a b : Z) :
  to_unsigned (to_unsigned a + b) = to_unsigned (a + b).
Proof. unfold to_unsigned. by rewrite Zplus_mod_idemp_l. Qed.

Lemma uncompress_count_Done L (size : Z) rest cell (s s' : Z) :
  uncompress_count is_compressed_entry toggle n_dofs_per_object
    L rest cell (to_unsigned s) = Done s' →
  s' = to_unsigned
         (s + Z.of_nat
                (sum_list_with
                   (catalog_length is_compressed_entry toggle
                      n_dofs_per_object L)
                   (cell_numbers (active_cells_from size rest cell)))).
Proof.
  revert cell s. induction rest as [|o rest IH]; intros c s; simpl.
  - intros [= <-]. f_equal. lia.
  - case_bool_decide as Ho.
    + unfold active_fe_index. rewrite subscript_nat.
      destruct (active_fe_indices L !! c) as [fe|] eqn:Hfe; [|done].
      rewrite !bind_Done, to_unsigned_add_l. intros H%IH. rewrite H.
      unfold cell_numbers at 2. rewrite fmap_cons. simpl.
      unfold catalog_length at 2. rewrite Hfe. unfold normalize_entry.
      f_equal. unfold cell_numbers. lia.
    + apply IH.
Qed.

Lemma uncompress_sizing_Done L new_size :
  uncompress_sizing' L = Done new_size →
  new_size
  = to_unsigned
      (Z.of_nat (sum_list_with
                   (catalog_length is_compressed_entry toggle
                      n_dofs_per_object L)
                   (cell_numbers (active_cells L)))).
Proof.
  unfold uncompress_sizing. change 0 with (to_unsigned 0) at 1.
  intros H. by apply (uncompress_count_Done L (indices_size L)) in H.
Qed.

Lemma stored_block_nil L o n : dof_indices L = [] → stored_block L o n = [].
Proof. intros H. unfold stored_block. rewrite H, drop_nil. apply take_nil. Qed.

Lemma nothing_stored_true L :
  nothing_stored L = true → dof_offsets L = [] ∨ dof_indices L = [].
Proof.
  unfold nothing_stored, is_empty.
  intros [H|H]%orb_true_iff; apply bool_decide_eq_true_1 in H;
    [left|right]; by apply nil_length_inv.
Qed.

(** C4: after [compress_data] the index array holds, for every active
    cell, one value if the block could be compressed and the whole block
    otherwise; after [uncompress_data] it holds as many values as the
    catalog block lengths of the active cells add up to (this sum fitting
    the [unsigned int] it is counted in).  A level on which the passes
    return at once is taken to satisfy the size invariant of the data
    model. *)
Theorem size_after_pass L L' :
  (nothing_stored L = true →
   size_invariant is_compressed_entry n_dofs_per_object L) →
  (compress_data is_compressed_entry toggle n_dofs_per_object L = Done L' →
   length (dof_indices L')
   = sum_list_with (compressed_size L) (active_cells L))
  ∧ (uncompress_data is_compressed_entry toggle n_dofs_per_object L
     = Done L' →
     Z.of_nat (sum_list_with
                 (catalog_length is_compressed_entry toggle
                    n_dofs_per_object L)
                 (cell_numbers (active_cells L))) < 2 ^ 32 →
     length (dof_indices L')
     = sum_list_with
         (catalog_length is_compressed_entry toggle n_dofs_per_object L)
         (cell_numbers (active_cells L))).
Proof.
  intros Hinv. destruct (nothing_stored L) eqn:Hshort.
  - specialize (Hinv eq_refl). unfold size_invariant in Hinv.
    unfold compress_data, uncompress_data. rewrite Hshort.
    split; [intros [= <-]|intros [= <-] _].
    + apply nothing_stored_true in Hshort as [Hoff|Hind].
      * rewrite Hinv. unfold active_cells. by rewrite Hoff.
      * rewrite Hind. symmetry. apply sum_list_with_zero.
        intros [[c o] n] _. simpl. by rewrite stored_block_nil.
    + rewrite Hinv. apply sum_list_with_ext. intros c Hc.
      apply nothing_stored_true in Hshort as [Hoff|Hind].
      * unfold active_cells in Hc. rewrite Hoff in Hc. by apply elem_of_nil in Hc.
      * rewrite Hind in Hinv. simpl in Hinv. symmetry in Hinv.
        pose proof (sum_list_with_in _ (stored_size is_compressed_entry
                                          n_dofs_per_object L) _ Hc) as Hle.
        rewrite Hinv in Hle. revert Hle.
        unfold stored_size, catalog_length, normalize_entry.
        destruct (active_fe_indices L !! c) as [fe|]; [|done].
        destruct (is_compressed_entry fe); lia.
  - split.
    + intros (w & Hw%compress_writing_Done & _ & ->)%compress_data_Done;
        [|done].
      simpl. destruct Hw as (-> & _). rewrite length_bind.
      apply sum_list_with_ext. intros x _. apply compress_output_length.
    + intros (w & _ & Hs%uncompress_sizing_Done & ->)%uncompress_data_Done
        Hfits; [|done].
      simpl. rewrite to_unsigned_small in Hs by lia. lia.
Qed.

(** ** C6: when the passes raise *)

Lemma written_ok L out ok upd cells w x fe :
  written L out ok upd cells w → x ∈ cells →
  active_fe_indices L !! x.1.1 = Some fe → ok x fe.
Proof.
  intros (_ & _ & _ & _ & _ & _ & Hnew) Hx Hfe.
  destruct (Hnew x Hx) as (fe' & Hfe' & Hok & _). congruence.
Qed.

Lemma compress_ok_not_bad L x fe :
  compress_ok is_compressed_entry n_dofs_per_object L x fe →
  ¬ (block_length_mismatch n_dofs_per_object x fe
     ∨ double_compression is_compressed_entry L x fe).
Proof.
  destruct x as [[c o] n].
  unfold compress_ok, block_length_mismatch, double_compression.
  intros (Hlen & _ & Hdbl) [Hbad|[Hc Hfl]]; [done|].
  rewrite (Hdbl Hc) in Hfl. done.
Qed.

Lemma uncompress_ok_not_bad L x fe :
  uncompress_ok is_compressed_entry toggle n_dofs_per_object L x fe →
  ¬ uncompress_bad is_compressed_entry n_dofs_per_object x fe.
Proof.
  destruct x as [[c o] n].
  unfold uncompress_ok, uncompress_bad, block_length_mismatch.
  destruct (is_compressed_entry fe); intros [? _] ?; done.
Qed.

(** C6, as amended: a pass that is not cut short by an empty offsets or
    indices array, and in which no subscript leaves its vector, raises
    [ExcInternalError] exactly when an invariant is violated: the stored
    block length of an active cell disagrees with the catalog block length
    for its entry, an entry is toggled while already marked compressed, a
    compressed block's stored length is not one during [uncompress_data],
    or the written size differs from the size counted in the first run
    through. *)
Theorem raises_iff_violation L :
  nothing_stored L = false →
  (compress_data is_compressed_entry toggle n_dofs_per_object L
   ≠ Undefined →
   (raises (compress_data is_compressed_entry toggle n_dofs_per_object L)
    ↔ compress_violation is_compressed_entry toggle n_dofs_per_object L))
  ∧ (uncompress_data is_compressed_entry toggle n_dofs_per_object L
     ≠ Undefined →
     (raises
        (uncompress_data is_compressed_entry toggle n_dofs_per_object L)
      ↔ uncompress_violation is_compressed_entry toggle n_dofs_per_object L)).
Proof.
  intros Hruns. split; intros Hdef; split.
  - intros [lv H]. apply compress_data_raise in H
      as (_ & [H|(ns & Hs & [H|(w & H & Hne & ->)])]).
    + apply compress_sizing_raise in H as (-> & x & fe & Hx & Hfe & Hbad).
      left. exists x, fe. auto.
    + apply compress_writing_raise in H
        as (pre & x & post & w1 & Hcells & _ & _ & fe & Hfe & Hbad).
      left. exists x, fe. split; [|done].
      rewrite Hcells. apply elem_of_app. right. left.
    + right. by exists ns, w.
  - intros Hviol.
    destruct (compress_data' L) as [L'|lv| |] eqn:Hres;
      [|by exists lv|done|by apply compress_data_fuel in Hres].
    exfalso.
    apply compress_data_Done in Hres as (w & Hw & Hs & _); [|done].
    destruct Hviol as [(x & fe & Hx & Hfe & Hbad)|(ns & w' & Hs' & Hw' & Hne)].
    + apply compress_writing_Done in Hw.
      by eapply compress_ok_not_bad; [eapply written_ok|].
    + congruence.
  - intros [lv H]. apply uncompress_data_raise in H
      as (_ & ns & Hs & [H|(w & H & Hne & ->)]).
    + apply uncompress_writing_raise in H
        as (pre & x & post & w1 & Hcells & _ & _ & fe & Hfe & Hbad).
      left. exists x, fe. split; [|done].
      rewrite Hcells. apply elem_of_app. right. left.
    + right. by exists ns, w.
  - intros Hviol.
    destruct (uncompress_data' L) as [L'|lv| |] eqn:Hres;
      [|by exists lv|done|by apply uncompress_data_fuel in Hres].
    exfalso.
    apply uncompress_data_Done in Hres as (w & Hw & Hs & _); [|done].
    destruct Hviol as [(x & fe & Hx & Hfe & Hbad)|(ns & w' & Hs' & Hw' & Hne)].
    + apply uncompress_writing_Done in Hw.
      by eapply uncompress_ok_not_bad; [eapply written_ok|].
    + congruence.
Qed.

(** ** C10: blocks of length one *)

Lemma compress_count_range L c o n (s s' : Z) :
  0 ≤ s < 2 ^ 32 →
  compress_count n_dofs_per_object L c o n s = Done s' → 0 ≤ s' < 2 ^ 32.
Proof.
  intros Hs. unfold compress_count. rewrite subscript_nat.
  destruct (active_fe_indices L !! c) as [fe|]; [|done].
  rewrite bind_Done. unfold Assert.
  destruct (bool_decide (to_unsigned (n - o) = _)); [|done].
  rewrite bind_Done. destruct (bool_decide (n > o)); [|by intros [= <-]].
  destruct (is_compressible (dof_indices L) o n) as [[]| | |]; try done;
    rewrite bind_Done; intros [= <-]; by apply Z.mod_pos_bound.
Qed.

Lemma compress_sizing_range L new_size :
  compress_sizing' L = Done new_size → 0 ≤ new_size < 2 ^ 32.
Proof.
  unfold compress_sizing. rewrite active_cell_loop_active_cells.
  apply (visit_Done_ind _ (λ _ s, 0 ≤ s < 2 ^ 32)); [done|].
  intros pre c o n post s1 s2 _ Hs1 Hbody.
  by eapply compress_count_range.
Qed.

(** C10: an active cell whose stored block has exactly one value has
    catalog block length one; the compressibility loop makes no turn on it
    and leaves [compressible] true; and a finished [compress_data] has
    stored that one value at the cell's new offset and toggled the cell's
    entry, which is marked compressed afterwards.  The helpers of
    [dof_level.h] enter through one property: toggling an entry that is
    not marked compressed gives one that is. *)
Theorem single_value_block_is_compressed L L' c o n :
  (∀ fe, is_compressed_entry fe = false →
         is_compressed_entry (toggle fe) = true) →
  compress_data is_compressed_entry toggle n_dofs_per_object L = Done L' →
  (c, o, n) ∈ active_cells L →
  length (stored_block L o n) = 1%nat →
  @is_compressible T (dof_indices L) o n = Done true
  ∧ ∃ fe v o',
      active_fe_indices L !! c = Some fe
      ∧ n_dofs_per_object fe = 1%nat
      ∧ stored_block L o n = [v]
      ∧ dof_offsets L' !! c = Some o'
      ∧ 0 ≤ o'
      ∧ dof_indices L' !! Z.to_nat o' = Some v
      ∧ active_fe_indices L' !! c = Some (toggle fe)
      ∧ is_compressed_entry (toggle fe) = true.
Proof.
  intros Hflip Hres Hcell Hone.
  assert (nothing_stored L = false) as Hruns.
  { destruct (nothing_stored L) eqn:Hs; [|done].
    apply nothing_stored_true in Hs as [Hoff|Hind].
    - unfold active_cells in Hcell. rewrite Hoff in Hcell.
      by apply elem_of_nil in Hcell.
    - by rewrite stored_block_nil in Hone. }
  apply compress_data_Done in Hres
    as (w & Hw%compress_writing_Done & Hsize%compress_sizing_range & ->);
    [|done].
  pose proof Hw as (Hind & _ & _ & _ & _ & _ & Hnew).
  destruct (Hnew _ Hcell) as (fe & Hfe & (Hlen & Hin & Hdbl) & Hfe').
  simpl in Hfe, Hfe', Hlen.
  destruct (stored_block L o n) as [|v [|]] eqn:Hblock; try done.
  assert (n - o = 1) as Hn.
  { unfold block_in_bounds in Hin. apply bool_decide_eq_true_1 in Hin.
    destruct Hin as [Hle|[H0 Hle]].
    - by rewrite stored_block_empty in Hblock.
    - pose proof (stored_block_length L o n H0 Hle) as Hl.
      rewrite Hblock in Hl. simpl in Hl. lia. }
  split.
  - unfold is_compressible. by replace (n - (o + 1)) with 0 by lia.
  - apply list_elem_of_lookup in Hcell as [i Hi].
    destruct (written_position _ _ _ _ _ _ Hw i _ ltac:(lia) Hi)
      as [Hpos _].
    exists fe, v, (Z.of_nat (length (take i (active_cells L)
                                       ≫= compress_output L))).
    simpl in *. rewrite Hn in Hlen.
    change (to_unsigned 1) with 1 in Hlen.
    split; [done|]. split; [lia|]. split; [done|]. split; [done|].
    split; [lia|]. split; [|split; [done|by apply Hflip, Hdbl]].
    rewrite Hind, Nat2Z.id.
    set (pre := take i (active_cells L) ≫= compress_output L).
    rewrite <- (take_drop_middle _ _ _ Hi), bind_app, bind_cons.
    fold pre. rewrite lookup_app_r by lia. rewrite Nat.sub_diag.
    unfold compress_output at 1. by rewrite Hblock.
Qed.

(** ** The cells of the level a pass has written *)

Lemma relocated_cells_from (out : nat * Z * Z → list Z)
    (offsets : list Z) (total : nat) :
  Z.of_nat total < invalid_offset →
  ∀ rest (k : nat) cs (pos : nat),
    drop k offsets = rest →
    StronglySorted (λ x y : nat * Z * Z, (x.1.1 < y.1.1)%nat) cs →
    (∀ x, x ∈ cs → (k ≤ x.1.1 < length offsets)%nat) →
    (∀ c : nat, (k ≤ c < length offsets)%nat → c ∉ cell_numbers cs →
       offsets !! c = Some invalid_offset) →
    placed offsets out pos cs →
    (pos + length (cs ≫= out))%nat = total →
    next_active_offset (Z.of_nat total) rest = Z.of_nat pos
    ∧ active_cells_from (Z.of_nat total) rest k = relocate out pos cs.
Proof.
  intros Hsmall.
  induction rest as [|o rest IH];
    intros k cs pos Hdrop Hsorted Hrange Hinactive Hplaced Htotal.
  - assert (length offsets ≤ k)%nat as Hk.
    { apply (f_equal length) in Hdrop. rewrite length_drop in Hdrop.
      simpl in Hdrop. lia. }
    destruct cs as [|x cs].
    + simpl in *. split; [f_equal; lia|done].
    + specialize (Hrange x (list_elem_of_here _ _)). lia.
  - assert (offsets !! k = Some o) as Hk.
    { rewrite <- (Nat.add_0_r k), <- lookup_drop, Hdrop. done. }
    assert (drop (S k) offsets = rest) as Hdrop'.
    { rewrite (drop_S _ _ _ Hk) in Hdrop. by injection Hdrop. }
    pose proof (lookup_lt_Some _ _ _ Hk) as Hklt.
    assert (∀ cs' pos',
              StronglySorted (λ x y : nat * Z * Z, (x.1.1 < y.1.1)%nat) cs' →
              (∀ x, x ∈ cs' → (k < x.1.1 < length offsets)%nat) →
              (∀ c : nat, (k < c < length offsets)%nat →
                 c ∉ cell_numbers cs' → offsets !! c = Some invalid_offset) →
              placed offsets out pos' cs' →
              (pos' + length (cs' ≫= out))%nat = total →
              next_active_offset (Z.of_nat total) rest = Z.of_nat pos'
              ∧ active_cells_from (Z.of_nat total) rest (S k)
                = relocate out pos' cs') as IH'.
    { intros cs' pos' ? Hr Hi ? ?. apply IH; try done.
      all: intros y Hy; first [specialize (Hr y Hy); lia | apply Hi; lia]. }
    assert (k ∉ cell_numbers cs → o = invalid_offset) as Hskip.
    { intros Hnot. specialize (Hinactive k ltac:(lia) Hnot). congruence. }
    simpl. destruct cs as [|x cs].
    + rewrite Hskip by apply not_elem_of_nil.
      rewrite bool_decide_eq_true_2, bool_decide_eq_false_2 by tauto.
      apply IH'; try done.
      * by intros x ?%elem_of_nil.
      * intros c Hc _. apply Hinactive; [lia|apply not_elem_of_nil].
    + apply StronglySorted_cons in Hsorted as [Hlater Hsorted].
      rewrite Forall_forall in Hlater.
      destruct Hplaced as [Hx Hplaced].
      rewrite bind_cons, length_app in Htotal.
      destruct (decide (x.1.1 = k)) as [Heq|Hne].
      * rewrite Heq in Hx.
        assert (o = Z.of_nat pos) as -> by congruence.
        rewrite invalid_offset_eq in Hsmall.
        rewrite bool_decide_eq_false_2, bool_decide_eq_true_2
          by (rewrite invalid_offset_eq; lia).
        split; [done|].
        destruct (IH' cs (pos + length (out x))%nat) as [-> ->]; try done.
        -- intros y Hy. specialize (Hlater y Hy).
           specialize (Hrange y (list_elem_of_further _ _ _ Hy)). lia.
        -- intros c Hc Hnot. apply Hinactive; [lia|].
           unfold cell_numbers. rewrite fmap_cons, not_elem_of_cons.
           split; [lia|done].
        -- lia.
        -- simpl. by rewrite Heq.
      * pose proof (Hrange x (list_elem_of_here _ _)) as Hxr.
        rewrite Hskip.
        2:{ unfold cell_numbers. rewrite fmap_cons, not_elem_of_cons.
            split; [lia|]. intros Hin.
            apply list_elem_of_fmap in Hin as (y & Hy & Hin).
            specialize (Hlater y Hin). lia. }
        rewrite bool_decide_eq_true_2, bool_decide_eq_false_2 by tauto.
        apply IH'.
        -- apply StronglySorted_cons. split; [by apply Forall_forall|done].
        -- intros y [->|Hy]%elem_of_cons; [lia|].
           specialize (Hlater y Hy).
           specialize (Hrange y (list_elem_of_further _ _ _ Hy)). lia.
        -- intros c Hc. apply Hinactive. lia.
        -- done.
        -- by rewrite bind_cons, length_app.
Qed.

Lemma written_placed L out ok upd cells w :
  written L out ok upd cells w →
  Z.of_nat (length (new_dof_indices w)) < 2 ^ 32 →
  placed (new_dof_offsets w) out 0 cells.
Proof.
  intros Hw Hsmall.
  cut (∀ cs pre, cells = pre ++ cs →
         placed (new_dof_offsets w) out (length (pre ≫= out)) cs).
  { intros H. by apply (H cells []). }
  induction cs as [|x cs IH]; intros pre Hcells; [done|]. simpl. split.
  - destruct (written_position L out ok upd cells w Hw (length pre) x)
      as [-> _]; [done| |].
    + rewrite Hcells. by rewrite list_lookup_middle.
    + by rewrite Hcells, take_app_length.
  - rewrite <- length_app, <- (bind_singleton out x), <- bind_app.
    apply IH. by rewrite <- app_assoc.
Qed.

Lemma written_active_cells L out ok upd w :
  written L out ok upd (active_cells L) w →
  Z.of_nat (length (new_dof_indices w)) < invalid_offset →
  active_cells (swapped w) = relocate out 0 (active_cells L).
Proof.
  intros Hw Hsmall. pose proof Hsmall as Hsmall'.
  rewrite invalid_offset_eq in Hsmall'.
  unfold active_cells at 1, indices_size. simpl.
  rewrite to_unsigned_small by lia.
  pose proof Hw as (Hind & Hlen & Hoff & _).
  eapply relocated_cells_from; try done.
  - apply active_cells_from_sorted.
  - intros x Hx. rewrite Hlen. apply active_cells_lt' in Hx. lia.
  - intros c Hc Hnot. rewrite Hlen in Hc.
    eapply written_inactive; [done|done|lia].
  - apply (written_placed L out ok upd); [done|lia].
  - by rewrite Hind.
Qed.

Lemma relocate_blocks (out : nat * Z * Z → list Z) L' cs :
  ∀ (prefix : list Z),
    dof_indices L' = prefix ++ (cs ≫= out) →
    Forall2 (λ x x', x'.1.1 = x.1.1
                     ∧ stored_block L' x'.1.2 x'.2 = out x)
      cs (relocate out (length prefix) cs).
Proof.
  induction cs as [|x cs IH]; intros prefix Hind; simpl; constructor.
  - split; [done|]. simpl. unfold stored_block. rewrite Hind, bind_cons.
    rewrite Nat2Z.id, drop_app_length.
    replace (Z.to_nat _) with (length (out x)) by lia.
    by rewrite take_app_length.
  - rewrite <- length_app. apply IH.
    by rewrite Hind, bind_cons, app_assoc.
Qed.

(** ** C2 and C3: what the passes store for a cell *)

Lemma consecutive_cons x y block :
  consecutive (x :: y :: block)
  ↔ y = to_global_dof_index (x + 1) ∧ consecutive (y :: block).
Proof.
  unfold consecutive. split.
  - intros H. split; [by apply (H 0%nat)|].
    intros j a b Ha Hb. by apply (H (S j)).
  - intros [Hy H] [|j] a b Ha Hb.
    + simpl in Ha, Hb. congruence.
    + by apply (H j).
Qed.

Lemma is_run_consecutive block : is_run block = true ↔ consecutive block.
Proof.
  induction block as [|x [|y block] IH].
  - split; [|done]. by intros _ j x y ?.
  - split; [|done]. by intros _ [|j] a b ? ?.
  - rewrite consecutive_cons, <- IH. cbn [is_run].
    rewrite andb_true_iff, bool_decide_eq_true. done.
Qed.

Lemma compressible_iff block :
  compressible block = true ↔ block ≠ [] ∧ consecutive block.
Proof.
  destruct block as [|x block].
  - split; [done|]. by intros [? _].
  - unfold compressible. rewrite is_run_consecutive.
    split; [by intros ?|by intros [_ ?]].
Qed.

Lemma Forall2_elem_of_l {A B : Type} (P Q : A → B → Prop) l k :
  Forall2 P l k → (∀ x y, x ∈ l → P x y → Q x y) → Forall2 Q l k.
Proof.
  induction 1 as [|x y l k HP _ IH]; intros HPQ; constructor.
  - apply HPQ; [left|done].
  - apply IH. intros x' y' Hx'. apply HPQ. by right.
Qed.

Lemma Forall2_diag_elem_of {A : Type} (P : A → A → Prop) l :
  (∀ x, x ∈ l → P x x) → Forall2 P l l.
Proof.
  induction l as [|x l IH]; intros H; constructor.
  - apply H. left.
  - apply IH. intros y Hy. apply H. by right.
Qed.

Lemma nothing_stored_Done L L' :
  nothing_stored L = true →
  compress_data' L = Done L' ∨ uncompress_data' L = Done L' → L' = L.
Proof.
  intros Hs. unfold compress_data, uncompress_data. rewrite Hs.
  by intros [[= ->]|[= ->]].
Qed.

Lemma nothing_stored_block L x :
  nothing_stored L = true → x ∈ active_cells L →
  stored_block L x.1.2 x.2 = [] ∧ dof_indices L = [].
Proof.
  intros [Hoff|Hind]%nothing_stored_true Hx.
  - unfold active_cells in Hx. rewrite Hoff in Hx. by apply elem_of_nil in Hx.
  - split; [by apply stored_block_nil|done].
Qed.

(** C2: [compress_data] stores for an active cell the first value of its
    block alone, and toggles the cell's entry, if the block is not empty
    and every value after the first is the one before it plus one;
    otherwise it stores the block as it is, value for value, and leaves the
    entry alone.  The blocks of the new level are read at its own offsets
    (the new index array being short enough for every position in it to
    differ from the invalid offset). *)
Theorem compress_collapses_runs L L' :
  compress_data is_compressed_entry toggle n_dofs_per_object L = Done L' →
  Z.of_nat (length (dof_indices L')) < invalid_offset →
  Forall2
    (λ '(c, o, n) '(c', o', n'),
       c' = c
       ∧ let block := stored_block L o n in
         let block' := stored_block L' o' n' in
         (block ≠ [] ∧ consecutive block →
          block' = take 1 block
          ∧ active_fe_indices L' !! c
            = toggle <$> active_fe_indices L !! c)
         ∧ (¬ (block ≠ [] ∧ consecutive block) →
            block' = block
            ∧ active_fe_indices L' !! c = active_fe_indices L !! c))
    (active_cells L) (active_cells L').
Proof.
  intros Hres Hsmall. destruct (nothing_stored L) eqn:Hshort.
  - rewrite (nothing_stored_Done L L' Hshort) by auto.
    apply Forall2_diag_elem_of. intros [[c o] n] Hx.
    destruct (nothing_stored_block L _ Hshort Hx) as [Hb _]. simpl in Hb.
    split; [done|]. cbv zeta. rewrite Hb. split; [by intros [? _]|done].
  - apply compress_data_Done in Hres as (w & Hw%compress_writing_Done & _ & ->);
      [|done].
    simpl in Hsmall. rewrite (written_active_cells _ _ _ _ _ Hw Hsmall).
    eapply Forall2_elem_of_l.
    { apply (relocate_blocks (compress_output L) (swapped w)
               (active_cells L) []).
      simpl. by destruct Hw as (-> & _). }
    intros [[c o] n] [[c' o'] n'] Hx [Hc Hblock]. simpl in Hc, Hblock.
    split; [done|]. cbv zeta. rewrite Hblock, <- compressible_iff.
    destruct Hw as (_ & _ & _ & _ & _ & _ & Hnew).
    destruct (Hnew _ Hx) as (fe & Hfe & _ & Hfe'). simpl in Hfe, Hfe'.
    unfold compress_block. simpl. rewrite Hfe, Hfe'.
    destruct (compressible (stored_block L o n)); split; naive_solver.
Qed.

(** C3: for an active cell whose entry is marked compressed,
    [uncompress_data] expands the stored value [v] into the run
    [v, v+1, ..., v+len-1], [len] being the catalog block length for the
    untoggled entry, and untoggles the entry; for an active cell whose
    entry is not marked compressed it stores the block as it is.  The
    blocks of the new level are read at its own offsets (the new index
    array being short enough for every position in it to differ from the
    invalid offset). *)
Theorem uncompress_expands_runs L L' :
  uncompress_data is_compressed_entry toggle n_dofs_per_object L = Done L' →
  Z.of_nat (length (dof_indices L')) < invalid_offset →
  Forall2
    (λ '(c, o, n) '(c', o', n'),
       c' = c
       ∧ ∀ fe, active_fe_indices L !! c = Some fe →
           if is_compressed_entry fe then
             ∀ v, dof_indices L !! Z.to_nat o = Some v →
               stored_block L' o' n'
               = expand_run v (n_dofs_per_object (toggle fe))
               ∧ active_fe_indices L' !! c = Some (toggle fe)
           else
             stored_block L' o' n' = stored_block L o n
             ∧ active_fe_indices L' !! c = Some fe)
    (active_cells L) (active_cells L').
Proof.
  intros Hres Hsmall. destruct (nothing_stored L) eqn:Hshort.
  - rewrite (nothing_stored_Done L L' Hshort) by auto.
    apply Forall2_diag_elem_of. intros [[c o] n] Hx.
    destruct (nothing_stored_block L _ Hshort Hx) as [_ Hind].
    split; [done|]. intros fe Hfe.
    destruct (is_compressed_entry fe); [|done].
    intros v. by rewrite Hind.
  - apply uncompress_data_Done in Hres
      as (w & Hw%uncompress_writing_Done & _ & ->); [|done].
    simpl in Hsmall. rewrite (written_active_cells _ _ _ _ _ Hw Hsmall).
    eapply Forall2_elem_of_l.
    { apply (relocate_blocks _ (swapped w) (active_cells L) []).
      simpl. by destruct Hw as (-> & _). }
    intros [[c o] n] [[c' o'] n'] Hx [Hc Hblock]. simpl in Hc, Hblock.
    split; [done|]. intros fe Hfe. rewrite Hblock.
    destruct Hw as (_ & _ & _ & _ & _ & _ & Hnew).
    destruct (Hnew _ Hx) as (fe' & Hfe0 & _ & Hfe'). simpl in Hfe0, Hfe'.
    assert (fe' = fe) as -> by congruence.
    unfold uncompress_output, uncompress_entry in *. simpl. rewrite Hfe, Hfe'.
    destruct (is_compressed_entry fe); [|done].
    intros v ->. done.
Qed.


(** ** Levels laid out block after block *)

Abbreviation block_of L := (λ x : nat * Z * Z, stored_block L x.1.2 x.2).

Lemma laid_out_from L rest (k pos : nat) :
  let size := Z.of_nat (length (dof_indices L)) in
  next_active_offset size rest = Z.of_nat pos →
  (∀ x, x ∈ active_cells_from size rest k → 0 ≤ x.2 - x.1.2) →
  (pos ≤ length (dof_indices L))%nat
  ∧ active_cells_from size rest k
    = relocate (block_of L) pos (active_cells_from size rest k)
  ∧ drop pos (dof_indices L) = active_cells_from size rest k ≫= block_of L.
Proof.
  intros size. revert k pos.
  induction rest as [|o rest IH]; intros k pos Hnext Hlen; simpl in *.
  - apply Nat2Z.inj in Hnext as <-. split; [done|]. split; [done|].
    by rewrite drop_all.
  - destruct (decide (o = invalid_offset)) as [Ho|Ho].
    + rewrite (bool_decide_eq_true_2 _ Ho) in Hnext.
      rewrite bool_decide_eq_false_2 in Hlen |- * by tauto. by apply IH.
    + rewrite (bool_decide_eq_false_2 _ Ho) in Hnext.
      rewrite (bool_decide_eq_true_2 _ Ho) in Hlen |- *. subst o.
      pose proof (Hlen _ (list_elem_of_here _ _)) as Hfirst. simpl in Hfirst.
      destruct (IH (S k) (Z.to_nat (next_active_offset size rest)))
        as (Hle & Hcells & Hdrop).
      { lia. }
      { intros x Hx. apply Hlen. by right. }
      set (n := next_active_offset size rest) in *.
      assert (length (stored_block L (Z.of_nat pos) n)
              = (Z.to_nat n - pos)%nat) as Hblock.
      { rewrite stored_block_length; lia. }
      split; [lia|]. cbn [relocate fst snd]. rewrite Hblock.
      replace (pos + (Z.to_nat n - pos))%nat with (Z.to_nat n) by lia.
      split.
      * rewrite <- Hcells. do 2 f_equal. lia.
      * rewrite bind_cons, <- Hdrop. cbn [fst snd]. unfold stored_block.
        rewrite Nat2Z.id.
        replace (drop (Z.to_nat n) (dof_indices L))
          with (drop (Z.to_nat (n - Z.of_nat pos)) (drop pos (dof_indices L))).
        -- by rewrite take_drop.
        -- rewrite drop_drop. f_equal. lia.
Qed.

Lemma relocate_lookup (out : nat * Z * Z → list Z) cs (pos i : nat) y :
  relocate out pos cs !! i = Some y →
  ∃ x, cs !! i = Some x
       ∧ y = (x.1.1, Z.of_nat (pos + length (take i cs ≫= out)),
              Z.of_nat (pos + length (take (S i) cs ≫= out))).
Proof.
  revert pos i. induction cs as [|x cs IH]; intros pos i H; [done|].
  destruct i as [|i]; simpl in H.
  - injection H as <-. exists x. split; [done|].
    change (take 1 (x :: cs)) with (x :: take 0 cs). rewrite bind_cons.
    change (take 0 cs ≫= out) with (@nil Z).
    change (@nil (nat * Z * Z) ≫= out) with (@nil Z).
    rewrite app_nil_r. do 3 f_equal. simpl. lia.
  - apply IH in H as (x' & Hx' & ->). exists x'. split; [done|].
    change (take (S (S i)) (x :: cs)) with (x :: take (S i) cs).
    change (take (S i) (x :: cs)) with (x :: take i cs).
    rewrite !bind_cons, !length_app. f_equal; [f_equal|]; f_equal; lia.
Qed.

Lemma relocate_cell_numbers (out : nat * Z * Z → list Z) cs (pos : nat) :
  cell_numbers (relocate out pos cs) = cell_numbers cs.
Proof.
  revert pos. induction cs as [|x cs IH]; intros pos; [done|].
  cbn [relocate]. unfold cell_numbers in *. rewrite !fmap_cons.
  by rewrite IH.
Qed.

Lemma relocate_length (out : nat * Z * Z → list Z) cs (pos : nat) :
  length (relocate out pos cs) = length cs.
Proof.
  revert pos. induction cs as [|x cs IH]; intros pos; [done|].
  simpl. by rewrite IH.
Qed.

(** What the layout invariants say about the cells of a level. *)
Lemma well_laid_out_cells L :
  well_laid_out is_compressed_entry n_dofs_per_object L →
  dof_indices L = active_cells L ≫= block_of L
  ∧ ∀ (i : nat) x, active_cells L !! i = Some x →
      x.1.2 = Z.of_nat (length (take i (active_cells L) ≫= block_of L))
      ∧ 0 ≤ x.1.2 ≤ x.2
      ∧ x.2 ≤ Z.of_nat (length (dof_indices L))
      ∧ length (stored_block L x.1.2 x.2) = Z.to_nat (x.2 - x.1.2)
      ∧ block_in_bounds L x.1.2 x.2 = true.
Proof.
  intros (Hsmall & Hfirst & Hcells).
  rewrite invalid_offset_eq in Hsmall.
  unfold indices_size in Hfirst. unfold active_cells, indices_size in *.
  rewrite to_unsigned_small in * by lia.
  destruct (laid_out_from L (dof_offsets L) 0 0) as (_ & Hrel & Hdrop).
  { done. }
  { intros x Hx. destruct (Hcells x Hx) as (fe & _ & ->). lia. }
  split; [done|]. intros i x Hx.
  set (cells := active_cells_from _ _ _) in *.
  pose proof Hx as Hx'. rewrite Hrel in Hx'.
  apply relocate_lookup in Hx' as (x' & Hx'' & Hxeq).
  assert (x' = x) as -> by congruence.
  assert (length (take (S i) cells ≫= block_of L)
            ≤ length (dof_indices L))%nat as Hle.
  { replace (length (dof_indices L))
      with (length (cells ≫= block_of L)) by (by rewrite <- Hdrop).
    apply length_bind_take. }
  rewrite (take_S_r _ _ _ Hx), bind_app, bind_singleton, length_app in Hxeq, Hle.
  destruct x as [[c o] n]. simpl in *. injection Hxeq as Ho Hn.
  assert (0 ≤ o ≤ n ∧ n ≤ Z.of_nat (length (dof_indices L))) as Hb by lia.
  split; [lia|]. split; [lia|]. split; [lia|].
  split; [apply stored_block_length; lia|].
  unfold block_in_bounds. apply bool_decide_eq_true_2. lia.
Qed.

(** ** Visiting cells that all pass *)

Lemma visit_total {St : Type} (body : nat → Z → Z → St → result St)
    (cells : list (nat * Z * Z)) (st : St) :
  (∀ pre c o n post st1,
     cells = pre ++ (c, o, n) :: post → visit body pre st = Done st1 →
     ∃ st2, body c o n st1 = Done st2) →
  ∃ st', visit body cells st = Done st'.
Proof.
  induction cells as [|[[c o] n] cells IH] using rev_ind; intros Hstep.
  - by exists st.
  - destruct IH as [st1 Hpre].
    { intros pre c' o' n' post st1 -> Hpre.
      apply (Hstep pre c' o' n' (post ++ [(c, o, n)])); [|done].
      by rewrite <- app_assoc. }
    destruct (Hstep cells c o n [] st1 eq_refl Hpre) as [st2 Hbody].
    exists st2. rewrite visit_app, Hpre, bind_Done. simpl. by rewrite Hbody.
Qed.

(** ** [compress_data] on a level in uncompressed form *)

Lemma to_unsigned_add_r (a b : Z) :
  to_unsigned (a + to_unsigned b) = to_unsigned (a + b).
Proof. unfold to_unsigned. by rewrite Zplus_mod_idemp_r. Qed.

Lemma compressed_size_le L x :
  (compressed_size L x ≤ length (stored_block L x.1.2 x.2))%nat.
Proof.
  destruct x as [[c o] n]. simpl.
  destruct (stored_block L o n) as [|v block]; [done|].
  destruct (compressible (v :: block)); simpl; lia.
Qed.

Lemma sum_list_with_le {A : Type} (f g : A → nat) (l : list A) :
  (∀ x, x ∈ l → (f x ≤ g x)%nat) →
  (sum_list_with f l ≤ sum_list_with g l)%nat.
Proof.
  induction l as [|x l IH]; intros H; [done|]. simpl.
  pose proof (H x (list_elem_of_here _ _)).
  assert (sum_list_with f l ≤ sum_list_with g l)%nat; [|lia].
  apply IH. intros y Hy. apply H. by right.
Qed.

Lemma compress_count_inside L c o n fe (s : Z) :
  active_fe_indices L !! c = Some fe →
  n - o = Z.of_nat (n_dofs_per_object fe) →
  0 ≤ o → n ≤ Z.of_nat (length (dof_indices L)) →
  Z.of_nat (length (dof_indices L)) < 2 ^ 32 →
  compress_count n_dofs_per_object L c o n (to_unsigned s)
  = Done (to_unsigned (s + Z.of_nat (compressed_size L (c, o, n)))).
Proof.
  intros Hfe Hlen H0 Hn Hsmall. unfold compress_count.
  rewrite subscript_nat, Hfe, bind_Done. unfold Assert.
  assert (to_unsigned (n - o) = Z.of_nat (n_dofs_per_object fe)) as Hl.
  { rewrite to_unsigned_small; lia. }
  rewrite (bool_decide_eq_true_2 _ Hl), bind_Done. unfold compressed_size.
  pose proof (stored_block_length L o n H0 Hn) as Hblock.
  case_bool_decide as Hgt.
  - rewrite is_compressible_inside, bind_Done by lia.
    destruct (compressible (stored_block L o n)).
    + by rewrite to_unsigned_add_l.
    + rewrite to_unsigned_add_l, to_unsigned_add_r, Hblock. do 2 f_equal. lia.
  - rewrite stored_block_empty by lia. simpl. by rewrite Z.add_0_r.
Qed.

Lemma compress_counting_total L cells (s : Z) :
  Z.of_nat (length (dof_indices L)) < 2 ^ 32 →
  (∀ x, x ∈ cells →
     ∃ fe, active_fe_indices L !! x.1.1 = Some fe
           ∧ x.2 - x.1.2 = Z.of_nat (n_dofs_per_object fe)
           ∧ 0 ≤ x.1.2 ∧ x.2 ≤ Z.of_nat (length (dof_indices L))) →
  visit (compress_count n_dofs_per_object L) cells (to_unsigned s)
  = Done (to_unsigned
            (s + Z.of_nat (sum_list_with (compressed_size L) cells))).
Proof.
  intros Hsmall. revert s.
  induction cells as [|[[c o] n] cells IH]; intros s Hcells.
  - simpl. do 2 f_equal. lia.
  - destruct (Hcells _ (list_elem_of_here _ _)) as (fe & Hfe & Hlen & H0 & Hn).
    cbn [visit]. rewrite (compress_count_inside L c o n fe) by done.
    rewrite bind_Done, IH.
    + do 2 f_equal. simpl. lia.
    + intros x Hx. apply Hcells. by right.
Qed.

(** The facts about the cells of a level in uncompressed form. *)
Lemma uncompressed_form_cells L :
  uncompressed_form is_compressed_entry n_dofs_per_object L →
  Z.of_nat (length (dof_indices L)) < 2 ^ 32 - 1
  ∧ dof_indices L = active_cells L ≫= block_of L
  ∧ ∀ (i : nat) x, active_cells L !! i = Some x →
      ∃ fe, active_fe_indices L !! x.1.1 = Some fe
        ∧ is_compressed_entry fe = false
        ∧ x.2 - x.1.2 = Z.of_nat (n_dofs_per_object fe)
        ∧ length (stored_block L x.1.2 x.2) = n_dofs_per_object fe
        ∧ x.1.2 = Z.of_nat (length (take i (active_cells L) ≫= block_of L))
        ∧ 0 ≤ x.1.2 ∧ x.2 ≤ Z.of_nat (length (dof_indices L))
        ∧ block_in_bounds L x.1.2 x.2 = true.
Proof.
  intros (Hlaid & _ & Hflags).
  destruct (well_laid_out_cells L Hlaid) as (Hind & Hcells).
  destruct Hlaid as (Hsmall & _ & Hlen).
  split; [by rewrite <- invalid_offset_eq|]. split; [done|].
  intros i x Hx.
  destruct (Hcells i x Hx) as (Hpos & Hle & Hn & Hblock & Hin).
  apply list_elem_of_lookup_2 in Hx.
  destruct (Hlen x Hx) as (fe & Hfe & Hcat).
  pose proof (Hflags x fe Hx Hfe) as Hflag. rewrite Hflag in Hcat.
  exists fe. rewrite Hblock, Hcat, Nat2Z.id. repeat split; try done; lia.
Qed.

Lemma compress_total L :
  uncompressed_form is_compressed_entry n_dofs_per_object L →
  nothing_stored L = false →
  ∃ w, compress_data' L = Done (swapped w)
       ∧ compress_written L (active_cells L) w.
Proof.
  intros Hform Hruns.
  destruct (uncompressed_form_cells L Hform) as (Hsmall & Hind & Hcells).
  assert (∃ w, compress_writing' L = Done w) as [w Hw].
  { unfold compress_writing. rewrite active_cell_loop_active_cells.
    apply visit_total. intros pre c o n post w1 Hsplit Hpre.
    apply visit_written with (out := compress_output L)
      (ok := compress_ok is_compressed_entry n_dofs_per_object L)
      (upd := compress_entry toggle L) in Hpre.
    - destruct Hpre as (_ & _ & _ & _ & _ & Hsame & _).
      pose proof (active_cells_NoDup L) as Hnodup. rewrite Hsplit in Hnodup.
      apply NoDup_cell_numbers_split in Hnodup.
      destruct (Hcells (length pre) (c, o, n))
        as (fe & Hfe & Hflag & Hlen & _ & _ & H0 & Hn & Hin).
      { rewrite Hsplit. by rewrite list_lookup_middle. }
      simpl in *. rewrite compress_cell_eq, (Hsame c Hnodup), Hfe.
      assert (to_unsigned (n - o) = Z.of_nat (n_dofs_per_object fe)) as Hl.
      { rewrite to_unsigned_small; lia. }
      rewrite (bool_decide_eq_true_2 _ Hl), Hin. cbv zeta.
      rewrite Hflag, andb_false_r. by eexists.
    - apply compress_cell_Done.
    - pose proof (active_cells_NoDup L) as Hnodup. rewrite Hsplit in Hnodup.
      rewrite cell_numbers_app in Hnodup. by apply NoDup_app in Hnodup as [? _].
    - intros x Hx. apply active_cells_lt'. rewrite Hsplit.
      apply elem_of_app. by left. }
  exists w. pose proof (compress_writing_Done L w Hw) as Hwritten.
  split; [|done].
  assert (length (new_dof_indices w)
          = sum_list_with (compressed_size L) (active_cells L)) as Hsize.
  { destruct Hwritten as (-> & _). rewrite length_bind.
    apply sum_list_with_ext. intros x _. apply compress_output_length. }
  assert (sum_list_with (compressed_size L) (active_cells L)
            ≤ length (dof_indices L))%nat as Hle.
  { replace (length (dof_indices L))
      with (length (active_cells L ≫= block_of L)) by (by rewrite <- Hind).
    rewrite length_bind. apply sum_list_with_le.
    intros x _. apply compressed_size_le. }
  unfold compress_data. rewrite Hruns, Hw.
  unfold compress_sizing. rewrite active_cell_loop_active_cells.
  change 0 with (to_unsigned 0) at 1.
  rewrite compress_counting_total; [|lia|].
  - rewrite !bind_Done. unfold swap_in, Assert.
    rewrite bool_decide_eq_true_2; [done|].
    rewrite to_unsigned_small; lia.
  - intros x [i Hx]%list_elem_of_lookup.
    destruct (Hcells i x Hx) as (fe & ? & ? & ? & ? & ? & ? & ? & ?).
    by exists fe.
Qed.

(** ** [uncompress_data] on a level that is laid out well *)

Lemma sum_list_with_fmap {A B : Type} (f : B → nat) (g : A → B) (l : list A) :
  sum_list_with f (g <$> l) = sum_list_with (λ x, f (g x)) l.
Proof. induction l as [|x l IH]; [done|]. rewrite fmap_cons. simpl. lia. Qed.

Lemma expand_run_length (v : Z) (len : nat) : length (expand_run v len) = len.
Proof. unfold expand_run. by rewrite length_fmap, length_seq. Qed.

Lemma uncompress_count_total L (size : Z) rest cell (s : Z) :
  (∀ c, c ∈ cell_numbers (active_cells_from size rest cell) →
        is_Some (active_fe_indices L !! c)) →
  ∃ s', uncompress_count is_compressed_entry toggle n_dofs_per_object
          L rest cell s = Done s'.
Proof.
  revert cell s. induction rest as [|o rest IH]; intros c s Hcells; simpl.
  - by exists s.
  - simpl in Hcells. case_bool_decide as Ho.
    + unfold cell_numbers in Hcells. rewrite fmap_cons in Hcells.
      destruct (Hcells c (list_elem_of_here _ _)) as [fe Hfe].
      unfold active_fe_index. rewrite subscript_nat, Hfe, !bind_Done.
      apply IH. intros c' Hc'. apply Hcells. by right.
    + by apply IH.
Qed.

(** The facts about the cells of a level that is laid out well. *)
Lemma well_laid_out_entries L :
  well_laid_out is_compressed_entry n_dofs_per_object L →
  Z.of_nat (length (dof_indices L)) < 2 ^ 32 - 1
  ∧ ∀ x, x ∈ active_cells L →
      ∃ fe, active_fe_indices L !! x.1.1 = Some fe
        ∧ x.2 - x.1.2
          = Z.of_nat (if is_compressed_entry fe then 1%nat
                      else n_dofs_per_object fe)
        ∧ 0 ≤ x.1.2 ≤ x.2
        ∧ x.2 ≤ Z.of_nat (length (dof_indices L))
        ∧ length (stored_block L x.1.2 x.2) = Z.to_nat (x.2 - x.1.2)
        ∧ block_in_bounds L x.1.2 x.2 = true.
Proof.
  intros Hlaid. destruct (well_laid_out_cells L Hlaid) as (_ & Hcells).
  destruct Hlaid as (Hsmall & _ & Hlen).
  split; [by rewrite <- invalid_offset_eq|].
  intros x Hx. destruct (Hlen x Hx) as (fe & Hfe & Hcat).
  apply list_elem_of_lookup in Hx as [i Hx].
  destruct (Hcells i x Hx) as (_ & ? & ? & ? & ?). by exists fe.
Qed.

Lemma uncompress_output_length L x :
  well_laid_out is_compressed_entry n_dofs_per_object L →
  x ∈ active_cells L →
  length (uncompress_output is_compressed_entry toggle n_dofs_per_object L x)
  = catalog_length is_compressed_entry toggle n_dofs_per_object L x.1.1.
Proof.
  intros [_ Hcells]%well_laid_out_entries Hx.
  destruct (Hcells x Hx) as (fe & Hfe & Hcat & Hle & Hn & Hblock & _).
  destruct x as [[c o] n]. simpl in *.
  unfold uncompress_output, catalog_length, normalize_entry. rewrite Hfe.
  destruct (is_compressed_entry fe).
  - destruct (lookup_lt_is_Some_2 (dof_indices L) (Z.to_nat o)) as [v ->];
      [lia|]. apply expand_run_length.
  - rewrite Hblock. lia.
Qed.

Lemma uncompress_total L :
  well_laid_out is_compressed_entry n_dofs_per_object L →
  nothing_stored L = false →
  Z.of_nat (sum_list_with
              (catalog_length is_compressed_entry toggle n_dofs_per_object L)
              (cell_numbers (active_cells L))) < 2 ^ 32 →
  ∃ w, uncompress_data' L = Done (swapped w)
       ∧ uncompress_written L (active_cells L) w.
Proof.
  intros Hlaid Hruns Hfits.
  destruct (well_laid_out_entries L Hlaid) as (Hsmall & Hcells).
  assert (∃ w, uncompress_writing' L = Done w) as [w Hw].
  { unfold uncompress_writing. rewrite active_cell_loop_active_cells.
    apply visit_total. intros pre c o n post w1 Hsplit Hpre.
    apply visit_written
      with (out := uncompress_output is_compressed_entry toggle
                     n_dofs_per_object L)
           (ok := uncompress_ok is_compressed_entry toggle
                    n_dofs_per_object L)
           (upd := uncompress_entry is_compressed_entry toggle) in Hpre.
    - destruct Hpre as (_ & _ & _ & _ & _ & Hsame & _).
      pose proof (active_cells_NoDup L) as Hnodup. rewrite Hsplit in Hnodup.
      apply NoDup_cell_numbers_split in Hnodup.
      destruct (Hcells (c, o, n))
        as (fe & Hfe & Hcat & Hle & Hn & Hblock & Hin).
      { rewrite Hsplit. apply elem_of_app. right. left. }
      simpl in *. rewrite uncompress_cell_eq. cbv zeta.
      rewrite (Hsame c Hnodup), Hfe.
      destruct (is_compressed_entry fe).
      + assert (to_unsigned (n - o) = 1) as Hl by (by rewrite Hcat).
        rewrite (bool_decide_eq_true_2 _ Hl).
        destruct (lookup_lt_is_Some_2 (dof_indices L) (Z.to_nat o)) as [v ->];
          [lia|].
        rewrite bool_decide_eq_true_2 by lia. by eexists.
      + assert (to_unsigned (n - o) = Z.of_nat (n_dofs_per_object fe)) as Hl.
        { rewrite to_unsigned_small; lia. }
        rewrite (bool_decide_eq_true_2 _ Hl), Hin. by eexists.
    - apply uncompress_cell_Done.
    - pose proof (active_cells_NoDup L) as Hnodup. rewrite Hsplit in Hnodup.
      rewrite cell_numbers_app in Hnodup. by apply NoDup_app in Hnodup as [? _].
    - intros x Hx. apply active_cells_lt'. rewrite Hsplit.
      apply elem_of_app. by left. }
  exists w. pose proof (uncompress_writing_Done L w Hw) as Hwritten.
  split; [|done].
  assert (length (new_dof_indices w)
          = sum_list_with
              (catalog_length is_compressed_entry toggle n_dofs_per_object L)
              (cell_numbers (active_cells L))) as Hsize.
  { destruct Hwritten as (-> & _). rewrite length_bind.
    unfold cell_numbers. rewrite sum_list_with_fmap.
    apply sum_list_with_ext. intros x Hx. by apply uncompress_output_length. }
  destruct (uncompress_count_total L (indices_size L) (dof_offsets L) 0 0)
    as [ns Hs].
  { intros c (x & -> & Hx)%list_elem_of_fmap.
    destruct (Hcells x Hx) as (fe & -> & _). by eexists. }
  pose proof (uncompress_sizing_Done L ns Hs) as Hns.
  unfold uncompress_data. rewrite Hruns, Hw.
  unfold uncompress_sizing in *. rewrite Hs, !bind_Done.
  unfold swap_in, Assert. rewrite bool_decide_eq_true_2; [done|].
  rewrite Hns, to_unsigned_small; lia.
Qed.

(** ** C1: compressing and uncompressing again *)

Lemma written_first_offset L out ok upd w :
  written L out ok upd (active_cells L) w →
  Z.of_nat (length (new_dof_indices w)) < invalid_offset →
  next_active_offset (indices_size (swapped w)) (new_dof_offsets w) = 0.
Proof.
  intros Hw Hsmall. pose proof Hsmall as Hsmall'.
  rewrite invalid_offset_eq in Hsmall'.
  unfold indices_size. simpl. rewrite to_unsigned_small by lia.
  pose proof Hw as (Hind & Hlen & Hoff & _).
  eapply (relocated_cells_from out _ _ Hsmall _ 0%nat (active_cells L) 0%nat);
    try done.
  - apply active_cells_from_sorted.
  - intros x Hx. rewrite Hlen. apply active_cells_lt' in Hx. lia.
  - intros c Hc Hnot. rewrite Hlen in Hc.
    eapply written_inactive; [done|done|lia].
  - apply (written_placed L out ok upd); [done|lia].
  - by rewrite Hind.
Qed.

Lemma expand_run_S (v : Z) (len : nat) :
  expand_run v (S len)
  = to_global_dof_index v :: expand_run (to_global_dof_index (v + 1)) len.
Proof.
  unfold expand_run. cbn [seq]. rewrite fmap_cons, Z.add_0_r. f_equal.
  rewrite <- fmap_S_seq, <- list_fmap_compose.
  apply list_fmap_ext. intros _ i _. simpl.
  unfold to_global_dof_index. rewrite Zplus_mod_idemp_l. f_equal. lia.
Qed.

Lemma expand_run_of_run (v : Z) block :
  0 ≤ v < 2 ^ 32 → is_run (v :: block) = true →
  expand_run v (S (length block)) = v :: block.
Proof.
  revert v. induction block as [|y block IH]; intros v Hv Hrun.
  - rewrite expand_run_S. unfold to_global_dof_index.
    by rewrite Z.mod_small.
  - cbn [is_run] in Hrun. apply andb_true_iff in Hrun as [Hy Hrun].
    apply bool_decide_eq_true_1 in Hy.
    assert (0 ≤ y < 2 ^ 32) as Hyr.
    { rewrite Hy. unfold to_global_dof_index. by apply Z.mod_pos_bound. }
    rewrite expand_run_S. cbn [length]. rewrite <- Hy, (IH y Hyr Hrun).
    unfold to_global_dof_index. by rewrite Z.mod_small.
Qed.

Lemma stored_block_head L o n v block :
  stored_block L o n = v :: block → dof_indices L !! Z.to_nat o = Some v.
Proof.
  intros H. assert (stored_block L o n !! 0%nat = Some v) as H0.
  { by rewrite H. }
  unfold stored_block in H0. apply lookup_take_Some in H0 as [H0 _].
  rewrite lookup_drop, Nat.add_0_r in H0. done.
Qed.

Lemma bind_Forall2 {A B C : Type} (f : A → list C) (g : B → list C) l k :
  Forall2 (λ x y, g y = f x) l k → k ≫= g = l ≫= f.
Proof.
  induction 1 as [|x y l k Hxy _ IH]; [done|].
  by rewrite !bind_cons, Hxy, IH.
Qed.

Section roundtrip.

Hypothesis toggle_marks : ∀ fe,
  is_compressed_entry fe = false → is_compressed_entry (toggle fe) = true.
Hypothesis toggle_involutive : ∀ fe, toggle (toggle fe) = fe.

Variable L : Level.
Hypothesis Hform : uncompressed_form is_compressed_entry n_dofs_per_object L.
Variable w : writer T.
Hypothesis Hw : compress_written L (active_cells L) w.

(** The entry and the stored values of a cell after [compress_data]. *)
Lemma compressed_cell (i : nat) x :
  active_cells L !! i = Some x →
  ∃ fe fe1,
    active_fe_indices L !! x.1.1 = Some fe
    ∧ fe_indices w !! x.1.1 = Some fe1
    ∧ uncompress_entry is_compressed_entry toggle x fe1 = fe
    ∧ n_dofs_per_object (normalize_entry is_compressed_entry toggle fe1)
      = length (stored_block L x.1.2 x.2)
    ∧ length (compress_output L x)
      = (if is_compressed_entry fe1 then 1%nat else n_dofs_per_object fe1)
    ∧ (if is_compressed_entry fe1 then
         ∃ v, compress_output L x = [v]
              ∧ expand_run v (n_dofs_per_object (toggle fe1))
                = stored_block L x.1.2 x.2
       else compress_output L x = stored_block L x.1.2 x.2).
Proof.
  intros Hx.
  destruct (uncompressed_form_cells L Hform) as (_ & _ & Hcells).
  destruct (Hcells i x Hx) as (fe & Hfe & Hflag & _ & Hblock & _).
  destruct Hw as (_ & _ & _ & _ & _ & _ & Hnew).
  destruct (Hnew x (list_elem_of_lookup_2 _ _ _ Hx)) as (fe' & Hfe' & _ & Hfe1).
  assert (fe' = fe) as -> by congruence.
  exists fe, (compress_entry toggle L x fe).
  split; [done|]. split; [done|].
  destruct x as [[c o] n].
  unfold compress_entry, compress_output, compress_block, uncompress_entry,
    normalize_entry.
  simpl in *.
  destruct (compressible (stored_block L o n)) eqn:Hc.
  - rewrite (toggle_marks fe Hflag), toggle_involutive.
    split; [done|]. split; [done|].
    destruct (stored_block L o n) as [|v block] eqn:Hb; [done|].
    split; [done|]. exists v. split; [done|].
    rewrite <- Hblock. apply expand_run_of_run; [|done].
    destruct Hform as (_ & Hrange & _). rewrite Forall_forall in Hrange.
    apply Hrange. eapply list_elem_of_lookup_2. by eapply stored_block_head.
  - by rewrite Hflag.
Qed.

Lemma compressed_indices_length :
  (length (new_dof_indices w) ≤ length (dof_indices L))%nat.
Proof.
  destruct (uncompressed_form_cells L Hform) as (_ & Hind & _).
  replace (length (dof_indices L))
    with (length (active_cells L ≫= block_of L)) by (by rewrite <- Hind).
  destruct Hw as (-> & _). rewrite !length_bind. apply sum_list_with_le.
  intros x _. rewrite compress_output_length. apply compressed_size_le.
Qed.

Lemma compressed_small :
  Z.of_nat (length (new_dof_indices w)) < invalid_offset.
Proof.
  destruct (uncompressed_form_cells L Hform) as (Hsmall & _).
  pose proof compressed_indices_length. rewrite invalid_offset_eq. lia.
Qed.

Lemma compressed_active_cells :
  active_cells (swapped w) = relocate (compress_output L) 0 (active_cells L).
Proof. eapply written_active_cells; [done|apply compressed_small]. Qed.

(** The cells of the compressed level, next to those of the level. *)
Lemma compressed_cells_lookup (i : nat) x1 :
  active_cells (swapped w) !! i = Some x1 →
  ∃ x, active_cells L !! i = Some x
       ∧ x1.1.1 = x.1.1
       ∧ x1.2 - x1.1.2 = Z.of_nat (length (compress_output L x))
       ∧ stored_block (swapped w) x1.1.2 x1.2 = compress_output L x.
Proof.
  intros Hx1.
  pose proof (relocate_blocks (compress_output L) (swapped w)
                (active_cells L) []) as Hblocks.
  change (length (@nil Z)) with 0%nat in Hblocks.
  rewrite <- compressed_active_cells in Hblocks.
  assert (dof_indices (swapped w) = [] ++ (active_cells L ≫= compress_output L))
    as Hind by (simpl; by destruct Hw as (-> & _)).
  destruct (Forall2_lookup_r _ _ _ _ _ (Hblocks Hind) Hx1)
    as (x & Hx & Hcell & Hblock).
  exists x. split; [done|]. split; [done|]. split; [|done].
  rewrite compressed_active_cells in Hx1.
  apply relocate_lookup in Hx1 as (x' & Hx' & ->).
  assert (x' = x) as -> by congruence. simpl.
  rewrite (take_S_r _ _ _ Hx), bind_app, bind_singleton, length_app. lia.
Qed.

Lemma compressed_well_laid_out :
  well_laid_out is_compressed_entry n_dofs_per_object (swapped w).
Proof.
  split; [apply compressed_small|]. split.
  - eapply written_first_offset; [done|apply compressed_small].
  - intros x1 [i Hx1]%list_elem_of_lookup.
    destruct (compressed_cells_lookup i x1 Hx1) as (x & Hx & Hcell & Hlen & _).
    destruct (compressed_cell i x Hx) as (fe & fe1 & _ & Hfe1 & _ & _ & Hout & _).
    exists fe1. simpl. rewrite Hcell. split; [done|]. by rewrite Hlen, Hout.
Qed.

Lemma compressed_catalog_lengths :
  sum_list_with
    (catalog_length is_compressed_entry toggle n_dofs_per_object (swapped w))
    (cell_numbers (active_cells (swapped w)))
  = length (dof_indices L).
Proof.
  destruct (uncompressed_form_cells L Hform) as (_ & Hind & _).
  replace (length (dof_indices L))
    with (length (active_cells L ≫= block_of L)) by (by rewrite <- Hind).
  rewrite compressed_active_cells, relocate_cell_numbers, length_bind.
  unfold cell_numbers. rewrite sum_list_with_fmap.
  apply sum_list_with_ext. intros x [i Hx]%list_elem_of_lookup.
  destruct (compressed_cell i x Hx) as (fe & fe1 & _ & Hfe1 & _ & Hcat & _).
  unfold catalog_length. simpl. by rewrite Hfe1.
Qed.

Variable w2 : writer T.
Hypothesis Hw2 : uncompress_written (swapped w) (active_cells (swapped w)) w2.

(** What [uncompress_data] stores for a cell of the compressed level is
    the block the cell had. *)
Lemma uncompressed_cell (i : nat) x :
  active_cells L !! i = Some x →
  ∃ x1, active_cells (swapped w) !! i = Some x1
        ∧ x1.1.1 = x.1.1
        ∧ uncompress_output is_compressed_entry toggle n_dofs_per_object
            (swapped w) x1
          = stored_block L x.1.2 x.2
        ∧ fe_indices w2 !! x.1.1 = active_fe_indices L !! x.1.1.
Proof.
  intros Hx.
  destruct (lookup_lt_is_Some_2 (active_cells (swapped w)) i) as [x1 Hx1].
  { rewrite compressed_active_cells, relocate_length.
    by apply lookup_lt_Some in Hx. }
  destruct (compressed_cells_lookup i x1 Hx1) as (x' & Hx' & Hcell & _ & Hblock).
  assert (x' = x) as -> by congruence.
  destruct (compressed_cell i x Hx)
    as (fe & fe1 & Hfe & Hfe1 & Hback & _ & _ & Hout).
  exists x1. split; [done|]. split; [done|].
  destruct Hw2 as (_ & _ & _ & _ & _ & _ & Hnew).
  destruct (Hnew x1 (list_elem_of_lookup_2 _ _ _ Hx1)) as (fe1' & Hfe1' & _ & Hfe2).
  simpl in Hfe1'. rewrite Hcell in Hfe1', Hfe2.
  assert (fe1' = fe1) as -> by congruence.
  split.
  - destruct x1 as [[c1 o1] n1]. simpl in *. subst c1.
    unfold uncompress_output. simpl. rewrite Hfe1.
    destruct (is_compressed_entry fe1).
    + destruct Hout as (v & Hv & Hrun). rewrite Hv in Hblock.
      apply stored_block_head in Hblock. simpl in Hblock. by rewrite Hblock.
    + congruence.
  - rewrite Hfe2, Hfe. f_equal.
    unfold uncompress_entry in *. done.
Qed.

Lemma uncompressed_outputs :
  Forall2
    (λ x x1, uncompress_output is_compressed_entry toggle n_dofs_per_object
               (swapped w) x1
             = stored_block L x.1.2 x.2)
    (active_cells L) (active_cells (swapped w)).
Proof.
  apply Forall2_same_length_lookup. split.
  - by rewrite compressed_active_cells, relocate_length.
  - intros i x x1 Hx Hx1.
    destruct (uncompressed_cell i x Hx) as (x1' & Hx1' & _ & Hout & _).
    congruence.
Qed.

Lemma roundtrip_indices : new_dof_indices w2 = dof_indices L.
Proof.
  destruct (uncompressed_form_cells L Hform) as (_ & Hind & _).
  destruct Hw2 as (-> & _).
  transitivity (active_cells L ≫= block_of L); [|done].
  apply bind_Forall2, uncompressed_outputs.
Qed.

Lemma roundtrip_entries : fe_indices w2 = active_fe_indices L.
Proof.
  apply list_eq. intros c.
  destruct (decide (c ∈ cell_numbers (active_cells L))) as [Hin|Hout].
  - apply list_elem_of_fmap in Hin as (x & -> & [i Hx]%list_elem_of_lookup).
    by destruct (uncompressed_cell i x Hx) as (_ & _ & _ & _ & ->).
  - destruct Hw2 as (_ & _ & _ & _ & _ & Hsame2 & _).
    destruct Hw as (_ & _ & _ & _ & _ & Hsame & _).
    rewrite Hsame2; [by apply Hsame|].
    by rewrite compressed_active_cells, relocate_cell_numbers.
Qed.

Lemma roundtrip_offsets : new_dof_offsets w2 = dof_offsets L.
Proof.
  destruct (uncompressed_form_cells L Hform) as (Hsmall & Hind & Hcells).
  apply list_eq. intros c.
  destruct (decide (c ∈ cell_numbers (active_cells L))) as [Hin|Hout].
  - apply list_elem_of_fmap in Hin as (x & -> & [i Hx]%list_elem_of_lookup).
    destruct (uncompressed_cell i x Hx) as (x1 & Hx1 & Hcell & _).
    destruct Hw2 as (_ & _ & _ & Hpos & _).
    rewrite <- Hcell, (Hpos i x1 Hx1).
    rewrite (bind_Forall2 _ _ _ _
               (Forall2_take _ _ _ i uncompressed_outputs)).
    destruct (Hcells i x Hx) as (_ & _ & _ & _ & _ & Ho & _).
    destruct x as [[c o] n]. simpl in *. rewrite Hcell.
    pose proof (proj1 (active_cells_elem L c o n)
                  (list_elem_of_lookup_2 _ _ _ Hx)) as (-> & _).
    rewrite <- Ho, to_unsigned_small; [done|].
    rewrite Ho.
    pose proof (length_bind_take (block_of L) (active_cells L) i) as Hle.
    rewrite <- Hind in Hle. lia.
  - destruct Hw2 as (_ & Hlen2 & Hoff2 & _).
    destruct Hw as (_ & Hlen & _).
    rewrite Hoff2 by (by rewrite compressed_active_cells, relocate_cell_numbers).
    simpl. rewrite Hlen.
    destruct (dof_offsets L !! c) as [o|] eqn:Hc.
    + rewrite lookup_replicate_2 by (by apply lookup_lt_Some in Hc).
      destruct (decide (o = invalid_offset)) as [->|Hne]; [done|].
      exfalso. apply Hout. apply list_elem_of_fmap.
      exists (c, o, next_active_offset (indices_size L)
                      (drop (S c) (dof_offsets L))).
      split; [done|]. by apply active_cells_elem.
    + apply lookup_replicate_None. by apply lookup_ge_None in Hc.
Qed.

Lemma roundtrip_level : swapped w2 = L.
Proof.
  unfold swapped.
  rewrite roundtrip_indices, roundtrip_entries, roundtrip_offsets.
  by destruct L.
Qed.

End roundtrip.

Lemma compressed_stores_something L w :
  uncompressed_form is_compressed_entry n_dofs_per_object L →
  compress_written L (active_cells L) w →
  nothing_stored L = false → nothing_stored (swapped w) = false.
Proof.
  intros Hform Hw Hruns.
  destruct (uncompressed_form_cells L Hform) as (_ & Hind & _).
  unfold nothing_stored, is_empty in *. simpl.
  apply orb_false_iff in Hruns as [Hoff Hinds].
  apply bool_decide_eq_false_1 in Hoff, Hinds.
  destruct Hw as (Hnew & Hlen & _).
  apply orb_false_iff. split; apply bool_decide_eq_false_2; [lia|].
  rewrite Hnew, length_bind. intros Hzero. apply Hinds.
  replace (length (dof_indices L))
    with (length (active_cells L ≫= block_of L)) by (by rewrite <- Hind).
  rewrite length_bind. apply sum_list_with_zero. intros x Hx.
  pose proof (sum_list_with_in _ (λ x, length (compress_output L x)) _ Hx)
    as Hle.
  rewrite Hzero in Hle. simpl in Hle. destruct x as [[c o] n].
  unfold compress_output, compress_block in Hle. simpl in *.
  destruct (stored_block L o n) as [|v block]; [done|].
  destruct (compressible (v :: block)); simpl in Hle; lia.
Qed.

(** C1: a level in uncompressed form goes through [compress_data] and
    then through [uncompress_data], and comes back as it was: the same
    indices, the same offsets and entries, hence the same block for every
    cell and the blocks in the same order.  The level is laid out as the
    data model says, no entry of an active cell is marked compressed and
    every block has the catalog length of its variant.  The helpers of
    [dof_level.h] enter through two properties: toggling an entry that is
    not marked compressed gives one that is, and toggling twice gives the
    entry back. *)
Theorem compress_uncompress_roundtrip L :
  (∀ fe, is_compressed_entry fe = false →
         is_compressed_entry (toggle fe) = true) →
  (∀ fe, toggle (toggle fe) = fe) →
  uncompressed_form is_compressed_entry n_dofs_per_object L →
  ∃ L1,
    compress_data is_compressed_entry toggle n_dofs_per_object L = Done L1
    ∧ uncompress_data is_compressed_entry toggle n_dofs_per_object L1
      = Done L.
Proof.
  intros Hmarks Hinv Hform.
  destruct (nothing_stored L) eqn:Hruns.
  { exists L. unfold compress_data, uncompress_data. by rewrite Hruns. }
  destruct (compress_total L Hform Hruns) as (w & Hcompress & Hw).
  exists (swapped w). split; [done|].
  pose proof (compressed_well_laid_out Hmarks Hinv L Hform w Hw) as Hlaid.
  destruct (uncompress_total (swapped w) Hlaid) as (w2 & Huncompress & Hw2).
  - by apply (compressed_stores_something L).
  - rewrite (compressed_catalog_lengths Hmarks Hinv L Hform w Hw).
    destruct (uncompressed_form_cells L Hform) as (Hsmall & _). lia.
  - rewrite Huncompress. f_equal.
    by apply (roundtrip_level Hmarks Hinv L Hform w Hw).
Qed.

(** * Further properties of the two passes *)

(** ** Subscripts stay inside the vectors *)

Lemma visit_Undefined_inv {St : Type} (body : nat → Z → Z → St → result St)
    (cells : list (nat * Z * Z)) (st : St) :
  visit body cells st = Undefined →
  ∃ pre c o n post st1,
    cells = pre ++ (c, o, n) :: post
    ∧ visit body pre st = Done st1
    ∧ body c o n st1 = Undefined.
Proof.
  revert st. induction cells as [|[[c o] n] cells IH]; intros st H; [done|].
  simpl in H. destruct (body c o n st) as [st2| | |] eqn:Hbody; try done.
  - rewrite bind_Done in H.
    destruct (IH _ H) as (pre & c' & o' & n' & post & st1 & -> & Hpre & Hx).
    exists ((c, o, n) :: pre), c', o', n', post, st1.
    split; [done|]. split; [|done]. simpl. by rewrite Hbody.
  - by exists [], c, o, n, cells, st.
Qed.

Lemma next_active_offset_bounds (size len : Z) rest :
  0 ≤ size ≤ len →
  Forall (λ o, o = invalid_offset ∨ 0 ≤ o ≤ len) rest →
  0 ≤ next_active_offset size rest ≤ len.
Proof.
  intros Hsize. induction 1 as [|o rest Ho _ IH]; [done|].
  simpl. case_bool_decide as Hinv; [done|]. by destruct Ho.
Qed.

(** The cells of a level within bounds: an entry each, and a block that
    lies inside [dof_indices]. *)
Lemma in_bounds_cells L x :
  in_bounds L → x ∈ active_cells L →
  (x.1.1 < length (active_fe_indices L))%nat
  ∧ x.1.2 ≠ invalid_offset
  ∧ 0 ≤ x.1.2 ≤ Z.of_nat (length (dof_indices L))
  ∧ 0 ≤ x.2 ≤ Z.of_nat (length (dof_indices L))
  ∧ block_in_bounds L x.1.2 x.2 = true.
Proof.
  intros (Htags & Hsmall & Hoffsets) Hx. destruct x as [[c o] n].
  pose proof (active_cells_lt L c o n Hx) as Hc.
  apply active_cells_elem in Hx as (Ho & Hvalid & Hn). simpl.
  pose proof (Forall_lookup_1 _ _ _ _ Hoffsets Ho) as Hob. simpl in Hob.
  assert (0 ≤ n ≤ Z.of_nat (length (dof_indices L))) as Hnb.
  { rewrite Hn. apply next_active_offset_bounds.
    - unfold indices_size. rewrite to_unsigned_small; lia.
    - by apply Forall_drop. }
  split; [lia|]. split; [done|].
  assert (0 ≤ o ≤ Z.of_nat (length (dof_indices L))) as Hob'.
  { by destruct Hob. }
  split; [done|]. split; [done|].
  unfold block_in_bounds. apply bool_decide_eq_true_2. lia.
Qed.

Lemma compress_count_defined L x (s : Z) :
  in_bounds L → x ∈ active_cells L →
  compress_count n_dofs_per_object L x.1.1 x.1.2 x.2 s ≠ Undefined.
Proof.
  intros Hb Hx.
  destruct (in_bounds_cells L x Hb Hx) as (Hc & _ & Ho & Hn & _).
  destruct x as [[c o] n]. simpl in *. unfold compress_count.
  rewrite subscript_nat.
  destruct (lookup_lt_is_Some_2 _ _ Hc) as [fe ->].
  rewrite bind_Done. unfold Assert.
  destruct (bool_decide (to_unsigned (n - o) = _)); [|done].
  rewrite bind_Done. case_bool_decide as Hgt; [|done].
  rewrite is_compressible_inside, bind_Done by lia.
  by destruct (compressible (stored_block L o n)).
Qed.

Lemma compress_cell_defined L x w :
  in_bounds L → x ∈ active_cells L →
  length (fe_indices w) = length (active_fe_indices L) →
  compress_cell is_compressed_entry toggle n_dofs_per_object
    L x.1.1 x.1.2 x.2 w ≠ Undefined.
Proof.
  intros Hb Hx Hlen.
  destruct (in_bounds_cells L x Hb Hx) as (Hc & _ & _ & _ & Hin).
  destruct x as [[c o] n]. simpl in *. rewrite compress_cell_eq.
  destruct (lookup_lt_is_Some_2 (fe_indices w) c) as [fe ->]; [lia|].
  rewrite Hin. cbv zeta. by repeat case_match.
Qed.

Lemma to_unsigned_one (o n len : Z) :
  0 ≤ o ≤ len → 0 ≤ n ≤ len → len < 2 ^ 32 → o ≠ invalid_offset →
  to_unsigned (n - o) = 1 → n = o + 1.
Proof.
  intros Ho Hn Hlen Hvalid. rewrite invalid_offset_eq in Hvalid.
  destruct (decide (o ≤ n)) as [Hle|Hgt].
  - rewrite to_unsigned_small by lia. lia.
  - unfold to_unsigned.
    replace (n - o) with (n - o + 2 ^ 32 + (-1) * 2 ^ 32) by lia.
    rewrite Z_mod_plus_full, Z.mod_small by lia. lia.
Qed.

Lemma uncompress_cell_defined L x w :
  in_bounds L → x ∈ active_cells L →
  length (fe_indices w) = length (active_fe_indices L) →
  uncompress_cell is_compressed_entry toggle n_dofs_per_object
    L x.1.1 x.1.2 x.2 w ≠ Undefined.
Proof.
  intros Hb Hx Hlen.
  destruct (in_bounds_cells L x Hb Hx) as (Hc & Hvalid & Ho & Hn & Hin).
  destruct Hb as (_ & Hsmall & _).
  destruct x as [[c o] n]. simpl in *. rewrite uncompress_cell_eq. cbv zeta.
  destruct (lookup_lt_is_Some_2 (fe_indices w) c) as [fe ->]; [lia|].
  destruct (is_compressed_entry fe).
  - case_bool_decide as Hone; [|done].
    apply (to_unsigned_one o n _ Ho Hn Hsmall Hvalid) in Hone.
    destruct (lookup_lt_is_Some_2 (dof_indices L) (Z.to_nat o)) as [v ->];
      [lia|].
    by rewrite bool_decide_eq_true_2 by lia.
  - rewrite Hin. by case_bool_decide.
Qed.

Lemma active_cells_prefix_NoDup L pre post :
  active_cells L = pre ++ post →
  NoDup (cell_numbers pre)
  ∧ ∀ x, x ∈ pre → (x.1.1 < length (dof_offsets L))%nat.
Proof.
  intros Hsplit. split.
  - pose proof (active_cells_NoDup L) as Hnodup. rewrite Hsplit in Hnodup.
    rewrite cell_numbers_app in Hnodup. by apply NoDup_app in Hnodup as [? _].
  - intros x Hx. apply active_cells_lt'. rewrite Hsplit.
    apply elem_of_app. by left.
Qed.

Lemma compress_data_defined L :
  in_bounds L → compress_data' L ≠ Undefined.
Proof.
  intros Hb. unfold compress_data. destruct (nothing_stored L); [done|].
  unfold compress_sizing, compress_writing.
  rewrite !active_cell_loop_active_cells.
  destruct (visit (compress_count _ L) _ _) as [ns| | |] eqn:Hs; try done.
  - rewrite bind_Done.
    destruct (visit (compress_cell _ _ _ L) _ _) as [w| | |] eqn:Hw; try done.
    + rewrite bind_Done. unfold swap_in, Assert. by case_bool_decide.
    + apply visit_Undefined_inv
        in Hw as (pre & c & o & n & post & w1 & Hsplit & Hpre & Hbody).
      destruct (active_cells_prefix_NoDup L pre _ Hsplit) as [Hnodup Hlt].
      apply (visit_written L _ _ _ _ (compress_cell_Done L) pre w1 Hnodup Hlt)
        in Hpre as (_ & _ & _ & _ & Hlen & _).
      apply (compress_cell_defined L (c, o, n) w1) in Hbody; try done.
      rewrite Hsplit. apply elem_of_app. right. left.
  - apply visit_Undefined_inv
      in Hs as (pre & c & o & n & post & s1 & Hsplit & _ & Hbody).
    apply (compress_count_defined L (c, o, n) s1) in Hbody; try done.
    rewrite Hsplit. apply elem_of_app. right. left.
Qed.

Lemma uncompress_data_defined L :
  in_bounds L → uncompress_data' L ≠ Undefined.
Proof.
  intros Hb. unfold uncompress_data. destruct (nothing_stored L); [done|].
  destruct (uncompress_count_total L (indices_size L) (dof_offsets L) 0 0)
    as [ns Hs].
  { intros c (x & -> & Hx)%list_elem_of_fmap.
    destruct (in_bounds_cells L x Hb Hx) as (Hc & _).
    by apply lookup_lt_is_Some_2. }
  unfold uncompress_sizing, uncompress_writing. rewrite Hs, bind_Done.
  rewrite active_cell_loop_active_cells.
  destruct (visit (uncompress_cell _ _ _ L) _ _) as [w| | |] eqn:Hw; try done.
  - rewrite bind_Done. unfold swap_in, Assert. by case_bool_decide.
  - apply visit_Undefined_inv
      in Hw as (pre & c & o & n & post & w1 & Hsplit & Hpre & Hbody).
    destruct (active_cells_prefix_NoDup L pre _ Hsplit) as [Hnodup Hlt].
    apply (visit_written L _ _ _ _ (uncompress_cell_Done L) pre w1 Hnodup Hlt)
      in Hpre as (_ & _ & _ & _ & Hlen & _).
    apply (uncompress_cell_defined L (c, o, n) w1) in Hbody; try done.
    rewrite Hsplit. apply elem_of_app. right. left.
Qed.

Lemma finishes_or_raises (r : result Level) :
  r ≠ Undefined → r ≠ OutOfFuel → (∃ L', r = Done L') ∨ raises r.
Proof.
  destruct r as [L'|lv| |]; intros H1 H2; try done.
  - left. by exists L'.
  - right. by exists lv.
Qed.

(** X1: on a level within bounds (an entry of [active_fe_indices] for
    every cell, every valid offset a position of [dof_indices], whose size
    fits [unsigned int]) [compress_data] never subscripts a vector outside
    its range: it finishes, or it raises [ExcInternalError]. *)
Theorem compress_data_in_bounds L :
  in_bounds L →
  (∃ L', compress_data is_compressed_entry toggle n_dofs_per_object L
         = Done L')
  ∨ raises (compress_data is_compressed_entry toggle n_dofs_per_object L).
Proof.
  intros Hb. apply finishes_or_raises.
  - by apply compress_data_defined.
  - apply compress_data_fuel.
Qed.

(** X2: on a level within bounds [uncompress_data] never subscripts a
    vector outside its range: it finishes, or it raises
    [ExcInternalError]. *)
Theorem uncompress_data_in_bounds L :
  in_bounds L →
  (∃ L', uncompress_data is_compressed_entry toggle n_dofs_per_object L
         = Done L')
  ∨ raises (uncompress_data is_compressed_entry toggle n_dofs_per_object L).
Proof.
  intros Hb. apply finishes_or_raises.
  - by apply uncompress_data_defined.
  - apply uncompress_data_fuel.
Qed.

(** ** A finished pass leaves a level within bounds *)

Lemma written_in_bounds L out ok upd w :
  (length (dof_offsets L) ≤ length (active_fe_indices L))%nat →
  written L out ok upd (active_cells L) w →
  Z.of_nat (length (new_dof_indices w)) < 2 ^ 32 →
  in_bounds (swapped w).
Proof.
  intros Htags Hw Hsmall. pose proof Hw as (_ & Hlen & _ & _ & Hfe & _).
  split; [simpl; lia|]. split; [done|]. simpl.
  apply Forall_lookup_2. intros c o Hc.
  destruct (decide (c ∈ cell_numbers (active_cells L))) as [Hin|Hout].
  - apply list_elem_of_fmap in Hin as (x & -> & [i Hx]%list_elem_of_lookup).
    destruct (written_position L out ok upd _ w Hw i x Hsmall Hx)
      as [Hpos Hle].
    right. rewrite Hpos in Hc. injection Hc as <-. lia.
  - left. apply lookup_lt_Some in Hc as Hlt. rewrite Hlen in Hlt.
    rewrite (written_inactive L out ok upd _ w Hw c Hout Hlt) in Hc.
    by injection Hc.
Qed.

Lemma to_unsigned_range (z : Z) : 0 ≤ to_unsigned z < 2 ^ 32.
Proof. unfold to_unsigned. by apply Z.mod_pos_bound. Qed.

Lemma compress_data_Done_in_bounds L L' :
  in_bounds L → compress_data' L = Done L' → in_bounds L'.
Proof.
  intros Hb Hdone. destruct (nothing_stored L) eqn:Hruns.
  { rewrite (nothing_stored_Done L L' Hruns); [done|by left]. }
  apply (compress_data_Done L L' Hruns) in Hdone as (w & Hw & Hs & ->).
  apply compress_sizing_range in Hs. apply compress_writing_Done in Hw.
  destruct Hb as (Htags & _). eapply written_in_bounds; [done|done|lia].
Qed.

Lemma uncompress_data_Done_in_bounds L L' :
  in_bounds L → uncompress_data' L = Done L' → in_bounds L'.
Proof.
  intros Hb Hdone. destruct (nothing_stored L) eqn:Hruns.
  { rewrite (nothing_stored_Done L L' Hruns); [done|by right]. }
  apply (uncompress_data_Done L L' Hruns) in Hdone as (w & Hw & Hs & ->).
  apply uncompress_sizing_Done in Hs. apply uncompress_writing_Done in Hw.
  destruct Hb as (Htags & _). eapply written_in_bounds; [done|done|].
  rewrite Hs. apply to_unsigned_range.
Qed.

(** X3: the three member functions keep a level within bounds.  A level
    that [compress_data] or [uncompress_data] has finished on, or that
    [normalize_active_fe_indices] has gone through, is within bounds
    again, so that no later pass reads outside a vector either. *)
Theorem passes_keep_in_bounds L L' :
  in_bounds L →
  compress_data is_compressed_entry toggle n_dofs_per_object L = Done L'
  ∨ uncompress_data is_compressed_entry toggle n_dofs_per_object L = Done L'
  ∨ normalize_active_fe_indices is_compressed_entry toggle L = L' →
  in_bounds L'.
Proof.
  intros Hb [Hdone|[Hdone| <-]].
  - by apply (compress_data_Done_in_bounds L).
  - by apply (uncompress_data_Done_in_bounds L).
  - destruct Hb as (Htags & Hrest). split; [|done].
    simpl. by rewrite length_fmap.
Qed.

(** ** The first run through counts what the second one writes *)

Lemma compress_count_counts L c o n fe (s : Z) :
  active_fe_indices L !! c = Some fe →
  compress_ok is_compressed_entry n_dofs_per_object L (c, o, n) fe →
  compress_count n_dofs_per_object L c o n (to_unsigned s)
  = Done (to_unsigned (s + Z.of_nat (compressed_size L (c, o, n)))).
Proof.
  intros Hfe (Hlen & Hin & _). unfold compress_count.
  rewrite subscript_nat, Hfe, bind_Done. unfold Assert.
  unfold stored_length in Hlen.
  rewrite (bool_decide_eq_true_2 _ Hlen), bind_Done. unfold compressed_size.
  apply bool_decide_eq_true_1 in Hin.
  case_bool_decide as Hgt.
  - assert (0 ≤ o ∧ n ≤ Z.of_nat (length (dof_indices L))) as [H0 Hn] by lia.
    pose proof (stored_block_length L o n H0 Hn) as Hblock.
    rewrite is_compressible_inside, bind_Done by lia.
    destruct (compressible (stored_block L o n)).
    + by rewrite to_unsigned_add_l.
    + rewrite to_unsigned_add_l, to_unsigned_add_r, Hblock. do 2 f_equal. lia.
  - rewrite stored_block_empty by lia. simpl. by rewrite Z.add_0_r.
Qed.

Lemma compress_counting L cells (s : Z) :
  (∀ x, x ∈ cells →
     ∃ fe, active_fe_indices L !! x.1.1 = Some fe
           ∧ compress_ok is_compressed_entry n_dofs_per_object L x fe) →
  visit (compress_count n_dofs_per_object L) cells (to_unsigned s)
  = Done (to_unsigned
            (s + Z.of_nat (sum_list_with (compressed_size L) cells))).
Proof.
  revert s. induction cells as [|[[c o] n] cells IH]; intros s Hcells.
  - simpl. do 2 f_equal. lia.
  - destruct (Hcells _ (list_elem_of_here _ _)) as (fe & Hfe & Hok).
    cbn [visit]. rewrite (compress_count_counts L c o n fe) by done.
    rewrite bind_Done, IH.
    + do 2 f_equal. simpl. lia.
    + intros x Hx. apply Hcells. by right.
Qed.

Lemma written_checked L out ok upd cells w x :
  written L out ok upd cells w → x ∈ cells →
  ∃ fe, active_fe_indices L !! x.1.1 = Some fe ∧ ok x fe.
Proof.
  intros (_ & _ & _ & _ & _ & _ & Hnew) Hx.
  destruct (Hnew x Hx) as (fe & Hfe & Hok & _). by exists fe.
Qed.

Lemma compress_written_length L cells w :
  compress_written L cells w →
  length (new_dof_indices w) = sum_list_with (compressed_size L) cells.
Proof.
  intros (-> & _). rewrite length_bind.
  apply sum_list_with_ext. intros x _. apply compress_output_length.
Qed.

(** X4: the first run through of [compress_data] counts exactly what the
    second one writes.  Whenever the writing loop finishes, the counting
    loop has finished with the number of values written, as an
    [unsigned int]; so the last assertion (line 158) holds, and the pass
    finishes, unless 2^32 values or more were written. *)
Theorem compress_sizing_counts_written L w :
  nothing_stored L = false →
  compress_writing is_compressed_entry toggle n_dofs_per_object L = Done w →
  compress_sizing n_dofs_per_object L
  = Done (to_unsigned (Z.of_nat (length (new_dof_indices w))))
  ∧ (Z.of_nat (length (new_dof_indices w)) < 2 ^ 32 →
     compress_data is_compressed_entry toggle n_dofs_per_object L
     = Done (swapped w)).
Proof.
  intros Hruns Hw. pose proof (compress_writing_Done L w Hw) as Hwritten.
  assert (compress_sizing' L
          = Done (to_unsigned (Z.of_nat (length (new_dof_indices w)))))
    as Hs.
  { unfold compress_sizing. rewrite active_cell_loop_active_cells.
    change 0 with (to_unsigned 0) at 1.
    rewrite compress_counting.
    - by rewrite (compress_written_length L _ w Hwritten).
    - intros x Hx. by apply (written_checked L _ _ _ _ w x Hwritten). }
  split; [done|]. intros Hsmall.
  unfold compress_data. rewrite Hruns, Hs, Hw, !bind_Done.
  unfold swap_in, Assert.
  rewrite bool_decide_eq_true_2; [done|]. by rewrite to_unsigned_small by lia.
Qed.

Lemma uncompress_output_catalog L x fe :
  Z.of_nat (length (dof_indices L)) < 2 ^ 32 →
  x.1.2 ≤ x.2 →
  active_fe_indices L !! x.1.1 = Some fe →
  uncompress_ok is_compressed_entry toggle n_dofs_per_object L x fe →
  length (uncompress_output is_compressed_entry toggle n_dofs_per_object L x)
  = catalog_length is_compressed_entry toggle n_dofs_per_object L x.1.1.
Proof.
  intros Hsmall Hle Hfe Hok. destruct x as [[c o] n]. simpl in *.
  unfold uncompress_output, catalog_length, normalize_entry, uncompress_ok,
    stored_length in *.
  rewrite Hfe. destruct (is_compressed_entry fe).
  - destruct Hok as [_ Hread].
    destruct (dof_indices L !! Z.to_nat o) as [v|] eqn:Hv.
    + apply expand_run_length.
    + destruct (decide (n_dofs_per_object (toggle fe) = 0%nat)) as [->|Hne];
        [done|].
      apply Hread in Hne. apply lookup_ge_None in Hv. lia.
  - destruct Hok as [Hlen Hin]. apply bool_decide_eq_true_1 in Hin.
    destruct (decide (n = o)) as [->|Hne].
    + rewrite stored_block_empty by lia.
      rewrite Z.sub_diag in Hlen. change (to_unsigned 0) with 0 in Hlen.
      simpl. lia.
    + rewrite stored_block_length by lia.
      rewrite to_unsigned_small in Hlen by lia. lia.
Qed.

(** X5: the first run through of [uncompress_data] counts exactly what
    the second one writes, on a level whose offsets never decrease and
    whose [dof_indices] has a size that fits [unsigned int].  Whenever the
    writing loop finishes, the counting loop has finished with the number
    of values written, as an [unsigned int]; so the last assertion
    (line 242) holds, and the pass finishes, unless 2^32 values or more
    were written. *)
Theorem uncompress_sizing_counts_written L w :
  nothing_stored L = false →
  Z.of_nat (length (dof_indices L)) < 2 ^ 32 →
  monotone_offsets L →
  uncompress_writing is_compressed_entry toggle n_dofs_per_object L
  = Done w →
  uncompress_sizing is_compressed_entry toggle n_dofs_per_object L
  = Done (to_unsigned (Z.of_nat (length (new_dof_indices w))))
  ∧ (Z.of_nat (length (new_dof_indices w)) < 2 ^ 32 →
     uncompress_data is_compressed_entry toggle n_dofs_per_object L
     = Done (swapped w)).
Proof.
  intros Hruns Hsmall Hmono Hw.
  pose proof (uncompress_writing_Done L w Hw) as Hwritten.
  assert (uncompress_sizing' L
          = Done (to_unsigned (Z.of_nat (length (new_dof_indices w)))))
    as Hs.
  { destruct (uncompress_count_total L (indices_size L) (dof_offsets L) 0 0)
      as [ns Hs].
    { intros c (x & -> & Hx)%list_elem_of_fmap.
      destruct (written_checked L _ _ _ _ w x Hwritten Hx) as (fe & -> & _).
      by eexists. }
    unfold uncompress_sizing. rewrite Hs. f_equal.
    rewrite (uncompress_sizing_Done L ns Hs). do 2 f_equal.
    destruct Hwritten as (-> & _). rewrite length_bind.
    unfold cell_numbers. rewrite sum_list_with_fmap.
    apply sum_list_with_ext. intros x Hx. symmetry.
    destruct (written_checked L _ _ _ _ w x (uncompress_writing_Done L w Hw) Hx)
      as (fe & Hfe & Hok).
    apply (uncompress_output_catalog L x fe); try done. by apply Hmono. }
  split; [done|]. intros Hfits.
  unfold uncompress_data. rewrite Hruns, Hs, Hw, !bind_Done.
  unfold swap_in, Assert.
  rewrite bool_decide_eq_true_2; [done|]. by rewrite to_unsigned_small by lia.
Qed.

(** ** A writer that puts a level back together *)

Lemma inactive_offset L c :
  c ∉ cell_numbers (active_cells L) →
  replicate (length (dof_offsets L)) invalid_offset !! c = dof_offsets L !! c.
Proof.
  intros Hout. destruct (dof_offsets L !! c) as [o|] eqn:Hc.
  - rewrite lookup_replicate_2 by (by apply lookup_lt_Some in Hc).
    destruct (decide (o = invalid_offset)) as [->|Hne]; [done|].
    exfalso. apply Hout. apply list_elem_of_fmap.
    exists (c, o, next_active_offset (indices_size L)
                    (drop (S c) (dof_offsets L))).
    split; [done|]. by apply active_cells_elem.
  - apply lookup_replicate_None. by apply lookup_ge_None in Hc.
Qed.

Lemma cell_numbers_lookup (cells cells1 : list (nat * Z * Z)) (i : nat) x1 :
  cell_numbers cells1 = cell_numbers cells → cells1 !! i = Some x1 →
  ∃ x, cells !! i = Some x ∧ x.1.1 = x1.1.1.
Proof.
  intros Hnum Hx1.
  assert (cell_numbers cells !! i = Some x1.1.1) as Hi.
  { rewrite <- Hnum. unfold cell_numbers. by rewrite list_lookup_fmap, Hx1. }
  apply list_lookup_fmap_Some in Hi as (x & Hc & Hx). by exists x.
Qed.

(** The offsets a writer leaves are those of [L] if it has put every cell
    of [L] where the cell was. *)
Lemma written_offsets_eq L L1 out ok upd w :
  written L1 out ok upd (active_cells L1) w →
  length (dof_offsets L1) = length (dof_offsets L) →
  cell_numbers (active_cells L1) = cell_numbers (active_cells L) →
  (∀ (i : nat) x, active_cells L !! i = Some x →
     x.1.2 = to_unsigned
               (Z.of_nat (length (take i (active_cells L1) ≫= out)))) →
  new_dof_offsets w = dof_offsets L.
Proof.
  intros (_ & _ & Hoff & Hpos & _) Hlen Hnum Hsame.
  apply list_eq. intros c.
  destruct (decide (c ∈ cell_numbers (active_cells L1))) as [Hin|Hout].
  - apply list_elem_of_fmap in Hin as (x1 & -> & [i Hx1]%list_elem_of_lookup).
    destruct (cell_numbers_lookup _ _ i x1 Hnum Hx1) as (x & Hx & Hc).
    rewrite (Hpos i x1 Hx1), <- (Hsame i x Hx), <- Hc.
    destruct x as [[c o] n]. simpl.
    by pose proof (proj1 (active_cells_elem L c o n)
                     (list_elem_of_lookup_2 _ _ _ Hx)) as (-> & _).
  - rewrite (Hoff c Hout), Hlen. apply inactive_offset. by rewrite <- Hnum.
Qed.

(** The cells of the level a writer leaves, next to those of [L]. *)
Lemma written_cells_lookup L out ok upd w (i : nat) x1 :
  written L out ok upd (active_cells L) w →
  Z.of_nat (length (new_dof_indices w)) < invalid_offset →
  active_cells (swapped w) !! i = Some x1 →
  ∃ x, active_cells L !! i = Some x
       ∧ x1.1.1 = x.1.1
       ∧ x1.1.2 = Z.of_nat (length (take i (active_cells L) ≫= out))
       ∧ x1.2 - x1.1.2 = Z.of_nat (length (out x))
       ∧ stored_block (swapped w) x1.1.2 x1.2 = out x.
Proof.
  intros Hw Hsmall Hx1.
  pose proof (written_active_cells L out ok upd w Hw Hsmall) as Hcells.
  pose proof (relocate_blocks out (swapped w) (active_cells L) []) as Hblocks.
  change (length (@nil Z)) with 0%nat in Hblocks.
  rewrite <- Hcells in Hblocks.
  assert (dof_indices (swapped w) = [] ++ (active_cells L ≫= out))
    as Hind by (simpl; by destruct Hw as (-> & _)).
  destruct (Forall2_lookup_r _ _ _ _ _ (Hblocks Hind) Hx1)
    as (x & Hx & Hcell & Hblock).
  exists x. split; [done|]. split; [done|].
  rewrite Hcells in Hx1.
  apply relocate_lookup in Hx1 as (x' & Hx' & ->).
  assert (x' = x) as -> by congruence. simpl.
  split; [done|]. split; [|done].
  rewrite (take_S_r _ _ _ Hx), bind_app, bind_singleton, length_app. lia.
Qed.

Lemma written_cells_lookup_l L out ok upd w (i : nat) x :
  written L out ok upd (active_cells L) w →
  Z.of_nat (length (new_dof_indices w)) < invalid_offset →
  active_cells L !! i = Some x →
  ∃ x1, active_cells (swapped w) !! i = Some x1
        ∧ x1.1.1 = x.1.1
        ∧ x1.2 - x1.1.2 = Z.of_nat (length (out x))
        ∧ stored_block (swapped w) x1.1.2 x1.2 = out x.
Proof.
  intros Hw Hsmall Hx.
  destruct (lookup_lt_is_Some_2 (active_cells (swapped w)) i) as [x1 Hx1].
  { rewrite (written_active_cells L out ok upd w Hw Hsmall), relocate_length.
    by apply lookup_lt_Some in Hx. }
  destruct (written_cells_lookup L out ok upd w i x1 Hw Hsmall Hx1)
    as (x' & Hx' & ? & ? & ? & ?).
  assert (x' = x) as -> by congruence. by exists x1.
Qed.

(** Two writing loops, the second one run on what the first one has
    left: if the second one stores for every cell the block the cell had
    in [L], and leaves the entry the cell had, the level is [L] again. *)
Section two_passes.

Variable L : Level.
Variables out1 out2 : nat * Z * Z → list Z.
Variables ok1 ok2 : nat * Z * Z → T → Prop.
Variables upd1 upd2 : nat * Z * Z → T → T.
Variables w w2 : writer T.

Hypothesis Hlaid : well_laid_out is_compressed_entry n_dofs_per_object L.
Hypothesis Hw : written L out1 ok1 upd1 (active_cells L) w.
Hypothesis Hsmall : Z.of_nat (length (new_dof_indices w)) < invalid_offset.
Hypothesis Hw2 :
  written (swapped w) out2 ok2 upd2 (active_cells (swapped w)) w2.
Hypothesis Hblocks : ∀ (i : nat) x x1,
  active_cells L !! i = Some x → active_cells (swapped w) !! i = Some x1 →
  out2 x1 = stored_block L x.1.2 x.2.
Hypothesis Hentries : ∀ (i : nat) x x1 fe,
  active_cells L !! i = Some x → active_cells (swapped w) !! i = Some x1 →
  active_fe_indices L !! x.1.1 = Some fe →
  upd2 x1 (upd1 x fe) = fe.

Lemma two_passes_cell_numbers :
  cell_numbers (active_cells (swapped w)) = cell_numbers (active_cells L).
Proof.
  by rewrite (written_active_cells L out1 ok1 upd1 w Hw Hsmall),
       relocate_cell_numbers.
Qed.

Lemma two_passes_outputs :
  Forall2 (λ x x1, out2 x1 = stored_block L x.1.2 x.2)
    (active_cells L) (active_cells (swapped w)).
Proof.
  apply Forall2_same_length_lookup. split.
  - by rewrite (written_active_cells L out1 ok1 upd1 w Hw Hsmall),
         relocate_length.
  - intros i x x1 Hx Hx1. by apply (Hblocks i).
Qed.

Lemma two_passes_indices : new_dof_indices w2 = dof_indices L.
Proof.
  destruct (well_laid_out_cells L Hlaid) as (Hind & _).
  destruct Hw2 as (-> & _).
  transitivity (active_cells L ≫= block_of L); [|done].
  apply bind_Forall2, two_passes_outputs.
Qed.

Lemma two_passes_entries : fe_indices w2 = active_fe_indices L.
Proof.
  apply list_eq. intros c.
  destruct (decide (c ∈ cell_numbers (active_cells L))) as [Hin|Hout].
  - apply list_elem_of_fmap in Hin as (x & -> & [i Hx]%list_elem_of_lookup).
    destruct (written_cells_lookup_l L out1 ok1 upd1 w i x Hw Hsmall Hx)
      as (x1 & Hx1 & Hcell & _).
    destruct Hw2 as (_ & _ & _ & _ & _ & _ & Hnew2).
    destruct (Hnew2 x1 (list_elem_of_lookup_2 _ _ _ Hx1))
      as (fe1 & Hfe1 & _ & Hfe2).
    destruct Hw as (_ & _ & _ & _ & _ & _ & Hnew).
    destruct (Hnew x (list_elem_of_lookup_2 _ _ _ Hx)) as (fe & Hfe & _ & Hfe').
    simpl in Hfe1. rewrite Hcell in Hfe1, Hfe2.
    assert (fe1 = upd1 x fe) as -> by congruence.
    by rewrite Hfe2, Hfe, (Hentries i x x1 fe Hx Hx1 Hfe).
  - destruct Hw2 as (_ & _ & _ & _ & _ & Hsame2 & _).
    destruct Hw as (_ & _ & _ & _ & _ & Hsame & _).
    rewrite Hsame2; [by apply Hsame|]. by rewrite two_passes_cell_numbers.
Qed.

Lemma two_passes_offsets : new_dof_offsets w2 = dof_offsets L.
Proof.
  destruct (well_laid_out_cells L Hlaid) as (Hind & Hcells).
  destruct Hlaid as (Hsize & _). rewrite invalid_offset_eq in Hsize.
  apply (written_offsets_eq L (swapped w) out2 ok2 upd2 w2 Hw2).
  - simpl. by destruct Hw as (_ & -> & _).
  - apply two_passes_cell_numbers.
  - intros i x Hx. destruct (Hcells i x Hx) as (-> & _).
    rewrite (bind_Forall2 _ _ _ _ (Forall2_take _ _ _ i two_passes_outputs)).
    rewrite to_unsigned_small; [done|].
    pose proof (length_bind_take (block_of L) (active_cells L) i) as Hle.
    rewrite <- Hind in Hle. lia.
Qed.

Lemma two_passes_level : swapped w2 = L.
Proof.
  unfold swapped.
  rewrite two_passes_indices, two_passes_entries, two_passes_offsets.
  by destruct L.
Qed.

End two_passes.

(** ** [uncompress_data] on a level in uncompressed form *)

Lemma bind_ext_elem_of {A B : Type} (f g : A → list B) (l : list A) :
  (∀ x, x ∈ l → f x = g x) → l ≫= f = l ≫= g.
Proof.
  intros H. apply bind_Forall2, Forall2_diag_elem_of.
  intros x Hx. by apply H.
Qed.

Lemma bind_take_ext_elem_of {A B : Type} (f g : A → list B) (l : list A)
    (i : nat) :
  (∀ x, x ∈ l → f x = g x) → take i l ≫= f = take i l ≫= g.
Proof.
  intros H. apply bind_ext_elem_of. intros x Hx. apply H.
  apply list_elem_of_lookup in Hx as [j Hj].
  apply lookup_take_Some in Hj as [Hj _]. by eapply list_elem_of_lookup_2.
Qed.

Lemma uncompressed_form_sizes L :
  uncompressed_form is_compressed_entry n_dofs_per_object L →
  sum_list_with
    (catalog_length is_compressed_entry toggle n_dofs_per_object L)
    (cell_numbers (active_cells L))
  = length (dof_indices L).
Proof.
  intros Hform.
  destruct (uncompressed_form_cells L Hform) as (_ & Hind & Hcells).
  replace (length (dof_indices L))
    with (length (active_cells L ≫= block_of L)) by (by rewrite <- Hind).
  rewrite length_bind. unfold cell_numbers. rewrite sum_list_with_fmap.
  apply sum_list_with_ext. intros x [i Hx]%list_elem_of_lookup.
  destruct (Hcells i x Hx) as (fe & Hfe & Hflag & _ & Hblock & _).
  unfold catalog_length, normalize_entry. by rewrite Hfe, Hflag, Hblock.
Qed.

Lemma uncompressed_form_output L x :
  uncompressed_form is_compressed_entry n_dofs_per_object L →
  x ∈ active_cells L →
  uncompress_output is_compressed_entry toggle n_dofs_per_object L x
  = stored_block L x.1.2 x.2.
Proof.
  intros Hform [i Hx]%list_elem_of_lookup.
  destruct (uncompressed_form_cells L Hform) as (_ & _ & Hcells).
  destruct (Hcells i x Hx) as (fe & Hfe & Hflag & _).
  destruct x as [[c o] n]. simpl in *.
  unfold uncompress_output. by rewrite Hfe, Hflag.
Qed.

(** X6: [uncompress_data] gives back a level in uncompressed form as it
    is: the same indices, the same offsets, the same entries.  Calling it
    on a level that is not compressed does no harm. *)
Theorem uncompress_uncompressed_is_noop L :
  uncompressed_form is_compressed_entry n_dofs_per_object L →
  uncompress_data is_compressed_entry toggle n_dofs_per_object L = Done L.
Proof.
  intros Hform. destruct (nothing_stored L) eqn:Hruns.
  { unfold uncompress_data. by rewrite Hruns. }
  pose proof Hform as (Hlaid & _).
  destruct (uncompressed_form_cells L Hform) as (Hsmall & Hind & Hcells).
  destruct (uncompress_total L Hlaid Hruns) as (w & Hdone & Hw).
  { rewrite uncompressed_form_sizes by done. lia. }
  rewrite Hdone. f_equal.
  assert (new_dof_indices w = dof_indices L) as Hindices.
  { destruct Hw as (-> & _).
    transitivity (active_cells L ≫= block_of L); [|done].
    apply bind_ext_elem_of. intros x Hx. by apply uncompressed_form_output. }
  assert (fe_indices w = active_fe_indices L) as Hentries.
  { apply list_eq. intros c.
    destruct (decide (c ∈ cell_numbers (active_cells L))) as [Hin|Hout].
    - apply list_elem_of_fmap in Hin as (x & -> & [i Hx]%list_elem_of_lookup).
      destruct (Hcells i x Hx) as (fe & Hfe & Hflag & _).
      destruct Hw as (_ & _ & _ & _ & _ & _ & Hnew).
      destruct (Hnew x (list_elem_of_lookup_2 _ _ _ Hx))
        as (fe' & Hfe' & _ & ->).
      assert (fe' = fe) as -> by congruence.
      unfold uncompress_entry. by rewrite Hflag, Hfe.
    - destruct Hw as (_ & _ & _ & _ & _ & Hsame & _). by apply Hsame. }
  assert (new_dof_offsets w = dof_offsets L) as Hoffsets.
  { apply (written_offsets_eq L L _ _ _ w Hw); [done|done|].
    intros i x Hx.
    destruct (Hcells i x Hx) as (_ & _ & _ & _ & _ & -> & _).
    rewrite (bind_take_ext_elem_of
               (uncompress_output is_compressed_entry toggle
                  n_dofs_per_object L) (block_of L))
      by (intros y Hy; by apply uncompressed_form_output).
    rewrite to_unsigned_small; [done|].
    pose proof (length_bind_take (block_of L) (active_cells L) i) as Hle.
    rewrite <- Hind in Hle. lia. }
  unfold swapped. rewrite Hindices, Hentries, Hoffsets. by destruct L.
Qed.

(** ** What a finished [uncompress_data] leaves is in uncompressed form *)

Lemma stored_block_Forall (P : Z → Prop) L o n :
  Forall P (dof_indices L) → Forall P (stored_block L o n).
Proof. intros H. unfold stored_block. by apply Forall_take, Forall_drop. Qed.

Lemma to_global_dof_index_range (z : Z) : 0 ≤ to_global_dof_index z < 2 ^ 32.
Proof. unfold to_global_dof_index. by apply Z.mod_pos_bound. Qed.

Lemma expand_run_range (v : Z) (len : nat) :
  Forall (λ v, 0 ≤ v < 2 ^ 32) (expand_run v len).
Proof.
  unfold expand_run. apply Forall_fmap, Forall_forall. intros i _. simpl.
  apply to_global_dof_index_range.
Qed.

Lemma uncompress_output_range L x :
  Forall (λ v, 0 ≤ v < 2 ^ 32) (dof_indices L) →
  Forall (λ v, 0 ≤ v < 2 ^ 32)
    (uncompress_output is_compressed_entry toggle n_dofs_per_object L x).
Proof.
  intros Hrange. destruct x as [[c o] n]. unfold uncompress_output.
  destruct (active_fe_indices L !! c) as [fe|]; [|done].
  destruct (is_compressed_entry fe).
  - destruct (dof_indices L !! Z.to_nat o); [|done]. apply expand_run_range.
  - by apply stored_block_Forall.
Qed.

Lemma uncompress_written_length L w :
  well_laid_out is_compressed_entry n_dofs_per_object L →
  uncompress_written L (active_cells L) w →
  length (new_dof_indices w)
  = sum_list_with
      (catalog_length is_compressed_entry toggle n_dofs_per_object L)
      (cell_numbers (active_cells L)).
Proof.
  intros Hlaid (-> & _). rewrite length_bind.
  unfold cell_numbers. rewrite sum_list_with_fmap.
  apply sum_list_with_ext. intros x Hx. by apply uncompress_output_length.
Qed.

Lemma normalize_entry_unmarked fe :
  (∀ fe, is_compressed_entry fe = true →
         is_compressed_entry (toggle fe) = false) →
  is_compressed_entry (normalize_entry is_compressed_entry toggle fe) = false.
Proof.
  intros Huntoggle. unfold normalize_entry.
  destruct (is_compressed_entry fe) eqn:Hflag; [by apply Huntoggle|done].
Qed.

Lemma uncompress_written_form L w :
  (∀ fe, is_compressed_entry fe = true →
         is_compressed_entry (toggle fe) = false) →
  well_laid_out is_compressed_entry n_dofs_per_object L →
  Forall (λ v, 0 ≤ v < 2 ^ 32) (dof_indices L) →
  Z.of_nat (sum_list_with
              (catalog_length is_compressed_entry toggle n_dofs_per_object L)
              (cell_numbers (active_cells L))) < invalid_offset →
  uncompress_written L (active_cells L) w →
  uncompressed_form is_compressed_entry n_dofs_per_object (swapped w).
Proof.
  intros Huntoggle Hlaid Hrange Hfits Hw.
  assert (Z.of_nat (length (new_dof_indices w)) < invalid_offset) as Hsmall.
  { by rewrite (uncompress_written_length L w Hlaid Hw). }
  assert (∀ x1, x1 ∈ active_cells (swapped w) →
            ∃ x fe, x ∈ active_cells L
              ∧ active_fe_indices L !! x.1.1 = Some fe
              ∧ active_fe_indices (swapped w) !! x1.1.1
                = Some (normalize_entry is_compressed_entry toggle fe)
              ∧ x1.2 - x1.1.2
                = Z.of_nat (n_dofs_per_object
                              (normalize_entry is_compressed_entry toggle fe)))
    as Hcells.
  { intros x1 [i Hx1]%list_elem_of_lookup.
    destruct (written_cells_lookup L _ _ _ w i x1 Hw Hsmall Hx1)
      as (x & Hx & Hcell & _ & Hlen & _).
    apply list_elem_of_lookup_2 in Hx.
    pose proof Hw as (_ & _ & _ & _ & _ & _ & Hnew).
    destruct (Hnew x Hx) as (fe & Hfe & _ & Hfe1).
    exists x, fe. split; [done|]. split; [done|].
    simpl. rewrite Hcell. split; [done|].
    rewrite Hlen, (uncompress_output_length L x Hlaid Hx).
    unfold catalog_length. by rewrite Hfe. }
  split; [|split].
  - split; [done|]. split.
    + by eapply written_first_offset.
    + intros x1 Hx1. destruct (Hcells x1 Hx1) as (x & fe & _ & _ & Hfe1 & Hlen).
      exists (normalize_entry is_compressed_entry toggle fe).
      split; [done|]. by rewrite normalize_entry_unmarked.
  - simpl. destruct Hw as (-> & _). apply Forall_bind, Forall_forall.
    intros x _. by apply uncompress_output_range.
  - intros x1 fe1 Hx1 Hfe1.
    destruct (Hcells x1 Hx1) as (x & fe & _ & _ & Hfe1' & _).
    assert (fe1 = normalize_entry is_compressed_entry toggle fe) as ->
      by congruence.
    by apply normalize_entry_unmarked.
Qed.

Lemma well_laid_out_no_marks L :
  well_laid_out is_compressed_entry n_dofs_per_object L →
  nothing_stored L = true →
  ∀ x fe, x ∈ active_cells L → active_fe_indices L !! x.1.1 = Some fe →
    is_compressed_entry fe = false.
Proof.
  intros [_ Hcells]%well_laid_out_entries Hruns x fe Hx Hfe.
  destruct (nothing_stored_block L x Hruns Hx) as [_ Hnil].
  destruct (Hcells x Hx) as (fe' & Hfe' & Hlen & Hle & Hn & _).
  assert (fe' = fe) as -> by congruence.
  destruct (is_compressed_entry fe); [|done].
  rewrite Hnil in Hn. simpl in Hn. lia.
Qed.

(** X7: [uncompress_data] finishes on every level that is laid out as the
    data model says (indices of type [unsigned int], the uncompressed
    blocks fitting an index array), and leaves it in uncompressed form:
    laid out as the data model says, no entry of an active cell marked
    compressed, every block of the catalog length of its entry.  The one
    property of the helpers used: untoggling a marked entry gives an
    unmarked one. *)
Theorem uncompress_gives_uncompressed_form L :
  (∀ fe, is_compressed_entry fe = true →
         is_compressed_entry (toggle fe) = false) →
  well_laid_out is_compressed_entry n_dofs_per_object L →
  Forall (λ v, 0 ≤ v < 2 ^ 32) (dof_indices L) →
  Z.of_nat (sum_list_with
              (catalog_length is_compressed_entry toggle n_dofs_per_object L)
              (cell_numbers (active_cells L))) < invalid_offset →
  ∃ L',
    uncompress_data is_compressed_entry toggle n_dofs_per_object L = Done L'
    ∧ uncompressed_form is_compressed_entry n_dofs_per_object L'.
Proof.
  intros Huntoggle Hlaid Hrange Hfits.
  destruct (nothing_stored L) eqn:Hruns.
  { exists L. split; [unfold uncompress_data; by rewrite Hruns|].
    split; [done|]. split; [done|]. by apply well_laid_out_no_marks. }
  destruct (uncompress_total L Hlaid Hruns) as (w & Hdone & Hw).
  { rewrite invalid_offset_eq in Hfits. lia. }
  exists (swapped w). split; [done|]. by apply (uncompress_written_form L).
Qed.

(** ** What a finished [compress_data] leaves is in compressed form *)

Lemma compress_output_range L x :
  Forall (λ v, 0 ≤ v < 2 ^ 32) (dof_indices L) →
  Forall (λ v, 0 ≤ v < 2 ^ 32) (compress_output L x).
Proof.
  intros Hrange. destruct x as [[c o] n].
  unfold compress_output, compress_block.
  destruct (compressible (stored_block L o n));
    [apply Forall_take|]; by apply stored_block_Forall.
Qed.

Lemma compress_written_form L w :
  (∀ fe, is_compressed_entry fe = false →
         is_compressed_entry (toggle fe) = true) →
  (∀ fe, toggle (toggle fe) = fe) →
  uncompressed_form is_compressed_entry n_dofs_per_object L →
  compress_written L (active_cells L) w →
  compressed_form is_compressed_entry toggle n_dofs_per_object (swapped w).
Proof.
  intros Hmarks Hinv Hform Hw.
  destruct (uncompressed_form_cells L Hform) as (Hsmall & _ & Hcells).
  split; [by apply (compressed_well_laid_out Hmarks Hinv L Hform)|].
  split; [|split].
  - simpl. destruct Hw as (-> & _). apply Forall_bind, Forall_forall.
    intros x _. apply compress_output_range. by destruct Hform as (_ & ? & _).
  - rewrite (compressed_catalog_lengths Hmarks Hinv L Hform w Hw).
    rewrite invalid_offset_eq. lia.
  - intros x1 fe1 [i Hx1]%list_elem_of_lookup Hfe1.
    destruct (compressed_cells_lookup L Hform w Hw i x1 Hx1)
      as (x & Hx & Hcell & _ & Hblock).
    destruct (Hcells i x Hx) as (fe & Hfe & Hflag & _ & Hlen & _).
    pose proof Hw as (_ & _ & _ & _ & _ & _ & Hnew).
    destruct (Hnew x (list_elem_of_lookup_2 _ _ _ Hx))
      as (fe' & Hfe' & _ & Hentry).
    assert (fe' = fe) as -> by congruence.
    simpl in Hfe1. rewrite Hcell, Hentry in Hfe1. injection Hfe1 as <-.
    rewrite Hblock. destruct x as [[c o] n]. simpl in *.
    unfold compress_entry, compress_output, compress_block.
    destruct (compressible (stored_block L o n)) eqn:Hc.
    + rewrite (Hmarks fe Hflag), Hinv, <- Hlen.
      by destruct (stored_block L o n).
    + by rewrite Hflag.
Qed.

(** X8: [compress_data] finishes on every level in uncompressed form and
    leaves it in compressed form: laid out as the data model says, with a
    block of one value for every entry marked compressed, such an entry
    being of a variant with at least one DoF, and with no block left that
    could be compressed under an entry that is not marked.  The
    properties of the helpers used: toggling an unmarked entry marks it,
    and toggling twice gives the entry back. *)
Theorem compress_gives_compressed_form L :
  (∀ fe, is_compressed_entry fe = false →
         is_compressed_entry (toggle fe) = true) →
  (∀ fe, toggle (toggle fe) = fe) →
  uncompressed_form is_compressed_entry n_dofs_per_object L →
  ∃ L',
    compress_data is_compressed_entry toggle n_dofs_per_object L = Done L'
    ∧ compressed_form is_compressed_entry toggle n_dofs_per_object L'.
Proof.
  intros Hmarks Hinv Hform. destruct (nothing_stored L) eqn:Hruns.
  { exists L. split; [unfold compress_data; by rewrite Hruns|].
    destruct (uncompressed_form_cells L Hform) as (Hsmall & _).
    pose proof Hform as (Hlaid & Hrange & Hflags).
    split; [done|]. split; [done|]. split.
    - rewrite uncompressed_form_sizes, invalid_offset_eq by done. lia.
    - intros x fe Hx Hfe. rewrite (Hflags x fe Hx Hfe).
      by destruct (nothing_stored_block L x Hruns Hx) as [-> _]. }
  destruct (compress_total L Hform Hruns) as (w & Hdone & Hw).
  exists (swapped w). split; [done|]. by apply (compress_written_form L).
Qed.

(** ** Uncompressing and compressing again *)

Lemma is_run_cons (x y : Z) (block : list Z) :
  is_run (x :: y :: block)
  = bool_decide (y = to_global_dof_index (x + 1)) && is_run (y :: block).
Proof. done. Qed.

Lemma is_run_expand_run (v : Z) (len : nat) : is_run (expand_run v len) = true.
Proof.
  revert v. induction len as [|len IH]; intros v; [done|].
  rewrite expand_run_S. specialize (IH (to_global_dof_index (v + 1))).
  destruct len as [|len]; [done|].
  rewrite expand_run_S in IH |- *. rewrite is_run_cons, IH, andb_true_r.
  apply bool_decide_eq_true_2. unfold to_global_dof_index.
  by rewrite Zmod_mod, Zplus_mod_idemp_l.
Qed.

Lemma compress_block_expand_run (v : Z) (len : nat) :
  len ≠ 0%nat → 0 ≤ v < 2 ^ 32 →
  compressible (expand_run v len) = true
  ∧ compress_block (expand_run v len) = [v].
Proof.
  intros Hlen Hv. destruct len as [|len]; [done|].
  pose proof (is_run_expand_run v (S len)) as Hrun.
  unfold compress_block. rewrite expand_run_S in Hrun |- *.
  unfold compressible. rewrite Hrun. split; [done|]. simpl.
  unfold to_global_dof_index. by rewrite Z.mod_small.
Qed.

(** A cell of a level in compressed form: what [uncompress_data] stores
    for it can be compressed if and only if its entry is marked, and
    compresses to the block the cell has. *)
Lemma compressed_form_cell L x fe :
  compressed_form is_compressed_entry toggle n_dofs_per_object L →
  x ∈ active_cells L → active_fe_indices L !! x.1.1 = Some fe →
  let out := uncompress_output is_compressed_entry toggle n_dofs_per_object
               L x in
  compress_block out = stored_block L x.1.2 x.2
  ∧ compressible out = is_compressed_entry fe
  ∧ (length (stored_block L x.1.2 x.2) ≤ length out)%nat.
Proof.
  intros (Hlaid & Hrange & _ & Hforms) Hx Hfe.
  destruct (well_laid_out_entries L Hlaid) as (_ & Hcells).
  destruct (Hcells x Hx) as (fe' & Hfe' & Hlen & Hle & Hn & Hblock & _).
  assert (fe' = fe) as -> by congruence.
  specialize (Hforms x fe Hx Hfe). destruct x as [[c o] n]. simpl in *.
  unfold uncompress_output. rewrite Hfe.
  destruct (is_compressed_entry fe).
  - rewrite Hlen in Hblock.
    destruct (stored_block L o n) as [|v [|v' block]] eqn:Hb; try done.
    pose proof (stored_block_head L o n v [] Hb) as Hv. rewrite Hv.
    assert (0 ≤ v < 2 ^ 32) as Hvr.
    { rewrite Forall_forall in Hrange. apply Hrange.
      by eapply list_elem_of_lookup_2. }
    destruct (compress_block_expand_run v _ Hforms Hvr) as [-> ->].
    split; [done|]. split; [done|]. rewrite expand_run_length. simpl. lia.
  - unfold compress_block. by rewrite Hforms.
Qed.

Lemma uncompress_written_stores L w :
  compressed_form is_compressed_entry toggle n_dofs_per_object L →
  uncompress_written L (active_cells L) w →
  (length (dof_indices L) ≤ length (new_dof_indices w))%nat.
Proof.
  intros Hform Hw. pose proof Hform as (Hlaid & _).
  destruct (well_laid_out_cells L Hlaid) as (Hind & _).
  replace (length (dof_indices L))
    with (length (active_cells L ≫= block_of L)) by (by rewrite <- Hind).
  pose proof Hw as (-> & _). rewrite !length_bind. apply sum_list_with_le.
  intros x Hx.
  destruct (written_checked L _ _ _ _ w x Hw Hx) as (fe & Hfe & _).
  by destruct (compressed_form_cell L x fe Hform Hx Hfe) as (_ & _ & ?).
Qed.

(** X9: a level in compressed form goes through [uncompress_data] and
    then through [compress_data], and comes back as it was: the same
    indices, the same offsets, the same entries.  With C1 this makes the
    two passes inverse to each other between the levels in uncompressed
    form and those in compressed form.  The properties of the helpers
    used: untoggling a marked entry gives an unmarked one, and toggling
    twice gives the entry back. *)
Theorem uncompress_compress_roundtrip L :
  (∀ fe, is_compressed_entry fe = true →
         is_compressed_entry (toggle fe) = false) →
  (∀ fe, toggle (toggle fe) = fe) →
  compressed_form is_compressed_entry toggle n_dofs_per_object L →
  ∃ L0,
    uncompress_data is_compressed_entry toggle n_dofs_per_object L = Done L0
    ∧ compress_data is_compressed_entry toggle n_dofs_per_object L0
      = Done L.
Proof.
  intros Huntoggle Hinv Hform.
  destruct (nothing_stored L) eqn:Hruns.
  { exists L. unfold compress_data, uncompress_data. by rewrite Hruns. }
  pose proof Hform as (Hlaid & Hrange & Hfits & _).
  destruct (uncompress_total L Hlaid Hruns) as (w & Hdone & Hw).
  { rewrite invalid_offset_eq in Hfits. lia. }
  exists (swapped w). split; [done|].
  pose proof (uncompress_written_form L w Huntoggle Hlaid Hrange Hfits Hw)
    as Hform0.
  assert (Z.of_nat (length (new_dof_indices w)) < invalid_offset) as Hsmall.
  { by rewrite (uncompress_written_length L w Hlaid Hw). }
  assert (nothing_stored (swapped w) = false) as Hruns0.
  { pose proof (uncompress_written_stores L w Hform Hw) as Hle.
    unfold nothing_stored, is_empty in *. simpl.
    apply orb_false_iff in Hruns as [Hoff Hinds].
    apply bool_decide_eq_false_1 in Hoff, Hinds.
    destruct Hw as (_ & Hlen & _).
    apply orb_false_iff. split; apply bool_decide_eq_false_2; lia. }
  destruct (compress_total (swapped w) Hform0 Hruns0) as (w2 & Hdone2 & Hw2).
  rewrite Hdone2. f_equal.
  assert (∀ (i : nat) x x1 fe,
            active_cells L !! i = Some x →
            active_cells (swapped w) !! i = Some x1 →
            active_fe_indices L !! x.1.1 = Some fe →
            compress_output (swapped w) x1 = stored_block L x.1.2 x.2
            ∧ compress_entry toggle (swapped w) x1
                (uncompress_entry is_compressed_entry toggle x fe) = fe)
    as Hcell.
  { intros i x x1 fe Hx Hx1 Hfe.
    destruct (written_cells_lookup L _ _ _ w i x1 Hw Hsmall Hx1)
      as (x' & Hx' & _ & _ & _ & Hblock).
    assert (x' = x) as -> by congruence.
    destruct (compressed_form_cell L x fe Hform
                (list_elem_of_lookup_2 _ _ _ Hx) Hfe) as (Hback & Hflag & _).
    destruct x1 as [[c1 o1] n1]. simpl in *.
    unfold compress_entry, uncompress_entry. rewrite Hblock, Hflag.
    split; [done|]. destruct (is_compressed_entry fe); [apply Hinv|done]. }
  apply (two_passes_level L _ _ _ _ _ _ w w2 Hlaid Hw Hsmall Hw2).
  - intros i x x1 Hx Hx1.
    destruct (written_checked L _ _ _ _ w x Hw
                (list_elem_of_lookup_2 _ _ _ Hx)) as (fe & Hfe & _).
    by destruct (Hcell i x x1 fe Hx Hx1 Hfe).
  - intros i x x1 fe Hx Hx1 Hfe. by destruct (Hcell i x x1 fe Hx Hx1 Hfe).
Qed.

(** ** Compressing twice *)

Lemma compress_output_compressible L x :
  compressible (stored_block L x.1.2 x.2) = true →
  compressible (compress_output L x) = true.
Proof.
  destruct x as [[c o] n]. simpl. unfold compress_output, compress_block.
  intros Hc. rewrite Hc. by destruct (stored_block L o n).
Qed.

(** X10: [compress_data] cannot finish twice in a row.  If it has
    finished on a level and has compressed at least one block, a second
    call on the level it has left does not finish.  The compressed block
    has one value and its entry is marked compressed: if the catalog
    gives a block length other than one for the marked entry, the
    assertion on the block length stops the pass, and if it gives one,
    the assertion of lines 138-140 does.  (The look-up is a total
    function here.  A catalog that refuses the marked entry as an
    identifier it does not know stops the pass at the look-up, which is
    not a way of finishing either.)  The one property of the helpers
    used: toggling an unmarked entry marks it. *)
Theorem compress_twice_never_finishes L L1 L2 x :
  (∀ fe, is_compressed_entry fe = false →
         is_compressed_entry (toggle fe) = true) →
  compress_data is_compressed_entry toggle n_dofs_per_object L = Done L1 →
  Z.of_nat (length (dof_indices L1)) < invalid_offset →
  x ∈ active_cells L → compressible (stored_block L x.1.2 x.2) = true →
  compress_data is_compressed_entry toggle n_dofs_per_object L1 ≠ Done L2.
Proof.
  intros Hmarks Hdone Hsmall Hx Hc Hdone2.
  destruct (nothing_stored L) eqn:Hruns.
  { destruct (nothing_stored_block L x Hruns Hx) as [Hnil _].
    by rewrite Hnil in Hc. }
  apply (compress_data_Done L L1 Hruns) in Hdone as (w & Hw & _ & ->).
  apply compress_writing_Done in Hw.
  apply list_elem_of_lookup in Hx as [i Hx].
  destruct (written_cells_lookup_l L _ _ _ w i x Hw Hsmall Hx)
    as (x1 & Hx1 & Hcell & _ & Hblock).
  apply list_elem_of_lookup_2 in Hx, Hx1.
  pose proof (compress_output_compressible L x Hc) as Hc1.
  rewrite <- Hblock in Hc1.
  assert (nothing_stored (swapped w) = false) as Hruns1.
  { unfold nothing_stored, is_empty in *. simpl.
    apply orb_false_iff in Hruns as [Hoff _].
    apply bool_decide_eq_false_1 in Hoff.
    destruct Hw as (_ & Hlen & _).
    apply orb_false_iff. split; apply bool_decide_eq_false_2; [lia|].
    intros Hnil. apply nil_length_inv in Hnil.
    unfold stored_block in Hc1. simpl in Hc1.
    by rewrite Hnil, drop_nil, take_nil in Hc1. }
  apply (compress_data_Done _ L2 Hruns1) in Hdone2 as (w2 & Hw2 & _).
  apply compress_writing_Done in Hw2.
  destruct (written_checked _ _ _ _ _ w2 x1 Hw2 Hx1) as (fe1 & Hfe1 & Hok1).
  pose proof Hw as (_ & _ & _ & _ & _ & _ & Hnew).
  destruct (Hnew x Hx) as (fe & Hfe & Hok & Hentry).
  simpl in Hfe1. rewrite Hcell, Hentry in Hfe1. injection Hfe1 as <-.
  destruct x as [[c o] n], x1 as [[c1 o1] n1]. simpl in *.
  destruct Hok as (_ & _ & Hflag), Hok1 as (_ & _ & Hflag1).
  specialize (Hflag Hc). specialize (Hflag1 Hc1).
  unfold compress_entry in Hflag1. rewrite Hc in Hflag1.
  by rewrite (Hmarks fe Hflag) in Hflag1.
Qed.

(** ** The variants of the cells *)

Lemma written_variants L out ok upd cells w :
  written L out ok upd cells w →
  (∀ x fe, ok x fe →
     normalize_entry is_compressed_entry toggle (upd x fe)
     = normalize_entry is_compressed_entry toggle fe) →
  normalize_entry is_compressed_entry toggle <$> fe_indices w
  = normalize_entry is_compressed_entry toggle <$> active_fe_indices L.
Proof.
  intros (_ & _ & _ & _ & _ & Hsame & Hnew) Hupd.
  apply list_eq. intros c. rewrite !list_lookup_fmap.
  destruct (decide (c ∈ cell_numbers cells)) as [Hin|Hout].
  - apply list_elem_of_fmap in Hin as (x & -> & Hx).
    destruct (Hnew x Hx) as (fe & -> & Hok & ->). simpl. f_equal.
    by apply Hupd.
  - by rewrite Hsame.
Qed.

Lemma compress_entry_variant L x fe :
  (∀ fe, is_compressed_entry fe = false →
         is_compressed_entry (toggle fe) = true) →
  (∀ fe, toggle (toggle fe) = fe) →
  compress_ok is_compressed_entry n_dofs_per_object L x fe →
  normalize_entry is_compressed_entry toggle (compress_entry toggle L x fe)
  = normalize_entry is_compressed_entry toggle fe.
Proof.
  intros Hmarks Hinv. destruct x as [[c o] n]. intros (_ & _ & Hflag).
  unfold compress_entry.
  destruct (compressible (stored_block L o n)); [|done].
  specialize (Hflag eq_refl). unfold normalize_entry.
  by rewrite (Hmarks fe Hflag), Hflag, Hinv.
Qed.

Lemma uncompress_entry_variant x fe :
  (∀ fe, is_compressed_entry fe = true →
         is_compressed_entry (toggle fe) = false) →
  normalize_entry is_compressed_entry toggle
    (uncompress_entry is_compressed_entry toggle x fe)
  = normalize_entry is_compressed_entry toggle fe.
Proof.
  intros Huntoggle. unfold uncompress_entry, normalize_entry.
  destruct (is_compressed_entry fe) eqn:Hflag; [|by rewrite Hflag].
  by rewrite (Huntoggle fe Hflag).
Qed.

Lemma compress_data_variants L L' :
  (∀ fe, is_compressed_entry fe = false →
         is_compressed_entry (toggle fe) = true) →
  (∀ fe, toggle (toggle fe) = fe) →
  compress_data' L = Done L' ∨ compress_data' L = ExcInternalError L' →
  normalize_entry is_compressed_entry toggle <$> active_fe_indices L'
  = normalize_entry is_compressed_entry toggle <$> active_fe_indices L.
Proof.
  intros Hmarks Hinv [Hdone|Hraise].
  - destruct (nothing_stored L) eqn:Hruns.
    { rewrite (nothing_stored_Done L L' Hruns); [done|by left]. }
    apply (compress_data_Done L L' Hruns) in Hdone as (w & Hw & _ & ->).
    apply compress_writing_Done in Hw. simpl.
    apply (written_variants L _ _ _ _ w Hw). intros x fe.
    by apply compress_entry_variant.
  - apply compress_data_raise in Hraise
      as (_ & [Hs|(ns & _ & [Hw|(w & Hw & _ & ->)])]).
    + by apply compress_sizing_raise in Hs as (-> & _).
    + apply compress_writing_raise in Hw as (pre & x & post & w1 & _ & Hw & -> & _).
      simpl. apply (written_variants L _ _ _ _ w1 Hw). intros y fe.
      by apply compress_entry_variant.
    + apply compress_writing_Done in Hw. simpl.
      apply (written_variants L _ _ _ _ w Hw). intros y fe.
      by apply compress_entry_variant.
Qed.

Lemma uncompress_data_variants L L' :
  (∀ fe, is_compressed_entry fe = true →
         is_compressed_entry (toggle fe) = false) →
  uncompress_data' L = Done L' ∨ uncompress_data' L = ExcInternalError L' →
  normalize_entry is_compressed_entry toggle <$> active_fe_indices L'
  = normalize_entry is_compressed_entry toggle <$> active_fe_indices L.
Proof.
  intros Huntoggle [Hdone|Hraise].
  - destruct (nothing_stored L) eqn:Hruns.
    { rewrite (nothing_stored_Done L L' Hruns); [done|by right]. }
    apply (uncompress_data_Done L L' Hruns) in Hdone as (w & Hw & _ & ->).
    apply uncompress_writing_Done in Hw. simpl.
    apply (written_variants L _ _ _ _ w Hw). intros x fe _.
    by apply uncompress_entry_variant.
  - apply uncompress_data_raise in Hraise
      as (_ & ns & _ & [Hw|(w & Hw & _ & ->)]).
    + apply uncompress_writing_raise in Hw
        as (pre & x & post & w1 & _ & Hw & -> & _).
      simpl. apply (written_variants L _ _ _ _ w1 Hw). intros y fe _.
      by apply uncompress_entry_variant.
    + apply uncompress_writing_Done in Hw. simpl.
      apply (written_variants L _ _ _ _ w Hw). intros y fe _.
      by apply uncompress_entry_variant.
Qed.

(** X11: the passes change nothing of an entry but its compression flag,
    whether they finish or fail on the way.  The level [L'] that
    [compress_data] or [uncompress_data] leaves, swapped in at the end or
    left behind by [ExcInternalError], has, once
    [normalize_active_fe_indices] has gone through it, the entries that
    normalizing [L] gives: the variant of every cell is the one it was.
    The properties of the helpers used: toggling flips the mark of an
    entry, and toggling twice gives the entry back. *)
Theorem passes_keep_variants L L' :
  (∀ fe, is_compressed_entry fe = false →
         is_compressed_entry (toggle fe) = true) →
  (∀ fe, is_compressed_entry fe = true →
         is_compressed_entry (toggle fe) = false) →
  (∀ fe, toggle (toggle fe) = fe) →
  compress_data is_compressed_entry toggle n_dofs_per_object L = Done L'
  ∨ compress_data is_compressed_entry toggle n_dofs_per_object L
    = ExcInternalError L'
  ∨ uncompress_data is_compressed_entry toggle n_dofs_per_object L = Done L'
  ∨ uncompress_data is_compressed_entry toggle n_dofs_per_object L
    = ExcInternalError L' →
  let N := normalize_active_fe_indices is_compressed_entry toggle in
  active_fe_indices (N L') = active_fe_indices (N L).
Proof.
  intros Hmarks Huntoggle Hinv [H|[H|[H|H]]]; simpl.
  - apply compress_data_variants; tauto.
  - apply compress_data_variants; tauto.
  - apply uncompress_data_variants; tauto.
  - apply uncompress_data_variants; tauto.
Qed.

(** ** [compress_data] never makes the index array longer *)

Lemma monotone_blocks L :
  in_bounds L → monotone_offsets L →
  (length (active_cells L ≫= block_of L) ≤ length (dof_indices L))%nat.
Proof.
  intros (_ & Hsmall & Hoffsets) Hmono.
  assert (indices_size L = Z.of_nat (length (dof_indices L))) as Hsize.
  { unfold indices_size. rewrite to_unsigned_small; lia. }
  pose proof (next_active_offset_bounds (indices_size L)
                (Z.of_nat (length (dof_indices L))) (dof_offsets L)) as Hfirst.
  rewrite Hsize in Hfirst. specialize (Hfirst ltac:(lia) Hoffsets).
  unfold monotone_offsets, active_cells in *. rewrite Hsize in *.
  destruct (laid_out_from L (dof_offsets L) 0
              (Z.to_nat (next_active_offset
                           (Z.of_nat (length (dof_indices L)))
                           (dof_offsets L))))
    as (_ & _ & Hdrop).
  - simpl. lia.
  - intros x Hx. specialize (Hmono x Hx). lia.
  - rewrite <- Hdrop, length_drop. lia.
Qed.

Lemma sum_list_with_lt {A : Type} (f g : A → nat) (l : list A) (x : A) :
  (∀ y, y ∈ l → (f y ≤ g y)%nat) → x ∈ l → (f x < g x)%nat →
  (sum_list_with f l < sum_list_with g l)%nat.
Proof.
  intros Hle Hx Hlt. apply list_elem_of_lookup in Hx as [i Hx].
  rewrite <- (take_drop_middle l i x Hx) in Hle |- *.
  rewrite !sum_list_with_app. simpl.
  assert (sum_list_with f (take i l) ≤ sum_list_with g (take i l))%nat.
  { apply sum_list_with_le. intros y Hy. apply Hle, elem_of_app. by left. }
  assert (sum_list_with f (drop (S i) l) ≤ sum_list_with g (drop (S i) l))%nat.
  { apply sum_list_with_le. intros y Hy. apply Hle, elem_of_app.
    right. by right. }
  lia.
Qed.

(** X12: [compress_data] never makes the index array longer, on a level
    within bounds whose offsets never decrease; and it makes the array
    shorter as soon as one block of two values or more is a run. *)
Theorem compress_never_grows L L' :
  in_bounds L → monotone_offsets L →
  compress_data is_compressed_entry toggle n_dofs_per_object L = Done L' →
  (length (dof_indices L') ≤ length (dof_indices L))%nat
  ∧ ((∃ x, x ∈ active_cells L
           ∧ compressible (stored_block L x.1.2 x.2) = true
           ∧ (2 ≤ length (stored_block L x.1.2 x.2))%nat) →
     (length (dof_indices L') < length (dof_indices L))%nat).
Proof.
  intros Hb Hmono Hdone. destruct (nothing_stored L) eqn:Hruns.
  { rewrite (nothing_stored_Done L L' Hruns) by (by left). split; [done|].
    intros (x & Hx & _ & Hlen).
    destruct (nothing_stored_block L x Hruns Hx) as [Hnil _].
    rewrite Hnil in Hlen. simpl in Hlen. lia. }
  apply (compress_data_Done L L' Hruns) in Hdone as (w & Hw & _ & ->).
  apply compress_writing_Done in Hw. simpl.
  rewrite (compress_written_length L _ w Hw).
  pose proof (monotone_blocks L Hb Hmono) as Hblocks.
  rewrite length_bind in Hblocks. split.
  - etransitivity; [|done]. apply sum_list_with_le.
    intros x _. apply compressed_size_le.
  - intros (x & Hx & Hc & Hlen).
    eapply Nat.lt_le_trans; [|done].
    apply (sum_list_with_lt _ _ _ x); [|done|].
    + intros y _. apply compressed_size_le.
    + destruct x as [[c o] n]. simpl in *. rewrite Hc. lia.
Qed.

(** ** A wrong block length is found before anything is changed *)

(** X13: a block whose length disagrees with the catalog makes
    [compress_data] fail before it has changed anything.  On a level
    within bounds that stores something, if the stored block length of
    some active cell differs from the catalog length of its entry,
    [compress_data] raises [ExcInternalError] out of its first run
    through, and the level is as it was: no entry has been toggled.
    ([uncompress_data] checks the block lengths in its second run
    through only, after it may have untoggled the entries of earlier
    cells.) *)
Theorem compress_mismatch_leaves_level L x fe :
  nothing_stored L = false → in_bounds L →
  x ∈ active_cells L → active_fe_indices L !! x.1.1 = Some fe →
  block_length_mismatch n_dofs_per_object x fe →
  compress_data is_compressed_entry toggle n_dofs_per_object L
  = ExcInternalError L.
Proof.
  intros Hruns Hb Hx Hfe Hbad.
  pose proof (compress_data_defined L Hb) as Hdefined.
  pose proof (compress_data_fuel L) as Hfuel.
  unfold compress_data in *. rewrite Hruns in *.
  destruct (compress_sizing' L) as [s|lv| |] eqn:Hs; try done.
  - destruct (compress_sizing_checked L s x Hs Hx) as (fe' & Hfe' & Hlen).
    assert (fe' = fe) as -> by congruence. by destruct Hbad.
  - by apply compress_sizing_raise in Hs as (-> & _).
Qed.

(** ** A finished pass leaves the blocks packed *)

Lemma written_packed L out ok upd w :
  written L out ok upd (active_cells L) w →
  Z.of_nat (length (new_dof_indices w)) < invalid_offset →
  next_active_offset (indices_size (swapped w)) (dof_offsets (swapped w)) = 0
  ∧ dof_indices (swapped w)
    = active_cells (swapped w) ≫= block_of (swapped w)
  ∧ monotone_offsets (swapped w).
Proof.
  intros Hw Hsmall. split; [by eapply written_first_offset|]. split.
  - pose proof (written_active_cells L out ok upd w Hw Hsmall) as Hcells.
    pose proof (relocate_blocks out (swapped w) (active_cells L) [])
      as Hblocks.
    change (length (@nil Z)) with 0%nat in Hblocks.
    rewrite <- Hcells in Hblocks.
    assert (dof_indices (swapped w) = [] ++ (active_cells L ≫= out))
      as Hind by (simpl; by destruct Hw as (-> & _)).
    specialize (Hblocks Hind). rewrite Hind. simpl. symmetry.
    apply bind_Forall2. eapply Forall2_impl; [done|].
    by intros x x1 [_ ?].
  - intros x1 [i Hx1]%list_elem_of_lookup.
    destruct (written_cells_lookup L out ok upd w i x1 Hw Hsmall Hx1)
      as (x & _ & _ & _ & Hlen & _).
    lia.
Qed.

(** X14: a pass that has not returned at the empty-vector test and has
    finished leaves the blocks packed, whatever the layout was before:
    the block of the first active cell starts at the front of the new
    [dof_indices], no block ends before it starts, and the new
    [dof_indices] is the blocks of the active cells one after the other,
    with nothing before, between or after them.  (The new [dof_indices]
    must have fewer than 2^32-1 values, so that no position in it is the
    invalid offset.) *)
Theorem finished_pass_is_packed L L' :
  nothing_stored L = false →
  compress_data is_compressed_entry toggle n_dofs_per_object L = Done L'
  ∨ uncompress_data is_compressed_entry toggle n_dofs_per_object L
    = Done L' →
  Z.of_nat (length (dof_indices L')) < invalid_offset →
  next_active_offset (indices_size L') (dof_offsets L') = 0
  ∧ dof_indices L'
    = active_cells L' ≫= (λ x, stored_block L' x.1.2 x.2)
  ∧ monotone_offsets L'.
Proof.
  intros Hruns [Hdone|Hdone] Hsmall.
  - apply (compress_data_Done L L' Hruns) in Hdone as (w & Hw & _ & ->).
    apply compress_writing_Done in Hw. by eapply written_packed.
  - apply (uncompress_data_Done L L' Hruns) in Hdone as (w & Hw & _ & ->).
    apply uncompress_writing_Done in Hw. by eapply written_packed.
Qed.

End Properties.

(** * The claims on concrete levels *)

Abbreviation stub_toggle := Stub.get_toggled_compression_state.

Lemma stub_toggle_flips (fe : Z) :
  Stub.is_compressed_entry (stub_toggle fe)
  = negb (Stub.is_compressed_entry fe).
Proof.
  unfold Stub.is_compressed_entry, Stub.get_toggled_compression_state.
  rewrite Z.lxor_spec, Z.pow2_bits_true by lia.
  by destruct (Z.testbit fe 15).
Qed.

Lemma stub_toggle_involutive (fe : Z) : stub_toggle (stub_toggle fe) = fe.
Proof.
  unfold Stub.get_toggled_compression_state.
  by rewrite Z.lxor_assoc, Z.lxor_nilpotent, Z.lxor_0_r.
Qed.

Lemma stub_untoggle (fe : Z) :
  Stub.is_compressed_entry fe = true →
  Stub.is_compressed_entry (stub_toggle fe) = false.
Proof. intros H. by rewrite stub_toggle_flips, H. Qed.

Lemma stub_toggle_marks (fe : Z) :
  Stub.is_compressed_entry fe = false →
  Stub.is_compressed_entry (stub_toggle fe) = true.
Proof. intros H. by rewrite stub_toggle_flips, H. Qed.

(** ** C7 *)

Lemma empty_vector_is_noop_witness :
  dof_indices Stub.no_indices = []
  ∧ Stub.compress Stub.no_indices = Done Stub.no_indices
  ∧ Stub.uncompress Stub.no_indices = Done Stub.no_indices.
Proof.
  split; [reflexivity|].
  apply (empty_vector_is_noop Stub.is_compressed_entry stub_toggle
           Stub.n_dofs Stub.no_indices).
  right. reflexivity.
Defined.

(** C7 as stated fails: with one cell and no indices, exactly one of the
    two arrays is empty, and both passes return the level as it is instead
    of raising. *)
Lemma one_empty_vector_counterexample :
  dof_offsets Stub.no_indices ≠ []
  ∧ dof_indices Stub.no_indices = []
  ∧ Stub.compress Stub.no_indices = Done Stub.no_indices
  ∧ Stub.uncompress Stub.no_indices = Done Stub.no_indices
  ∧ ¬ raises (Stub.compress Stub.no_indices)
  ∧ ¬ raises (Stub.uncompress Stub.no_indices).
Proof.
  split; [done|]. split; [done|]. split; [done|]. split; [done|].
  split; intros [lv H]; discriminate H.
Qed.

(** ** C9 *)

Lemma normalize_idempotent_witness :
  dof_indices (Stub.normalize Stub.marked) = dof_indices Stub.marked
  ∧ dof_offsets (Stub.normalize Stub.marked) = dof_offsets Stub.marked
  ∧ (∀ (c : nat) fe, active_fe_indices Stub.marked !! c = Some fe →
       active_fe_indices (Stub.normalize Stub.marked) !! c
       = Some (if Stub.is_compressed_entry fe then stub_toggle fe else fe))
  ∧ (∀ (c : nat) fe,
       active_fe_indices (Stub.normalize Stub.marked) !! c = Some fe →
       Stub.is_compressed_entry fe = false)
  ∧ Stub.normalize (Stub.normalize Stub.marked) = Stub.normalize Stub.marked.
Proof.
  apply (normalize_idempotent Stub.is_compressed_entry stub_toggle
           Stub.marked stub_untoggle).
Defined.

(** ** C8 *)

Lemma failed_pass_keeps_vectors_witness :
  Stub.uncompress Stub.half_broken = ExcInternalError Stub.half_broken_raised
  ∧ dof_indices Stub.half_broken_raised = dof_indices Stub.half_broken
  ∧ dof_offsets Stub.half_broken_raised = dof_offsets Stub.half_broken
  ∧ (∀ c : nat,
       active_fe_indices Stub.half_broken_raised !! c
       = active_fe_indices Stub.half_broken !! c
       ∨ active_fe_indices Stub.half_broken_raised !! c
         = stub_toggle <$> active_fe_indices Stub.half_broken !! c)
  ∧ ((∃ pre x post fe,
        active_cells Stub.half_broken = pre ++ x :: post
        ∧ entries_through
            (uncompress_ok Stub.is_compressed_entry stub_toggle Stub.n_dofs
               Stub.half_broken)
            (uncompress_entry Stub.is_compressed_entry stub_toggle)
            Stub.half_broken pre Stub.half_broken_raised
        ∧ active_fe_indices Stub.half_broken !! x.1.1 = Some fe
        ∧ uncompress_bad Stub.is_compressed_entry Stub.n_dofs x fe)
     ∨ entries_through
         (uncompress_ok Stub.is_compressed_entry stub_toggle Stub.n_dofs
            Stub.half_broken)
         (uncompress_entry Stub.is_compressed_entry stub_toggle)
         Stub.half_broken (active_cells Stub.half_broken)
         Stub.half_broken_raised).
Proof.
  assert (Stub.uncompress Stub.half_broken
          = ExcInternalError Stub.half_broken_raised)
    as Hraise by (vm_compute; reflexivity).
  split; [exact Hraise|].
  apply (failed_pass_keeps_vectors Stub.is_compressed_entry stub_toggle
           Stub.n_dofs Stub.half_broken Stub.half_broken_raised).
  exact Hraise.
Defined.

(** C8 as stated fails: [uncompress_data] expands the first cell of this
    level and untoggles its entry, then raises on the second cell; the
    entry of the first cell stays untoggled although nothing was swapped
    in. *)
Lemma failed_pass_counterexample :
  Stub.uncompress Stub.half_broken = ExcInternalError Stub.half_broken_raised
  ∧ active_fe_indices Stub.half_broken = [32768; 0]
  ∧ active_fe_indices Stub.half_broken_raised = [0; 0]
  ∧ Stub.half_broken_raised ≠ Stub.half_broken.
Proof.
  split; [vm_compute; reflexivity|]. split; [done|]. split; [done|].
  intros H. discriminate H.
Qed.

(** ** C5 *)

Lemma inactive_cells_stay_inactive_witness :
  Stub.compress Stub.scenario = Done Stub.scenario_compressed
  ∧ length (dof_offsets Stub.scenario_compressed)
    = length (dof_offsets Stub.scenario)
  ∧ (∀ c : nat, dof_offsets Stub.scenario !! c = Some invalid_offset →
       dof_offsets Stub.scenario_compressed !! c = Some invalid_offset)
  ∧ (Z.of_nat (length (dof_indices Stub.scenario_compressed))
     < invalid_offset →
     ∀ (c : nat) o, dof_offsets Stub.scenario !! c = Some o →
       o ≠ invalid_offset →
       ∃ o', dof_offsets Stub.scenario_compressed !! c = Some o'
             ∧ o' ≠ invalid_offset).
Proof.
  split; [vm_compute; reflexivity|].
  apply (inactive_cells_stay_inactive Stub.is_compressed_entry stub_toggle
           Stub.n_dofs Stub.scenario Stub.scenario_compressed).
  left. vm_compute. reflexivity.
Defined.

(** ** C4 *)

Lemma size_after_pass_witness :
  (nothing_stored Stub.scenario = true →
   size_invariant Stub.is_compressed_entry Stub.n_dofs Stub.scenario)
  ∧ Stub.compress Stub.scenario = Done Stub.scenario_compressed
  ∧ length (dof_indices Stub.scenario_compressed)
    = sum_list_with (compressed_size Stub.scenario)
        (active_cells Stub.scenario)
  ∧ Stub.uncompress Stub.scenario_compressed = Done Stub.scenario
  ∧ length (dof_indices Stub.scenario)
    = sum_list_with
        (catalog_length Stub.is_compressed_entry stub_toggle
           Stub.n_dofs Stub.scenario_compressed)
        (cell_numbers (active_cells Stub.scenario_compressed)).
Proof.
  split; [intros _; vm_compute; reflexivity|].
  split; [vm_compute; reflexivity|].
  split.
  - apply (size_after_pass Stub.is_compressed_entry stub_toggle Stub.n_dofs
             Stub.scenario Stub.scenario_compressed).
    + intros _. vm_compute. reflexivity.
    + vm_compute. reflexivity.
  - split; [vm_compute; reflexivity|].
    apply (size_after_pass Stub.is_compressed_entry stub_toggle Stub.n_dofs
             Stub.scenario_compressed Stub.scenario).
    + intros _. vm_compute. reflexivity.
    + vm_compute. reflexivity.
    + vm_compute. reflexivity.
Defined.

(** ** C6 *)

Lemma raises_iff_violation_witness :
  nothing_stored Stub.half_broken = false
  ∧ Stub.compress Stub.half_broken ≠ Undefined
  ∧ Stub.uncompress Stub.half_broken ≠ Undefined
  ∧ (raises (Stub.compress Stub.half_broken)
     ↔ compress_violation Stub.is_compressed_entry stub_toggle
         Stub.n_dofs Stub.half_broken)
  ∧ (raises (Stub.uncompress Stub.half_broken)
     ↔ uncompress_violation Stub.is_compressed_entry stub_toggle
         Stub.n_dofs Stub.half_broken).
Proof.
  assert (Stub.compress Stub.half_broken ≠ Undefined) as Hc.
  { vm_compute. intros H. discriminate H. }
  assert (Stub.uncompress Stub.half_broken ≠ Undefined) as Hu.
  { vm_compute. intros H. discriminate H. }
  split; [reflexivity|]. split; [exact Hc|]. split; [exact Hu|].
  destruct (raises_iff_violation Stub.is_compressed_entry stub_toggle
              Stub.n_dofs Stub.half_broken eq_refl) as [Hcompress Huncompress].
  split; [exact (Hcompress Hc)|exact (Huncompress Hu)].
Defined.

(** C6 as stated fails: the one cell of this level is active and its
    stored block length, zero, disagrees with the catalog block length,
    four, of its variant; yet [compress_data] and [uncompress_data] return
    at once, since the level has no indices, and do not raise. *)
Lemma unchecked_level_counterexample :
  (0%nat, 0, 0) ∈ active_cells Stub.no_indices
  ∧ active_fe_indices Stub.no_indices !! 0%nat = Some 0
  ∧ block_length_mismatch Stub.n_dofs (0%nat, 0, 0) 0
  ∧ compress_violation Stub.is_compressed_entry stub_toggle Stub.n_dofs
      Stub.no_indices
  ∧ uncompress_violation Stub.is_compressed_entry stub_toggle Stub.n_dofs
      Stub.no_indices
  ∧ ¬ raises (Stub.compress Stub.no_indices)
  ∧ ¬ raises (Stub.uncompress Stub.no_indices).
Proof.
  assert ((0%nat, 0, 0) ∈ active_cells Stub.no_indices) as Hcell.
  { change (active_cells Stub.no_indices) with [(0%nat, 0, 0)]. left. }
  assert (block_length_mismatch Stub.n_dofs (0%nat, 0, 0) 0) as Hbad.
  { intros H. vm_compute in H. discriminate H. }
  split; [done|]. split; [done|]. split; [done|].
  split; [left; exists (0%nat, 0, 0), 0; auto|].
  split; [left; by exists (0%nat, 0, 0), 0|].
  split; intros [lv H]; discriminate H.
Qed.

(** ** C10 *)

Lemma single_value_block_is_compressed_witness :
  Stub.compress Stub.single_value = Done Stub.single_value_compressed
  ∧ @is_compressible Z (dof_indices Stub.single_value) 0 1 = Done true
  ∧ ∃ fe v o',
      active_fe_indices Stub.single_value !! 0%nat = Some fe
      ∧ Stub.n_dofs fe = 1%nat
      ∧ stored_block Stub.single_value 0 1 = [v]
      ∧ dof_offsets Stub.single_value_compressed !! 0%nat = Some o'
      ∧ 0 ≤ o'
      ∧ dof_indices Stub.single_value_compressed !! Z.to_nat o' = Some v
      ∧ active_fe_indices Stub.single_value_compressed !! 0%nat
        = Some (stub_toggle fe)
      ∧ Stub.is_compressed_entry (stub_toggle fe) = true.
Proof.
  split; [vm_compute; reflexivity|].
  apply (single_value_block_is_compressed Stub.is_compressed_entry
           stub_toggle Stub.n_dofs Stub.single_value
           Stub.single_value_compressed 0%nat 0 1 stub_toggle_marks).
  - vm_compute. reflexivity.
  - change (active_cells Stub.single_value) with [(0%nat, 0, 1)]. left.
  - reflexivity.
Defined.

(** ** C2 *)

Lemma compress_collapses_runs_witness :
  Stub.compress Stub.two_blocks = Done Stub.two_blocks_compressed
  ∧ Forall2
      (λ '(c, o, n) '(c', o', n'),
         c' = c
         ∧ let block := stored_block Stub.two_blocks o n in
           let block' := stored_block Stub.two_blocks_compressed o' n' in
           (block ≠ [] ∧ consecutive block →
            block' = take 1 block
            ∧ active_fe_indices Stub.two_blocks_compressed !! c
              = stub_toggle <$> active_fe_indices Stub.two_blocks !! c)
           ∧ (¬ (block ≠ [] ∧ consecutive block) →
              block' = block
              ∧ active_fe_indices Stub.two_blocks_compressed !! c
                = active_fe_indices Stub.two_blocks !! c))
      (active_cells Stub.two_blocks)
      (active_cells Stub.two_blocks_compressed).
Proof.
  split; [vm_compute; reflexivity|].
  apply (compress_collapses_runs Stub.is_compressed_entry stub_toggle
           Stub.n_dofs Stub.two_blocks Stub.two_blocks_compressed).
  - vm_compute. reflexivity.
  - vm_compute. reflexivity.
Defined.

(** ** C3 *)

Lemma uncompress_expands_runs_witness :
  Stub.uncompress Stub.scenario_compressed = Done Stub.scenario
  ∧ Forall2
      (λ '(c, o, n) '(c', o', n'),
         c' = c
         ∧ ∀ fe, active_fe_indices Stub.scenario_compressed !! c = Some fe →
             if Stub.is_compressed_entry fe then
               ∀ v, dof_indices Stub.scenario_compressed !! Z.to_nat o
                    = Some v →
                 stored_block Stub.scenario o' n'
                 = expand_run v (Stub.n_dofs (stub_toggle fe))
                 ∧ active_fe_indices Stub.scenario !! c
                   = Some (stub_toggle fe)
             else
               stored_block Stub.scenario o' n'
               = stored_block Stub.scenario_compressed o n
               ∧ active_fe_indices Stub.scenario !! c = Some fe)
      (active_cells Stub.scenario_compressed)
      (active_cells Stub.scenario).
Proof.
  split; [vm_compute; reflexivity|].
  apply (uncompress_expands_runs Stub.is_compressed_entry stub_toggle
           Stub.n_dofs Stub.scenario_compressed Stub.scenario).
  - vm_compute. reflexivity.
  - vm_compute. reflexivity.
Defined.

(** ** C1 *)

Lemma scenario_uncompressed_form :
  uncompressed_form Stub.is_compressed_entry Stub.n_dofs Stub.scenario.
Proof.
  assert (∀ x, x ∈ active_cells Stub.scenario →
            x = (0%nat, 0, 4) ∨ x = (2%nat, 4, 8)) as Hcells.
  { intros x. change (active_cells Stub.scenario)
      with [(0%nat, 0, 4); (2%nat, 4, 8)].
    rewrite !elem_of_cons. intros [?|[?|?%elem_of_nil]]; auto. done. }
  split; [split; [|split]|split].
  - vm_compute. reflexivity.
  - reflexivity.
  - intros x [-> | ->]%Hcells; by exists 0.
  - repeat constructor; lia.
  - intros x fe [-> | ->]%Hcells [= <-]; reflexivity.
Qed.

Lemma compress_uncompress_roundtrip_witness :
  uncompressed_form Stub.is_compressed_entry Stub.n_dofs Stub.scenario
  ∧ ∃ L1, Stub.compress Stub.scenario = Done L1
          ∧ Stub.uncompress L1 = Done Stub.scenario.
Proof.
  split; [exact scenario_uncompressed_form|].
  apply (compress_uncompress_roundtrip Stub.is_compressed_entry stub_toggle
           Stub.n_dofs Stub.scenario stub_toggle_marks
           stub_toggle_involutive scenario_uncompressed_form).
Defined.

(** * The further properties on concrete levels *)

Lemma scenario_in_bounds : in_bounds Stub.scenario.
Proof.
  split; [simpl; lia|]. split; [simpl; lia|].
  repeat (constructor; [first [left; reflexivity|right; simpl; lia]|]).
  constructor.
Qed.

Lemma scenario_compressed_in_bounds : in_bounds Stub.scenario_compressed.
Proof.
  split; [simpl; lia|]. split; [simpl; lia|].
  repeat (constructor; [first [left; reflexivity|right; simpl; lia]|]).
  constructor.
Qed.

Lemma half_broken_in_bounds : in_bounds Stub.half_broken.
Proof.
  split; [simpl; lia|]. split; [simpl; lia|].
  repeat (constructor; [first [left; reflexivity|right; simpl; lia]|]).
  constructor.
Qed.

Lemma short_block_in_bounds : in_bounds Stub.short_block.
Proof.
  split; [simpl; lia|]. split; [simpl; lia|].
  repeat (constructor; [first [left; reflexivity|right; simpl; lia]|]).
  constructor.
Qed.

Lemma scenario_cells x :
  x ∈ active_cells Stub.scenario → x = (0%nat, 0, 4) ∨ x = (2%nat, 4, 8).
Proof.
  change (active_cells Stub.scenario) with [(0%nat, 0, 4); (2%nat, 4, 8)].
  rewrite !elem_of_cons. intros [?|[?|?%elem_of_nil]]; auto. done.
Qed.

Lemma scenario_compressed_cells x :
  x ∈ active_cells Stub.scenario_compressed →
  x = (0%nat, 0, 1) ∨ x = (2%nat, 1, 5).
Proof.
  change (active_cells Stub.scenario_compressed)
    with [(0%nat, 0, 1); (2%nat, 1, 5)].
  rewrite !elem_of_cons. intros [?|[?|?%elem_of_nil]]; auto. done.
Qed.

Lemma scenario_monotone : monotone_offsets Stub.scenario.
Proof. intros x [-> | ->]%scenario_cells; simpl; lia. Qed.

Lemma scenario_compressed_monotone :
  monotone_offsets Stub.scenario_compressed.
Proof. intros x [-> | ->]%scenario_compressed_cells; simpl; lia. Qed.

Lemma scenario_compressed_laid_out :
  well_laid_out Stub.is_compressed_entry Stub.n_dofs Stub.scenario_compressed.
Proof.
  split; [vm_compute; reflexivity|]. split; [reflexivity|].
  intros x [-> | ->]%scenario_compressed_cells;
    [by exists 32768|by exists 0].
Qed.

Lemma scenario_compressed_form :
  compressed_form Stub.is_compressed_entry stub_toggle Stub.n_dofs
    Stub.scenario_compressed.
Proof.
  split; [exact scenario_compressed_laid_out|]. split; [|split].
  - repeat constructor; lia.
  - vm_compute. reflexivity.
  - intros x fe [-> | ->]%scenario_compressed_cells [= <-];
      [by vm_compute|reflexivity].
Qed.

(** ** X1 and X2: on a level whose second cell has a block of the wrong
    length both passes raise, and read nothing outside a vector *)

Lemma compress_data_in_bounds_witness :
  in_bounds Stub.half_broken
  ∧ ((∃ L', Stub.compress Stub.half_broken = Done L')
     ∨ raises (Stub.compress Stub.half_broken)).
Proof.
  split; [exact half_broken_in_bounds|].
  apply (compress_data_in_bounds Stub.is_compressed_entry stub_toggle
           Stub.n_dofs Stub.half_broken half_broken_in_bounds).
Defined.

Lemma uncompress_data_in_bounds_witness :
  in_bounds Stub.half_broken
  ∧ ((∃ L', Stub.uncompress Stub.half_broken = Done L')
     ∨ raises (Stub.uncompress Stub.half_broken)).
Proof.
  split; [exact half_broken_in_bounds|].
  apply (uncompress_data_in_bounds Stub.is_compressed_entry stub_toggle
           Stub.n_dofs Stub.half_broken half_broken_in_bounds).
Defined.

(** ** X3 *)

Lemma passes_keep_in_bounds_witness :
  in_bounds Stub.scenario
  ∧ Stub.compress Stub.scenario = Done Stub.scenario_compressed
  ∧ in_bounds Stub.scenario_compressed.
Proof.
  assert (Stub.compress Stub.scenario = Done Stub.scenario_compressed)
    as Hdone by (vm_compute; reflexivity).
  split; [exact scenario_in_bounds|]. split; [exact Hdone|].
  apply (passes_keep_in_bounds Stub.is_compressed_entry stub_toggle
           Stub.n_dofs Stub.scenario Stub.scenario_compressed
           scenario_in_bounds).
  left. exact Hdone.
Defined.

(** ** X4 and X5: five values are counted and written for the scenario,
    eight for the compressed scenario *)

Lemma compress_sizing_counts_written_witness :
  nothing_stored Stub.scenario = false
  ∧ compress_writing Stub.is_compressed_entry stub_toggle Stub.n_dofs
      Stub.scenario = Done Stub.scenario_written
  ∧ compress_sizing Stub.n_dofs Stub.scenario = Done 5
  ∧ Stub.compress Stub.scenario = Done Stub.scenario_compressed.
Proof.
  assert (compress_writing Stub.is_compressed_entry stub_toggle Stub.n_dofs
            Stub.scenario = Done Stub.scenario_written)
    as Hw by (vm_compute; reflexivity).
  split; [reflexivity|]. split; [exact Hw|].
  destruct (compress_sizing_counts_written Stub.is_compressed_entry
              stub_toggle Stub.n_dofs Stub.scenario Stub.scenario_written
              eq_refl Hw) as [Hs Hdone].
  split; [exact Hs|]. apply Hdone. simpl. lia.
Defined.

Lemma uncompress_sizing_counts_written_witness :
  nothing_stored Stub.scenario_compressed = false
  ∧ monotone_offsets Stub.scenario_compressed
  ∧ uncompress_writing Stub.is_compressed_entry stub_toggle Stub.n_dofs
      Stub.scenario_compressed = Done Stub.scenario_expanded
  ∧ uncompress_sizing Stub.is_compressed_entry stub_toggle Stub.n_dofs
      Stub.scenario_compressed = Done 8
  ∧ Stub.uncompress Stub.scenario_compressed = Done Stub.scenario.
Proof.
  assert (uncompress_writing Stub.is_compressed_entry stub_toggle Stub.n_dofs
            Stub.scenario_compressed = Done Stub.scenario_expanded)
    as Hw by (vm_compute; reflexivity).
  assert (Z.of_nat (length (dof_indices Stub.scenario_compressed)) < 2 ^ 32)
    as Hsmall by (simpl; lia).
  split; [reflexivity|]. split; [exact scenario_compressed_monotone|].
  split; [exact Hw|].
  destruct (uncompress_sizing_counts_written Stub.is_compressed_entry
              stub_toggle Stub.n_dofs Stub.scenario_compressed
              Stub.scenario_expanded eq_refl Hsmall
              scenario_compressed_monotone Hw) as [Hs Hdone].
  split; [exact Hs|]. apply Hdone. simpl. lia.
Defined.

(** ** X6 *)

Lemma uncompress_uncompressed_is_noop_witness :
  uncompressed_form Stub.is_compressed_entry Stub.n_dofs Stub.scenario
  ∧ Stub.uncompress Stub.scenario = Done Stub.scenario.
Proof.
  split; [exact scenario_uncompressed_form|].
  apply (uncompress_uncompressed_is_noop Stub.is_compressed_entry stub_toggle
           Stub.n_dofs Stub.scenario scenario_uncompressed_form).
Defined.

(** ** X7 *)

Lemma uncompress_gives_uncompressed_form_witness :
  well_laid_out Stub.is_compressed_entry Stub.n_dofs Stub.scenario_compressed
  ∧ ∃ L', Stub.uncompress Stub.scenario_compressed = Done L'
          ∧ uncompressed_form Stub.is_compressed_entry Stub.n_dofs L'.
Proof.
  split; [exact scenario_compressed_laid_out|].
  apply (uncompress_gives_uncompressed_form Stub.is_compressed_entry
           stub_toggle Stub.n_dofs Stub.scenario_compressed stub_untoggle
           scenario_compressed_laid_out).
  - repeat constructor; lia.
  - vm_compute. reflexivity.
Defined.

(** ** X8 *)

Lemma compress_gives_compressed_form_witness :
  uncompressed_form Stub.is_compressed_entry Stub.n_dofs Stub.scenario
  ∧ ∃ L', Stub.compress Stub.scenario = Done L'
          ∧ compressed_form Stub.is_compressed_entry stub_toggle
              Stub.n_dofs L'.
Proof.
  split; [exact scenario_uncompressed_form|].
  apply (compress_gives_compressed_form Stub.is_compressed_entry stub_toggle
           Stub.n_dofs Stub.scenario stub_toggle_marks
           stub_toggle_involutive scenario_uncompressed_form).
Defined.

(** ** X9 *)

Lemma uncompress_compress_roundtrip_witness :
  compressed_form Stub.is_compressed_entry stub_toggle Stub.n_dofs
    Stub.scenario_compressed
  ∧ ∃ L0, Stub.uncompress Stub.scenario_compressed = Done L0
          ∧ Stub.compress L0 = Done Stub.scenario_compressed.
Proof.
  split; [exact scenario_compressed_form|].
  apply (uncompress_compress_roundtrip Stub.is_compressed_entry stub_toggle
           Stub.n_dofs Stub.scenario_compressed stub_untoggle
           stub_toggle_involutive scenario_compressed_form).
Defined.

(** ** X10: the scenario cannot be compressed twice *)

Lemma compress_twice_never_finishes_witness :
  Stub.compress Stub.scenario = Done Stub.scenario_compressed
  ∧ compressible (stored_block Stub.scenario 0 4) = true
  ∧ Stub.compress Stub.scenario_compressed ≠ Done Stub.scenario_compressed.
Proof.
  assert (Stub.compress Stub.scenario = Done Stub.scenario_compressed)
    as Hdone by (vm_compute; reflexivity).
  split; [exact Hdone|]. split; [reflexivity|].
  apply (compress_twice_never_finishes Stub.is_compressed_entry stub_toggle
           Stub.n_dofs Stub.scenario Stub.scenario_compressed
           Stub.scenario_compressed (0%nat, 0, 4)
           stub_toggle_marks Hdone).
  - vm_compute. reflexivity.
  - change (active_cells Stub.scenario) with [(0%nat, 0, 4); (2%nat, 4, 8)].
    apply list_elem_of_here.
  - reflexivity.
Defined.

(** ** X11: the failed pass of C8 has untoggled the entry of the first
    cell, and the variants are those of before *)

Lemma passes_keep_variants_witness :
  Stub.uncompress Stub.half_broken = ExcInternalError Stub.half_broken_raised
  ∧ active_fe_indices (Stub.normalize Stub.half_broken_raised)
    = active_fe_indices (Stub.normalize Stub.half_broken).
Proof.
  assert (Stub.uncompress Stub.half_broken
          = ExcInternalError Stub.half_broken_raised)
    as Hraise by (vm_compute; reflexivity).
  split; [exact Hraise|].
  apply (passes_keep_variants Stub.is_compressed_entry stub_toggle
           Stub.n_dofs Stub.half_broken Stub.half_broken_raised
           stub_toggle_marks stub_untoggle stub_toggle_involutive).
  right. right. right. exact Hraise.
Defined.

(** ** X12 *)

Lemma compress_never_grows_witness :
  in_bounds Stub.scenario
  ∧ monotone_offsets Stub.scenario
  ∧ Stub.compress Stub.scenario = Done Stub.scenario_compressed
  ∧ (length (dof_indices Stub.scenario_compressed)
     < length (dof_indices Stub.scenario))%nat.
Proof.
  assert (Stub.compress Stub.scenario = Done Stub.scenario_compressed)
    as Hdone by (vm_compute; reflexivity).
  split; [exact scenario_in_bounds|]. split; [exact scenario_monotone|].
  split; [exact Hdone|].
  apply (compress_never_grows Stub.is_compressed_entry stub_toggle
           Stub.n_dofs Stub.scenario Stub.scenario_compressed
           scenario_in_bounds scenario_monotone Hdone).
  exists (0%nat, 0, 4). split; [|split].
  - change (active_cells Stub.scenario) with [(0%nat, 0, 4); (2%nat, 4, 8)].
    apply list_elem_of_here.
  - reflexivity.
  - simpl. lia.
Defined.

(** ** X13: three values where the variant has four *)

Lemma compress_mismatch_leaves_level_witness :
  in_bounds Stub.short_block
  ∧ block_length_mismatch Stub.n_dofs (0%nat, 0, 3) 0
  ∧ Stub.compress Stub.short_block = ExcInternalError Stub.short_block.
Proof.
  assert (block_length_mismatch Stub.n_dofs (0%nat, 0, 3) 0) as Hbad.
  { vm_compute. intros H. discriminate H. }
  split; [exact short_block_in_bounds|]. split; [exact Hbad|].
  apply (compress_mismatch_leaves_level Stub.is_compressed_entry stub_toggle
           Stub.n_dofs Stub.short_block (0%nat, 0, 3) 0 eq_refl
           short_block_in_bounds).
  - change (active_cells Stub.short_block) with [(0%nat, 0, 3)].
    apply list_elem_of_here.
  - reflexivity.
  - exact Hbad.
Defined.

(** ** X14: a level with two unused values in front of its one block *)

Lemma finished_pass_is_packed_witness :
  Stub.compress Stub.leading_gap = Done Stub.single_run
  ∧ next_active_offset (indices_size Stub.single_run)
      (dof_offsets Stub.single_run) = 0
  ∧ dof_indices Stub.single_run
    = active_cells Stub.single_run
        ≫= (λ x, stored_block Stub.single_run x.1.2 x.2)
  ∧ monotone_offsets Stub.single_run.
Proof.
  assert (Stub.compress Stub.leading_gap = Done Stub.single_run)
    as Hdone by (vm_compute; reflexivity).
  split; [exact Hdone|].
  apply (finished_pass_is_packed Stub.is_compressed_entry stub_toggle
           Stub.n_dofs Stub.leading_gap Stub.single_run eq_refl).
  - left. exact Hdone.
  - vm_compute. reflexivity.
Defined.
